(** * Solar-System-Explorer: the numerical engine, embedded and verified

    A shallow embedding of the astronomy utilities ([utils/astronomy]), the
    camera projection ([core/projection]), the render-quality opacity
    ([core/renderConfig]) and the search scheduler of the simulation hook
    ([hooks/useSimulation]).

    Number model.  A JavaScript [number] is modelled by a real number [R]:
    the development describes the exactly computed, finite behaviour of the
    code.  Rounding, [NaN] and the infinities are outside the model: the
    theorems below are about orderings, branch and loop structure and the
    exact geometry of the formulas, none is about the size of a rounding
    error. *)

From Stdlib Require Import Reals Lra Lia List String Bool ZArith.
From Stdlib Require Import Permutation Sorted.
Import ListNotations.

Open Scope R_scope.

(** ** JavaScript primitives *)

Module JS.

(** [x < y] and [x <= y] as the booleans a JavaScript comparison yields. *)
Definition ltb (x y : R) : bool := if Rlt_dec x y then true else false.
Definition leb (x y : R) : bool := if Rle_dec x y then true else false.
Definition eqb (x y : R) : bool := if Req_dec_T x y then true else false.

(** Truncation toward zero ([ToIntegerOrInfinity] on a finite number). *)
Definition truncZ (x : R) : Z :=
  if Rle_dec 0 x then Int_part x else (- Int_part (- x))%Z.

(** [x % m]: the remainder has the sign of the dividend. *)
Definition rem (x m : R) : R := x - m * IZR (truncZ (x / m)).

(** [Math.max], [Math.min], [Math.abs], [Math.sqrt]. *)
Definition max (x y : R) : R := Rmax x y.
Definition min (x y : R) : R := Rmin x y.

(** [Math.atan2 y x] on finite arguments, from the arc tangent. *)
Definition atan2 (y x : R) : R :=
  if Rlt_dec 0 x then atan (y / x)
  else if Rlt_dec x 0 then
         (if Rle_dec 0 y then atan (y / x) + PI else atan (y / x) - PI)
       else if Rlt_dec 0 y then PI / 2
            else if Rlt_dec y 0 then - (PI / 2)
                 else 0.

(** [Math.pow x y] for a finite base [0 <= x]: [0 ** y] is [0] for [0 < y]. *)
Definition pow (x y : R) : R :=
  if Req_dec_T x 0 then (if Rlt_dec 0 y then 0 else 1) else Rpower x y.

(** A [Date] is its time value, an integral number of milliseconds;
    [new Date(t)] clips the number [t] to it by truncation toward zero and
    [getTime] reads it back. *)
Definition Date : Type := Z.

Definition newDate (t : R) : Date := truncZ t.
Definition getTime (d : Date) : R := IZR d.

End JS.

(** ** types *)

Module Types.

Record OrbitalElements : Type := mkElements {
  el_N : R;  (* longitude of ascending node, degrees *)
  el_i : R;  (* inclination, degrees *)
  el_w : R;  (* argument of perihelion, degrees *)
  el_a : R;  (* semi-major axis, AU *)
  el_e : R;  (* eccentricity *)
  el_M : R   (* mean anomaly, degrees *)
}.

Record Position : Type := mkPos { px : R; py : R; pz : R }.

Record PlanetData : Type := mkPlanet {
  pl_id : string;
  pl_elements : OrbitalElements
}.

Inductive EventType : Type := TRANSIT | PLANETARY_ALIGNMENT.

(** The fields of [AppSettings] that the engine reads. *)
Record AppSettings : Type := mkSettings {
  useHighPrecision : bool;
  showEventHighlights : bool;
  allowCalculationSearch : bool;
  continuousIteration : bool;
  viewTilt : R;
  viewYaw : R;
  enablePerspective : bool;
  enableProximitySim : bool
}.

Record FoundEvent : Type := mkFoundEvent {
  fe_id : string;
  fe_type : EventType;
  fe_targetIds : list string;
  fe_startDate : R;
  fe_endDate : R;
  fe_optimalDate : R;
  fe_minAngle : R;
  fe_strictMode : option bool
}.

End Types.

(** ** utils/astronomy *)

Module Astronomy.
Import Types.

Definition MILLISECONDS_PER_DAY : R := 86400000.
Definition J2000_time : R := 946728000000.  (* 2000-01-01T12:00:00Z *)

Definition deg2rad (deg : R) : R := (deg * PI) / 180.

Definition DEFAULT_SUN_ANGULAR_RADIUS_DEG : R := 266 / 1000.

Definition normalizeAngle (deg : R) : R :=
  let res := JS.rem deg 360 in
  if JS.ltb res 0 then res + 360 else res.

(** *** solveKepler *)

Definition tolerance : R := 1 / 1000000.

(** The body of the [for] loop up to the test: the new estimate and the
    step [deltaE] that was subtracted.  The quotient is the code's when the
    divisor is not 0, which every eccentricity [0 <= e < 1] ensures; with
    [e = 1] the code can divide 0 by 0 and go on with NaN, which the model
    does not have. *)
Definition keplerStep (M_rad e E : R) : R * R :=
  let deltaM := E - e * sin E - M_rad in
  let deltaE := deltaM / (1 - e * cos E) in
  (E - deltaE, deltaE).

(** [for (let i = 0; i < 100; i++) { ...; if (|deltaE| < tolerance) break; }]
    with [n] the number of passes that remain ([100 - i]); the second
    component counts the passes performed. *)
Fixpoint keplerLoop (n : nat) (M_rad e E : R) : R * nat :=
  match n with
  | O => (E, O)
  | S n' =>
      let '(E', deltaE) := keplerStep M_rad e E in
      if JS.ltb (Rabs deltaE) tolerance then (E', 1%nat)
      else let '(r, k) := keplerLoop n' M_rad e E' in (r, S k)
  end.

Definition solveKepler_run (M e : R) : R * nat :=
  let E := deg2rad M in
  let M_rad := deg2rad M in
  keplerLoop 100 M_rad e E.

Definition solveKepler (M e : R) : R := fst (solveKepler_run M e).

(** The Newton-Raphson sequence on its own: [newton M e k] is the estimate
    after [k] steps from [E0 = deg2rad M], [newtonDelta M e k] the step taken
    from it. *)
Fixpoint newtonFrom (M_rad e E : R) (k : nat) : R :=
  match k with
  | O => E
  | S k' => newtonFrom M_rad e (fst (keplerStep M_rad e E)) k'
  end.

Definition newton (M e : R) (k : nat) : R :=
  newtonFrom (deg2rad M) e (deg2rad M) k.

Definition newtonDelta (M e : R) (k : nat) : R :=
  snd (keplerStep (deg2rad M) e (newton M e k)).


(** *** Positions *)

(** A call of [solveKepler], as the arguments it received. *)
Definition SolverCall : Type := (R * R)%type.

(** A computation together with the log of the calls it made, in order:
    of [solveKepler] for the position functions, of [getAlignmentMetric]
    for the optimiser. *)
Definition Logged (L A : Type) : Type := (A * list L)%type.

Definition ret {L A} (a : A) : Logged L A := (a, []).

Definition bind {L A B} (m : Logged L A) (k : A -> Logged L B) : Logged L B :=
  let '(a, l1) := m in let '(b, l2) := k a in (b, l1 ++ l2).

Notation "x <- m ;; k" := (bind m (fun x => k))
  (at level 61, m at next level, right associativity).

Definition Traced (A : Type) : Type := Logged SolverCall A.

Definition solveKepler_tr (M e : R) : Traced R := (solveKepler M e, [(M, e)]).

(** Method A: J2000 Kepler calculation.  The model is the code's for a
    semi-major axis [a > 0]; at [a = 0] the mean motion of the code is
    infinite and the position NaN, which the model does not have. *)
Definition calculateKeplerPosition_tr
  (elements : OrbitalElements) (date : JS.Date) (centralMassMultiplier : R)
  : Traced Position :=
  let dayDiff := (JS.getTime date - J2000_time) / MILLISECONDS_PER_DAY in
  let n := (9856076686 / 10000000000 * centralMassMultiplier)
           / JS.pow (el_a elements) (15 / 10) in
  let M_curr := normalizeAngle (el_M elements + n * dayDiff) in
  E <- solveKepler_tr M_curr (el_e elements) ;;
  let xv := el_a elements * (cos E - el_e elements) in
  let yv := el_a elements
            * (sqrt (1 - el_e elements * el_e elements) * sin E) in
  let v := JS.atan2 yv xv in
  let r := sqrt (xv * xv + yv * yv) in
  let i := deg2rad (el_i elements) in
  let N := deg2rad (el_N elements) in
  let w := deg2rad (el_w elements) in
  let u := v + w in
  let x := r * (cos N * cos u - sin N * sin u * cos i) in
  let y := r * (sin N * cos u + cos N * sin u * cos i) in
  let z := r * (sin u * sin i) in
  ret (mkPos x y z).

Definition calculateKeplerPosition
  (elements : OrbitalElements) (date : JS.Date) (centralMassMultiplier : R)
  : Position :=
  fst (calculateKeplerPosition_tr elements date centralMassMultiplier).


(** Method B: the external ephemeris.  [Astronomy] is a global of the host
    page: it may be undefined, and a call into it may throw. *)
Inductive Body : Type :=
  Mercury | Venus | Earth | Mars | Jupiter | Saturn | Uranus | Neptune
| Pluto | Moon.

Record Engine : Type := mkEngine {
  (* [HelioVector(body, MakeTime(date))], equatorial; [None] when it throws *)
  HelioVector : Body -> JS.Date -> option Position
}.

Definition bodyOfId (id : string) : option Body :=
  if String.eqb id "mercury" then Some Mercury
  else if String.eqb id "venus" then Some Venus
  else if String.eqb id "earth" then Some Earth
  else if String.eqb id "mars" then Some Mars
  else if String.eqb id "jupiter" then Some Jupiter
  else if String.eqb id "saturn" then Some Saturn
  else if String.eqb id "uranus" then Some Uranus
  else if String.eqb id "neptune" then Some Neptune
  else if String.eqb id "pluto" then Some Pluto
  else if String.eqb id "moon" then Some Moon
  else None.

Section WithEngine.

(** [None]: [typeof Astronomy === 'undefined']. *)
Variable Astronomy : option Engine.

Definition calculateHighPrecisionPosition (id : string) (date : JS.Date)
  : option Position :=
  match Astronomy with
  | None => None
  | Some engine =>
      match bodyOfId id with
      | None => None
      | Some body =>
          match HelioVector engine body date with
          | None => None
          | Some vec =>
              let eps := 234392911 / 10000000 * (PI / 180) in
              let cosEps := cos eps in
              let sinEps := sin eps in
              let x_ecl := px vec in
              let y_ecl := py vec * cosEps + pz vec * sinEps in
              let z_ecl := - py vec * sinEps + pz vec * cosEps in
              Some (mkPos x_ecl y_ecl z_ecl)
          end
      end
  end.

Definition origin : Position := mkPos 0 0 0.

Definition calculateBodyPosition_tr
  (id : string) (elements : OrbitalElements) (date : JS.Date)
  (useHighPrecision : bool) : Traced Position :=
  if String.eqb id "sun" then ret origin
  else
    match (if useHighPrecision
           then calculateHighPrecisionPosition id date else None) with
    | Some hpPos => ret hpPos
    | None => calculateKeplerPosition_tr elements date 1
    end.

Definition calculateBodyPosition
  (id : string) (elements : OrbitalElements) (date : JS.Date)
  (useHighPrecision : bool) : Position :=
  fst (calculateBodyPosition_tr id elements date useHighPrecision).

(** The id of an optional parameter that is known to be there. *)
Definition idOr (id : option string) : string :=
  match id with Some i => i | None => ""%string end.

(** [id && useHighPrecision]: the optional id is there and not empty. *)
Definition idGiven (id : option string) : bool :=
  match id with
  | Some i => negb (String.eqb i "")
  | None => false
  end.

Definition calculateSatellitePosition
  (satelliteElements : OrbitalElements) (parentPos : Position)
  (date : JS.Date) (parentMassMultiplier : R) (id : option string)
  (useHighPrecision : bool) : Position :=
  match (if idGiven id && useHighPrecision
         then calculateHighPrecisionPosition (idOr id) date
         else None) with
  | Some hp => hp
  | None =>
      let relativePos :=
        calculateKeplerPosition satelliteElements date parentMassMultiplier in
      mkPos (px parentPos + px relativePos)
            (py parentPos + py relativePos)
            (pz parentPos + pz relativePos)
  end.

(** *** 3D vector helpers *)

Definition getPositionHelper
  (id : string) (date : JS.Date) (useHighPrecision : bool)
  (allBodies : list PlanetData) : Position :=
  if String.eqb id "sun" then origin
  else
    match find (fun x => String.eqb (pl_id x) id) allBodies with
    | None => origin
    | Some p => calculateBodyPosition id (pl_elements p) date useHighPrecision
    end.

Definition subtractVectors (a b : Position) : Position :=
  mkPos (px a - px b) (py a - py b) (pz a - pz b).

Definition magnitude (v : Position) : R :=
  sqrt (px v * px v + py v * py v + pz v * pz v).

Definition angleBetweenVectors3D (v1 v2 : Position) : R :=
  let dot := px v1 * px v2 + py v1 * py v2 + pz v1 * pz v2 in
  let mag1 := magnitude v1 in
  let mag2 := magnitude v2 in
  if JS.eqb mag1 0 || JS.eqb mag2 0 then 0
  else
    let cosTheta := JS.max (-1) (JS.min 1 (dot / (mag1 * mag2))) in
    acos cosTheta.

Definition getEclipticLongitude (vec : Position) : R :=
  let angle := JS.atan2 (py vec) (px vec) * (180 / PI) in
  if JS.ltb angle 0 then angle + 360 else angle.

(** *** Event detection *)

Definition isTransit
  (planetName : string) (date : JS.Date) (toleranceDeg : R)
  (useHighPrecision strictMode : bool) (solarRadiusDeg : R)
  (allBodies : list PlanetData) : bool :=
  let posEarth := getPositionHelper "earth" date useHighPrecision allBodies in
  let posPlanet :=
    getPositionHelper planetName date useHighPrecision allBodies in
  let posSun := origin in
  let vecEarthSun := subtractVectors posSun posEarth in
  let vecEarthPlanet := subtractVectors posPlanet posEarth in
  let angleRad := angleBetweenVectors3D vecEarthSun vecEarthPlanet in
  let angleDeg := angleRad * (180 / PI) in
  let distToSun := magnitude vecEarthSun in
  let distToPlanet := magnitude vecEarthPlanet in
  let effectiveTolerance :=
    if strictMode then solarRadiusDeg else toleranceDeg in
  JS.leb angleDeg effectiveTolerance && JS.ltb distToPlanet distToSun.

(** [longitudes.sort((a, b) => a - b)]: the ascending arrangement of the
    array (written as an insertion sort). *)
Fixpoint insertNum (x : R) (l : list R) : list R :=
  match l with
  | [] => [x]
  | y :: tl => if JS.leb x y then x :: l else y :: insertNum x tl
  end.

Fixpoint sortNum (l : list R) : list R :=
  match l with
  | [] => []
  | x :: tl => insertNum x (sortNum tl)
  end.

(** The [for (const id of targetIds)] loop that pushes one Earth-relative
    ecliptic longitude per target. *)
Definition targetLongitudes
  (date : JS.Date) (targetIds : list string) (useHighPrecision : bool)
  (allBodies : list PlanetData) (posEarth : Position) : list R :=
  map (fun id =>
         let posTarget :=
           getPositionHelper id date useHighPrecision allBodies in
         let vecRelative := subtractVectors posTarget posEarth in
         getEclipticLongitude vecRelative)
      targetIds.

(** [for (i = 0; i < longitudes.length - 1; i++)] updating [maxGap]. *)
Fixpoint maxGapLoop (longitudes : list R) (maxGap : R) : R :=
  match longitudes with
  | a :: (b :: _) as tl =>
      let gap := b - a in
      maxGapLoop tl (if JS.ltb maxGap gap then gap else maxGap)
  | _ => maxGap
  end.

(** From the sorted longitudes to [360 - maxGap], wrap-around gap
    included. *)
Definition spanOfSorted (longitudes : list R) : R :=
  let maxGap := maxGapLoop longitudes 0 in
  let wrapGap := 360 - (last longitudes 0 - hd 0 longitudes) in
  let maxGap := if JS.ltb maxGap wrapGap then wrapGap else maxGap in
  360 - maxGap.

(** [targetIds] is [None] when the caller passed no array. *)
Definition checkSpecificAlignment
  (date : JS.Date) (targetIds : option (list string)) (toleranceDeg : R)
  (useHighPrecision : bool) (allBodies : list PlanetData) : bool :=
  match targetIds with
  | None => false
  | Some ids =>
      if (List.length ids <? 2)%nat then false
      else
        let posEarth :=
          getPositionHelper "earth" date useHighPrecision allBodies in
        let longitudes :=
          targetLongitudes date ids useHighPrecision allBodies posEarth in
        let longitudes := sortNum longitudes in
        let span := spanOfSorted longitudes in
        JS.leb span toleranceDeg
  end.

(** *** Event window *)

(** The closure [check] of [calculateEventDuration]. *)
Definition eventCheck
  (type : EventType) (targetIds : list string) (toleranceDeg : R)
  (useHighPrecision strictMode : bool) (solarRadiusDeg : R)
  (allBodies : list PlanetData) (t : R) : bool :=
  let d := JS.newDate t in
  match type with
  | TRANSIT =>
      forallb (fun id => isTransit id d toleranceDeg useHighPrecision
                           strictMode solarRadiusDeg allBodies)
              targetIds
  | PLANETARY_ALIGNMENT =>
      checkSpecificAlignment d (Some targetIds) toleranceDeg useHighPrecision
                             allBodies
  end.

(** The two [while (true)] loops.  [fuel] bounds the number of passes;
    [None] is a loop that has not left within them. *)
Fixpoint expandStart (fuel : nat) (check : R -> bool) (center STEP start : R)
  : option R :=
  match fuel with
  | O => None
  | S fuel' =>
      let nextT := start - STEP in
      if check nextT then
        let start := nextT in
        if JS.ltb (3650 * STEP) (center - start) then Some start
        else expandStart fuel' check center STEP start
      else Some start
  end.

Fixpoint expandEnd (fuel : nat) (check : R -> bool) (center STEP end_ : R)
  : option R :=
  match fuel with
  | O => None
  | S fuel' =>
      let nextT := end_ + STEP in
      if check nextT then
        let end_ := nextT in
        if JS.ltb (3650 * STEP) (end_ - center) then Some end_
        else expandEnd fuel' check center STEP end_
      else Some end_
  end.

Definition calculateEventDuration_fuel
  (fuel : nat) (centerDate : JS.Date) (type : EventType)
  (targetIds : list string) (toleranceDeg : R)
  (useHighPrecision strictMode : bool) (solarRadiusDeg : R)
  (allBodies : list PlanetData) : option (R * R) :=
  let check := eventCheck type targetIds toleranceDeg useHighPrecision
                          strictMode solarRadiusDeg allBodies in
  let start := JS.getTime centerDate in
  let end_ := JS.getTime centerDate in
  let STEP := MILLISECONDS_PER_DAY in
  match expandStart fuel check (JS.getTime centerDate) STEP start with
  | None => None
  | Some start =>
      match expandEnd fuel check (JS.getTime centerDate) STEP end_ with
      | None => None
      | Some end_ => Some (start, end_)
      end
  end.

(** Each loop leaves within 3651 passes (lemma [calculateEventDuration_total]
    below), so the function is total; the window is [(start, end)]. *)
Definition durationPasses : nat := 3651.

Definition calculateEventDuration
  (centerDate : JS.Date) (type : EventType)
  (targetIds : list string) (toleranceDeg : R)
  (useHighPrecision strictMode : bool) (solarRadiusDeg : R)
  (allBodies : list PlanetData) : R * R :=
  match calculateEventDuration_fuel durationPasses centerDate type targetIds
          toleranceDeg useHighPrecision strictMode solarRadiusDeg allBodies
  with
  | Some w => w
  | None => (JS.getTime centerDate, JS.getTime centerDate)
  end.

(** *** Optimal time *)

Definition getAlignmentMetric
  (date : JS.Date) (type : EventType) (targetIds : list string)
  (useHighPrecision : bool) (allBodies : list PlanetData) : R :=
  let posEarth := getPositionHelper "earth" date useHighPrecision allBodies in
  match type with
  | TRANSIT =>
      let posSun := origin in
      let vecEarthSun := subtractVectors posSun posEarth in
      fold_left
        (fun maxDiff id =>
           let posP := getPositionHelper id date useHighPrecision allBodies in
           let vecEarthP := subtractVectors posP posEarth in
           let angleRad := angleBetweenVectors3D vecEarthSun vecEarthP in
           let deg := angleRad * (180 / PI) in
           if JS.ltb maxDiff deg then deg else maxDiff)
        targetIds 0
  | PLANETARY_ALIGNMENT =>
      if (List.length targetIds <? 2)%nat then 0
      else
        let longitudes :=
          targetLongitudes date targetIds useHighPrecision allBodies posEarth in
        let longitudes := sortNum longitudes in
        spanOfSorted longitudes
  end.

(** One evaluation of the metric at the number [t], logged. *)
Definition probe (metric : JS.Date -> R) (t : R) : Logged R R :=
  (metric (JS.newDate t), [t]).

(** [for (i = 0; i <= steps; i++)], with [n] the passes that remain. *)
Fixpoint coarseLoop (metric : JS.Date -> R) (start stepSize : R)
  (i n : nat) (bestTime minMetric : R) : Logged R (R * R) :=
  match n with
  | O => ret (bestTime, minMetric)
  | S n' =>
      let t := start + INR i * stepSize in
      metric_t <- probe metric t ;;
      if JS.ltb metric_t minMetric
      then coarseLoop metric start stepSize (S i) n' t metric_t
      else coarseLoop metric start stepSize (S i) n' bestTime minMetric
  end.

(** [for (i = 0; i < 10; i++)], with [n] the passes that remain. *)
Fixpoint ternaryLoop (metric : JS.Date -> R) (n : nat)
  (left right bestTime minMetric : R) : Logged R (R * R) :=
  match n with
  | O => ret (bestTime, minMetric)
  | S n' =>
      let m1 := left + (right - left) / 3 in
      let m2 := right - (right - left) / 3 in
      v1 <- probe metric m1 ;;
      v2 <- probe metric m2 ;;
      if JS.ltb v1 v2 then
        let right := m2 in
        if JS.ltb v1 minMetric
        then ternaryLoop metric n' left right m1 v1
        else ternaryLoop metric n' left right bestTime minMetric
      else
        let left := m1 in
        if JS.ltb v2 minMetric
        then ternaryLoop metric n' left right m2 v2
        else ternaryLoop metric n' left right bestTime minMetric
  end.

(** The result [{ time, angle }] as a pair, with the log of the numbers the
    metric was evaluated at. *)
Definition findOptimalEventTime_tr
  (start end_ : R) (type : EventType) (targetIds : list string)
  (useHighPrecision strictMode : bool) (solarRadiusDeg : R)
  (allBodies : list PlanetData) : Logged R (R * R) :=
  let metric := fun d =>
    getAlignmentMetric d type targetIds useHighPrecision allBodies in
  let bestTime := start in
  let minMetric := 999 in
  let steps := 20%nat in
  let stepSize := (end_ - start) / INR steps in
  coarse <- coarseLoop metric start stepSize 0 (S steps) bestTime minMetric ;;
  let '(bestTime, minMetric) := coarse in
  let left := JS.max start (bestTime - stepSize) in
  let right := JS.min end_ (bestTime + stepSize) in
  ternaryLoop metric 10 left right bestTime minMetric.

Definition findOptimalEventTime
  (start end_ : R) (type : EventType) (targetIds : list string)
  (useHighPrecision strictMode : bool) (solarRadiusDeg : R)
  (allBodies : list PlanetData) : R * R :=
  fst (findOptimalEventTime_tr start end_ type targetIds useHighPrecision
         strictMode solarRadiusDeg allBodies).

End WithEngine.

End Astronomy.

(** ** core/projection *)

Module Projection.
Import Types.

Definition BASE_PROXIMITY_CONST : R := 2000.
Definition INFINITE_CAMERA_DIST : R := 100000.
Definition TIER_2_IDS : list string :=
  ["jupiter"; "saturn"; "uranus"; "neptune"]%string.

(** [TIER_2_IDS.includes(s)] *)
Definition includes (l : list string) (s : string) : bool :=
  existsb (String.eqb s) l.

Definition smoothStep (edge0 edge1 x : R) : R :=
  let t := JS.max 0 (JS.min 1 ((x - edge0) / (edge1 - edge0))) in
  t * t * (3 - 2 * t).

Record ProjectedPoint : Type := mkPoint {
  pp_x : R;
  pp_y : R;
  pp_depth : R;
  pp_scaleFactor : R;
  pp_isVisible : bool;
  pp_opacity : R
}.

(** [id === s] for the optional parameter [id]. *)
Definition idIs (id : option string) (s : string) : bool :=
  match id with
  | Some i => String.eqb i s
  | None => false
  end.

(** [id || ''] *)
Definition idOrEmpty (id : option string) : string :=
  match id with
  | Some i => i
  | None => ""%string
  end.

(** [effectiveCameraDist] of [project3D].  The quotient is the code's for
    a zoom factor other than 0, which the zoom behaviour of the view
    ensures; at zoom 0 the code's distance is infinite, which the model
    does not have. *)
Definition effectiveCameraDist (settings : AppSettings) (zoomK : R) : R :=
  if enableProximitySim settings
  then BASE_PROXIMITY_CONST / zoomK
  else INFINITE_CAMERA_DIST.

(** The [if / else if / else] under "Proximity Fading": the opacity of a
    point at distance [dist] in front of the camera. *)
Definition proximityFade (id : option string) (dist : R) : R :=
  if idIs id "sun" then 1
  else if includes TIER_2_IDS (idOrEmpty id) then
    let nearPlane := 100 in
    let fadeRange := 300 in
    let val :=
      if JS.leb dist nearPlane then 0
      else if JS.ltb dist (nearPlane + fadeRange)
           then (dist - nearPlane) / fadeRange
           else 1 in
    JS.max val (3 / 10)
  else
    let inner := idIs id "mercury" || idIs id "venus" in
    let nearPlane := if inner then 50 else 100 in
    let fadeRange := if inner then 150 else 300 in
    if JS.leb dist nearPlane then 0
    else if JS.ltb dist (nearPlane + fadeRange)
         then (dist - nearPlane) / fadeRange
         else 1.

Definition project3D
  (pos : Position) (scale : R) (settings : AppSettings) (zoomK : R)
  (id : option string) (centerOfRotation : Position) : ProjectedPoint :=
  let tiltRad := (viewTilt settings * PI) / 180 in
  let yawRad := (viewYaw settings * PI) / 180 in
  let sinTilt := sin tiltRad in
  let cosTilt := cos tiltRad in
  let cosYaw := cos yawRad in
  let sinYaw := sin yawRad in
  (* Step 1: translate relative to the pivot *)
  let x_rel := px pos - px centerOfRotation in
  let y_rel := py pos - py centerOfRotation in
  let z_rel := pz pos - pz centerOfRotation in
  (* Step 2: yaw *)
  let x_yaw := x_rel * cosYaw - y_rel * sinYaw in
  let y_yaw := x_rel * sinYaw + y_rel * cosYaw in
  let z_yaw := z_rel in
  (* Step 3: tilt and orthographic projection *)
  let x_screen_ortho := x_yaw * scale in
  let y_screen_ortho := - (y_yaw * sinTilt + z_yaw * cosTilt) * scale in
  let depth_pixels := (z_yaw * sinTilt - y_yaw * cosTilt) * scale in
  (* the shared tail of the function, from the visibility test on *)
  let finish (scaleFactor proximityOpacity : R) :=
    let isVisible := if JS.ltb proximityOpacity (1 / 100) then false else true in
    mkPoint (x_screen_ortho * scaleFactor) (y_screen_ortho * scaleFactor)
            depth_pixels scaleFactor isVisible proximityOpacity in
  if enablePerspective settings then
    let effectiveCameraDist := effectiveCameraDist settings zoomK in
    let dist := effectiveCameraDist - depth_pixels in
    if JS.leb dist 0 then mkPoint 0 0 depth_pixels 0 false 0
    else
      let scaleFactor := effectiveCameraDist / dist in
      finish scaleFactor (proximityFade id dist)
  else finish 1 1.

End Projection.

(** ** core/renderConfig *)

Module RenderConfig.
Import Types Projection.

Inductive RenderQuality : Type := eco | standard | performance.
Inductive CometRenderMode : Type := comet_eco | comet_performance.

(** A [CometRenderMode] used where a [RenderQuality] is expected. *)
Definition qualityOfComet (m : CometRenderMode) : RenderQuality :=
  match m with
  | comet_eco => eco
  | comet_performance => performance
  end.

Record RenderSettings : Type := mkRender {
  innerQuality : RenderQuality;
  outerQuality : RenderQuality;
  cometQuality : CometRenderMode;
  allowTrueScaleAllBodies : bool
}.

Inductive BodyType : Type := planet | dwarf | satellite | comet | asteroid.

(** The fields of [PlanetData] that [calculateBodyOpacity] reads. *)
Record BodyData : Type := mkBody {
  bd_id : string;
  bd_elements : OrbitalElements;
  bd_category : string;
  bd_type : option BodyType
}.

Definition INNER_SYSTEM_LIMIT_AU : R := 4.
Definition OUTER_SYSTEM_LIMIT_AU : R := 35.
Definition TRUE_SCALE_RATIO : R := 23500 / 65.

Inductive ThresholdType : Type := INNER | OUTER | COMET.
Inductive Mode : Type := IN | OUT.

Definition SCHEMATIC_THRESHOLDS (type : ThresholdType) : R :=
  match type with
  | INNER => 34 / 100
  | OUTER => 28 / 100
  | COMET => 33 / 100
  end.

Definition getThreshold (type : ThresholdType) (isTrueScale : bool) : R :=
  let base := SCHEMATIC_THRESHOLDS type in
  if isTrueScale then base / TRUE_SCALE_RATIO else base.

Definition getOpacityFromQuality
  (quality : RenderQuality) (k threshold : R) (mode : Mode) : R :=
  match quality with
  | performance => 1
  | _ =>
      let range := threshold * (2 / 10) in
      let min := threshold - range / 2 in
      let max := threshold + range / 2 in
      match mode with
      | IN =>
          match quality with
          | eco => if JS.ltb threshold k then 1 else 0
          | _ => smoothStep min max k
          end
      | OUT =>
          match quality with
          | eco => if JS.ltb k threshold then 1 else 0
          | _ => 1 - smoothStep min max k
          end
      end
  end.

(** [type === t] for the optional field [type]. *)
Definition typeIs (type : option BodyType) (t : BodyType) : bool :=
  match type, t with
  | Some planet, planet | Some dwarf, dwarf | Some satellite, satellite
  | Some comet, comet | Some asteroid, asteroid => true
  | _, _ => false
  end.

Definition calculateBodyOpacity
  (body : BodyData) (k : R) (settings : RenderSettings) (isTrueScale : bool)
  : R :=
  let id := bd_id body in
  let category := bd_category body in
  let type := bd_type body in
  let a := el_a (bd_elements body) in
  if String.eqb id "sun" then 1
  else
    let isComet :=
      String.eqb category "COMET" || typeIs type comet
      || typeIs type asteroid in
    let isPlanetOrDwarf :=
      String.eqb category "PLANET" || String.eqb category "DWARF"
      || typeIs type planet || typeIs type dwarf in
    if isComet then
      if JS.leb a INNER_SYSTEM_LIMIT_AU then
        let threshold := getThreshold COMET isTrueScale in
        getOpacityFromQuality (qualityOfComet (cometQuality settings)) k
          threshold IN
      else 1
    else
      let early :=
        if isPlanetOrDwarf then
          if JS.leb a INNER_SYSTEM_LIMIT_AU then
            let threshold := getThreshold INNER isTrueScale in
            Some (getOpacityFromQuality (innerQuality settings) k threshold IN)
          else if JS.leb OUTER_SYSTEM_LIMIT_AU a then
            let threshold := getThreshold OUTER isTrueScale in
            Some (getOpacityFromQuality (outerQuality settings) k threshold
                    OUT)
          else None
        else None in
      match early with
      | Some opacity => opacity
      | None => 1
      end.

Definition shouldRenderComet (distanceAU : R) (settings : RenderSettings)
  : bool := true.

Definition getVisibilityThreshold (isEco : bool) : R :=
  if isEco then 9 / 10 else 1 / 100.

End RenderConfig.

(** ** hooks/useSimulation *)

Module Simulation.
Import Types Astronomy.

Definition BASE_SPEED_DAYS_PER_SEC : R := 7.

Inductive SearchSpeed : Type := low | medium | high.

(** The status line, by its template. *)
Inductive Status : Type :=
| StatusEmpty                       (* '' *)
| StatusStarting                    (* 'Starting search...' *)
| StatusSearching (d : JS.Date)     (* `Searching... ${year of d}` *)
| StatusContinuing                  (* 'Found event. Continuing...' *)
| StatusCompleted                   (* 'Completed' *)
| StatusCalculating.                (* 'Calculating...' *)

Record SearchState : Type := mkSearch {
  active : bool;
  type : option EventType;
  targetIds : option (list string);
  status : Status;
  speed : SearchSpeed;
  activeTolerance : R;
  activeSolarRadius : option R;
  strictMode : option bool;
  isCalculating : bool;
  calculationResult : option R;
  calculationDuration : R;
  elapsedTime : R;
  currentScanDate : R;
  resultStartDate : option R;
  resultEndDate : option R;
  resultOptimalDate : option R;
  resultMinAngle : option R;
  continuousPaused : bool;
  foundEvents : list FoundEvent;
  searchStartTime : R;
  completed : bool
}.

(** [{ ...prev, field: value }], one field at a time. *)
Definition set_active (v : bool) (s : SearchState) : SearchState :=
  mkSearch v (type s) (targetIds s) (status s) (speed s) (activeTolerance s)
    (activeSolarRadius s) (strictMode s) (isCalculating s)
    (calculationResult s) (calculationDuration s) (elapsedTime s)
    (currentScanDate s) (resultStartDate s) (resultEndDate s)
    (resultOptimalDate s) (resultMinAngle s) (continuousPaused s)
    (foundEvents s) (searchStartTime s) (completed s).

Definition set_targetIds (v : option (list string)) (s : SearchState)
  : SearchState :=
  mkSearch (active s) (type s) v (status s) (speed s) (activeTolerance s)
    (activeSolarRadius s) (strictMode s) (isCalculating s)
    (calculationResult s) (calculationDuration s) (elapsedTime s)
    (currentScanDate s) (resultStartDate s) (resultEndDate s)
    (resultOptimalDate s) (resultMinAngle s) (continuousPaused s)
    (foundEvents s) (searchStartTime s) (completed s).

Definition set_status (v : Status) (s : SearchState) : SearchState :=
  mkSearch (active s) (type s) (targetIds s) v (speed s) (activeTolerance s)
    (activeSolarRadius s) (strictMode s) (isCalculating s)
    (calculationResult s) (calculationDuration s) (elapsedTime s)
    (currentScanDate s) (resultStartDate s) (resultEndDate s)
    (resultOptimalDate s) (resultMinAngle s) (continuousPaused s)
    (foundEvents s) (searchStartTime s) (completed s).

Definition set_speed (v : SearchSpeed) (s : SearchState) : SearchState :=
  mkSearch (active s) (type s) (targetIds s) (status s) v (activeTolerance s)
    (activeSolarRadius s) (strictMode s) (isCalculating s)
    (calculationResult s) (calculationDuration s) (elapsedTime s)
    (currentScanDate s) (resultStartDate s) (resultEndDate s)
    (resultOptimalDate s) (resultMinAngle s) (continuousPaused s)
    (foundEvents s) (searchStartTime s) (completed s).

Definition set_isCalculating (v : bool) (s : SearchState) : SearchState :=
  mkSearch (active s) (type s) (targetIds s) (status s) (speed s)
    (activeTolerance s) (activeSolarRadius s) (strictMode s) v
    (calculationResult s) (calculationDuration s) (elapsedTime s)
    (currentScanDate s) (resultStartDate s) (resultEndDate s)
    (resultOptimalDate s) (resultMinAngle s) (continuousPaused s)
    (foundEvents s) (searchStartTime s) (completed s).

Definition set_calculationResult (v : option R) (s : SearchState)
  : SearchState :=
  mkSearch (active s) (type s) (targetIds s) (status s) (speed s)
    (activeTolerance s) (activeSolarRadius s) (strictMode s) (isCalculating s)
    v (calculationDuration s) (elapsedTime s)
    (currentScanDate s) (resultStartDate s) (resultEndDate s)
    (resultOptimalDate s) (resultMinAngle s) (continuousPaused s)
    (foundEvents s) (searchStartTime s) (completed s).

Definition set_calculationDuration (v : R) (s : SearchState) : SearchState :=
  mkSearch (active s) (type s) (targetIds s) (status s) (speed s)
    (activeTolerance s) (activeSolarRadius s) (strictMode s) (isCalculating s)
    (calculationResult s) v (elapsedTime s)
    (currentScanDate s) (resultStartDate s) (resultEndDate s)
    (resultOptimalDate s) (resultMinAngle s) (continuousPaused s)
    (foundEvents s) (searchStartTime s) (completed s).

Definition set_elapsedTime (v : R) (s : SearchState) : SearchState :=
  mkSearch (active s) (type s) (targetIds s) (status s) (speed s)
    (activeTolerance s) (activeSolarRadius s) (strictMode s) (isCalculating s)
    (calculationResult s) (calculationDuration s) v
    (currentScanDate s) (resultStartDate s) (resultEndDate s)
    (resultOptimalDate s) (resultMinAngle s) (continuousPaused s)
    (foundEvents s) (searchStartTime s) (completed s).

Definition set_currentScanDate (v : R) (s : SearchState) : SearchState :=
  mkSearch (active s) (type s) (targetIds s) (status s) (speed s)
    (activeTolerance s) (activeSolarRadius s) (strictMode s) (isCalculating s)
    (calculationResult s) (calculationDuration s) (elapsedTime s)
    v (resultStartDate s) (resultEndDate s)
    (resultOptimalDate s) (resultMinAngle s) (continuousPaused s)
    (foundEvents s) (searchStartTime s) (completed s).

(** [resultStartDate], [resultEndDate], [resultOptimalDate] and
    [resultMinAngle], which are always written together. *)
Definition set_result (start end_ optimal angle : R) (s : SearchState)
  : SearchState :=
  mkSearch (active s) (type s) (targetIds s) (status s) (speed s)
    (activeTolerance s) (activeSolarRadius s) (strictMode s) (isCalculating s)
    (calculationResult s) (calculationDuration s) (elapsedTime s)
    (currentScanDate s) (Some start) (Some end_)
    (Some optimal) (Some angle) (continuousPaused s)
    (foundEvents s) (searchStartTime s) (completed s).

Definition set_foundEvents (v : list FoundEvent) (s : SearchState)
  : SearchState :=
  mkSearch (active s) (type s) (targetIds s) (status s) (speed s)
    (activeTolerance s) (activeSolarRadius s) (strictMode s) (isCalculating s)
    (calculationResult s) (calculationDuration s) (elapsedTime s)
    (currentScanDate s) (resultStartDate s) (resultEndDate s)
    (resultOptimalDate s) (resultMinAngle s) (continuousPaused s)
    v (searchStartTime s) (completed s).

Definition set_completed (v : bool) (s : SearchState) : SearchState :=
  mkSearch (active s) (type s) (targetIds s) (status s) (speed s)
    (activeTolerance s) (activeSolarRadius s) (strictMode s) (isCalculating s)
    (calculationResult s) (calculationDuration s) (elapsedTime s)
    (currentScanDate s) (resultStartDate s) (resultEndDate s)
    (resultOptimalDate s) (resultMinAngle s) (continuousPaused s)
    (foundEvents s) (searchStartTime s) v.

(** [timeDirection], [1] or [-1]. *)
Inductive Direction : Type := Forward | Backward.

Definition dirSign (d : Direction) : R :=
  match d with Forward => 1 | Backward => -1 end.

Record Guard : Type := mkGuard { g_key : string; g_start : R; g_end : R }.

Record CalcTarget : Type := mkCalcTarget {
  ct_type : EventType;
  ct_ids : list string;
  ct_strictMode : bool;
  ct_tolerance : R;
  ct_solarRadius : R
}.

(** The state of the hook: the React state cells and the refs.  A pending
    [setTimeout(runCalculationBatch, 0)] is the flag [batchPending], the
    pending five-second timer that clears the highlight is
    [highlightTimer].  The batch callback is memoised: the one a timer holds
    is the one of the render that started the calculation, and it reads
    the [timeDirection] of that render, kept here as [batchDirection].
    State updates take effect in program order; an updater function passed
    to [setSearchState] runs at the render that follows the callback. *)
Record Sim : Type := mkSim {
  currentDate : JS.Date;
  isPlaying : bool;
  speedMultiplier : R;
  timeDirection : Direction;
  highlightedAlignment : option (list string);
  searchState : SearchState;
  lastFrameTime : R;
  lastRealTime : R;
  lastEventGuard : option Guard;
  calcDate : R;
  calcStart : R;
  calcTarget : option CalcTarget;
  batchPending : bool;
  highlightTimer : bool;
  batchDirection : Direction
}.

Definition set_currentDate (v : JS.Date) (s : Sim) : Sim :=
  mkSim v (isPlaying s) (speedMultiplier s) (timeDirection s)
    (highlightedAlignment s) (searchState s) (lastFrameTime s)
    (lastRealTime s) (lastEventGuard s) (calcDate s) (calcStart s)
    (calcTarget s) (batchPending s) (highlightTimer s) (batchDirection s).

Definition set_isPlaying (v : bool) (s : Sim) : Sim :=
  mkSim (currentDate s) v (speedMultiplier s) (timeDirection s)
    (highlightedAlignment s) (searchState s) (lastFrameTime s)
    (lastRealTime s) (lastEventGuard s) (calcDate s) (calcStart s)
    (calcTarget s) (batchPending s) (highlightTimer s) (batchDirection s).

Definition set_speedMultiplier (v : R) (s : Sim) : Sim :=
  mkSim (currentDate s) (isPlaying s) v (timeDirection s)
    (highlightedAlignment s) (searchState s) (lastFrameTime s)
    (lastRealTime s) (lastEventGuard s) (calcDate s) (calcStart s)
    (calcTarget s) (batchPending s) (highlightTimer s) (batchDirection s).

Definition set_highlightedAlignment (v : option (list string)) (s : Sim)
  : Sim :=
  mkSim (currentDate s) (isPlaying s) (speedMultiplier s) (timeDirection s)
    v (searchState s) (lastFrameTime s)
    (lastRealTime s) (lastEventGuard s) (calcDate s) (calcStart s)
    (calcTarget s) (batchPending s) (highlightTimer s) (batchDirection s).

Definition set_searchState (v : SearchState) (s : Sim) : Sim :=
  mkSim (currentDate s) (isPlaying s) (speedMultiplier s) (timeDirection s)
    (highlightedAlignment s) v (lastFrameTime s)
    (lastRealTime s) (lastEventGuard s) (calcDate s) (calcStart s)
    (calcTarget s) (batchPending s) (highlightTimer s) (batchDirection s).

(** [setSearchState(prev => f(prev))] *)
Definition update_searchState (f : SearchState -> SearchState) (s : Sim)
  : Sim :=
  set_searchState (f (searchState s)) s.

Definition set_lastFrameTime (v : R) (s : Sim) : Sim :=
  mkSim (currentDate s) (isPlaying s) (speedMultiplier s) (timeDirection s)
    (highlightedAlignment s) (searchState s) v
    (lastRealTime s) (lastEventGuard s) (calcDate s) (calcStart s)
    (calcTarget s) (batchPending s) (highlightTimer s) (batchDirection s).

Definition set_lastRealTime (v : R) (s : Sim) : Sim :=
  mkSim (currentDate s) (isPlaying s) (speedMultiplier s) (timeDirection s)
    (highlightedAlignment s) (searchState s) (lastFrameTime s)
    v (lastEventGuard s) (calcDate s) (calcStart s)
    (calcTarget s) (batchPending s) (highlightTimer s) (batchDirection s).

Definition set_lastEventGuard (v : option Guard) (s : Sim) : Sim :=
  mkSim (currentDate s) (isPlaying s) (speedMultiplier s) (timeDirection s)
    (highlightedAlignment s) (searchState s) (lastFrameTime s)
    (lastRealTime s) v (calcDate s) (calcStart s)
    (calcTarget s) (batchPending s) (highlightTimer s) (batchDirection s).

Definition set_calcDate (v : R) (s : Sim) : Sim :=
  mkSim (currentDate s) (isPlaying s) (speedMultiplier s) (timeDirection s)
    (highlightedAlignment s) (searchState s) (lastFrameTime s)
    (lastRealTime s) (lastEventGuard s) v (calcStart s)
    (calcTarget s) (batchPending s) (highlightTimer s) (batchDirection s).

Definition set_calcStart (v : R) (s : Sim) : Sim :=
  mkSim (currentDate s) (isPlaying s) (speedMultiplier s) (timeDirection s)
    (highlightedAlignment s) (searchState s) (lastFrameTime s)
    (lastRealTime s) (lastEventGuard s) (calcDate s) v
    (calcTarget s) (batchPending s) (highlightTimer s) (batchDirection s).

Definition set_calcTarget (v : option CalcTarget) (s : Sim) : Sim :=
  mkSim (currentDate s) (isPlaying s) (speedMultiplier s) (timeDirection s)
    (highlightedAlignment s) (searchState s) (lastFrameTime s)
    (lastRealTime s) (lastEventGuard s) (calcDate s) (calcStart s)
    v (batchPending s) (highlightTimer s) (batchDirection s).

Definition set_batchPending (v : bool) (s : Sim) : Sim :=
  mkSim (currentDate s) (isPlaying s) (speedMultiplier s) (timeDirection s)
    (highlightedAlignment s) (searchState s) (lastFrameTime s)
    (lastRealTime s) (lastEventGuard s) (calcDate s) (calcStart s)
    (calcTarget s) v (highlightTimer s) (batchDirection s).

Definition set_highlightTimer (v : bool) (s : Sim) : Sim :=
  mkSim (currentDate s) (isPlaying s) (speedMultiplier s) (timeDirection s)
    (highlightedAlignment s) (searchState s) (lastFrameTime s)
    (lastRealTime s) (lastEventGuard s) (calcDate s) (calcStart s)
    (calcTarget s) (batchPending s) v (batchDirection s).

Definition set_batchDirection (v : Direction) (s : Sim) : Sim :=
  mkSim (currentDate s) (isPlaying s) (speedMultiplier s) (timeDirection s)
    (highlightedAlignment s) (searchState s) (lastFrameTime s)
    (lastRealTime s) (lastEventGuard s) (calcDate s) (calcStart s)
    (calcTarget s) (batchPending s) (highlightTimer s) v.

(** *** The frame callback and the batch callback *)

Definition typeName (t : EventType) : string :=
  match t with
  | TRANSIT => "TRANSIT"
  | PLANETARY_ALIGNMENT => "PLANETARY_ALIGNMENT"
  end.

(** [ids.sort()]: ascending in string order. *)
Fixpoint insertStr (x : string) (l : list string) : list string :=
  match l with
  | [] => [x]
  | y :: tl => if String.leb x y then x :: l else y :: insertStr x tl
  end.

Fixpoint sortStr (l : list string) : list string :=
  match l with
  | [] => []
  | x :: tl => insertStr x (sortStr tl)
  end.

(** [`${type}-${ids.sort().join(',')}`] *)
Definition eventKey (t : EventType) (sortedIds : list string) : string :=
  (typeName t ++ "-" ++ String.concat "," sortedIds)%string.

(** The guard test at the head of both scan loops: the pass is skipped
    ([continue]) inside the window of the last event of the same key. *)
Definition guardSkips (guard : option Guard) (currentKey : string) (t : R)
  : bool :=
  match guard with
  | Some g =>
      String.eqb (g_key g) currentKey
      && (JS.leb (g_start g) t && JS.leb t (g_end g))
  | None => false
  end.

(** The cap test of both continuous branches. *)
Definition capReached
  (updatedEvents : list FoundEvent) (duration_end searchStartTime_ : R)
  : bool :=
  let yearsSearched :=
    Rabs (duration_end - searchStartTime_) / (MILLISECONDS_PER_DAY * 365) in
  (50 <=? List.length updatedEvents)%nat || JS.leb 2000 yearsSearched.

(** A JavaScript truth test of an optional boolean. *)
Definition truthy (b : option bool) : bool :=
  match b with Some true => true | _ => false end.

(** [r || DEFAULT_SUN_ANGULAR_RADIUS_DEG] *)
Definition radiusOrDefault (r : option R) : R :=
  match r with
  | Some v => if JS.eqb v 0 then DEFAULT_SUN_ANGULAR_RADIUS_DEG else v
  | None => DEFAULT_SUN_ANGULAR_RADIUS_DEG
  end.

Record Config : Type := mkConfig { cfg_tolerance : R; cfg_solarRadius : R }.

Section WithEngine.

Variable Astronomy : option Engine.
Variable settings : AppSettings.
Variable celestialBodies : list PlanetData.

(** The detection test in the body of both scan loops. *)
Definition detects
  (ty : EventType) (targets : list string) (tolerance : R) (strict : bool)
  (solarRadius : R) (d : JS.Date) : bool :=
  match ty with
  | TRANSIT =>
      (0 <? List.length targets)%nat
      && forallb (fun id => isTransit Astronomy id d tolerance
                              (useHighPrecision settings) strict solarRadius
                              celestialBodies)
                 targets
  | PLANETARY_ALIGNMENT =>
      (2 <=? List.length targets)%nat
      && checkSpecificAlignment Astronomy d (Some targets) tolerance
           (useHighPrecision settings) celestialBodies
  end.

(** The scan loop of [animate]: the date reached and whether the loop left
    through [found = true; break]. *)
Fixpoint searchLoop
  (detect : JS.Date -> bool) (guard : option Guard) (currentKey : string)
  (step : R) (n : nat) (tempDate : JS.Date) : JS.Date * bool :=
  match n with
  | O => (tempDate, false)
  | S n' =>
      let tempDate := JS.newDate (JS.getTime tempDate + step) in
      let t := JS.getTime tempDate in
      if guardSkips guard currentKey t
      then searchLoop detect guard currentKey step n' tempDate
      else if detect tempDate then (tempDate, true)
           else searchLoop detect guard currentKey step n' tempDate
  end.

(** The scan loop of [runCalculationBatch], on the number [currentTs]. *)
Fixpoint batchLoop
  (detect : JS.Date -> bool) (guard : option Guard) (currentKey : string)
  (step : R) (n : nat) (currentTs : R) : R * bool :=
  match n with
  | O => (currentTs, false)
  | S n' =>
      let currentTs := currentTs + step in
      if guardSkips guard currentKey currentTs
      then batchLoop detect guard currentKey step n' currentTs
      else if detect (JS.newDate currentTs) then (currentTs, true)
           else batchLoop detect guard currentKey step n' currentTs
  end.

(** The branch [if (searchState.active && searchState.type)] of [animate]
    once past the pause test.  [s0] is the state the callback closed over,
    [s] the state as updated so far in this frame. *)
Definition searchTick (ty : EventType) (eventId : string) (s0 s : Sim) : Sim :=
  let ss := searchState s0 in
  let iterations :=
    match speed ss with low => 4 | medium => 15 | high => 30 end%nat in
  let currentTargets :=
    sortStr (match targetIds ss with Some l => l | None => [] end) in
  (* the sort is in place: the array held by the state is now sorted *)
  let s := update_searchState
             (fun prev => set_targetIds (option_map sortStr (targetIds prev))
                                        prev) s in
  let currentKey := eventKey ty currentTargets in
  let step := dirSign (timeDirection s0) * MILLISECONDS_PER_DAY in
  let tolerance := activeTolerance ss in
  let strictRadius := radiusOrDefault (activeSolarRadius ss) in
  let strict := truthy (strictMode ss) in
  let '(tempDate, found) :=
    searchLoop (detects ty currentTargets tolerance strict strictRadius)
               (lastEventGuard s0) currentKey step iterations
               (currentDate s0) in
  let foundIds :=
    match ty with
    | TRANSIT => ("earth" :: currentTargets ++ ["sun"])%string
    | PLANETARY_ALIGNMENT => ("earth" :: currentTargets)%string
    end in
  let s := set_currentDate tempDate s in
  let s := update_searchState (set_status (StatusSearching tempDate)) s in
  if found then
    let duration :=
      calculateEventDuration Astronomy tempDate ty currentTargets tolerance
        (useHighPrecision settings) strict strictRadius celestialBodies in
    let optimal :=
      findOptimalEventTime Astronomy (fst duration) (snd duration) ty
        currentTargets (useHighPrecision settings) strict strictRadius
        celestialBodies in
    let s := set_lastEventGuard
               (Some (mkGuard currentKey (fst duration) (snd duration))) s in
    let newEvent :=
      mkFoundEvent eventId ty currentTargets (fst duration) (snd duration)
                   (fst optimal) (snd optimal) (strictMode ss) in
    if continuousIteration settings then
      let scan := match timeDirection s0 with
                  | Forward => snd duration
                  | Backward => fst duration
                  end in
      let s := update_searchState
        (fun prev =>
           let updatedEvents := foundEvents prev ++ [newEvent] in
           if capReached updatedEvents (snd duration) (searchStartTime prev)
           then set_currentScanDate scan
                  (set_status StatusCompleted
                     (set_completed true
                        (set_foundEvents updatedEvents
                           (set_active false prev))))
           else set_currentScanDate scan
                  (set_status StatusContinuing
                     (set_foundEvents updatedEvents prev))) s in
      set_currentDate
        (JS.newDate (match timeDirection s0 with
                     | Forward => snd duration + MILLISECONDS_PER_DAY
                     | Backward => fst duration - MILLISECONDS_PER_DAY
                     end)) s
    else
      let s := set_speedMultiplier 1 (set_isPlaying false s) in
      let s := update_searchState
        (fun prev =>
           set_foundEvents (foundEvents prev ++ [newEvent])
             (set_calculationResult (Some (JS.getTime tempDate))
                (set_result (fst duration) (snd duration)
                            (fst optimal) (snd optimal)
                   (set_speed medium
                      (set_status StatusEmpty
                         (set_active false prev)))))) s in
      let s := if (0 <? List.length foundIds)%nat
               then set_highlightedAlignment (Some foundIds) s else s in
      if negb (showEventHighlights settings)
      then set_highlightTimer true s else s
  else s.

(** [animate(time)].  [now] is the value [Date.now()] returns in this frame,
    [eventId] the identifier made of [Date.now()] and [Math.random()].  The
    callback always requests the next frame. *)
Definition animate (time now : R) (eventId : string) (s : Sim) : Sim :=
  if JS.eqb (lastFrameTime s) 0 then
    set_lastRealTime now (set_lastFrameTime time s)
  else
    let ss := searchState s in
    let deltaTime := (time - lastFrameTime s) / 1000 in
    let s1 := set_lastFrameTime time s in
    let s2 :=
      if negb (isCalculating ss) then
        let realDelta := now - lastRealTime s1 in
        let s' := set_lastRealTime now s1 in
        if active ss && negb (continuousPaused ss)
        then update_searchState
               (fun prev => set_elapsedTime (elapsedTime prev + realDelta) prev)
               s'
        else s'
      else s1 in
    if isCalculating ss then s2
    else
      match (if active ss then type ss else None) with
      | Some ty =>
          if continuousIteration settings && continuousPaused ss then s2
          else searchTick ty eventId s s2
      | None =>
          if isPlaying s then
            let daysToAdd := deltaTime * BASE_SPEED_DAYS_PER_SEC
                             * speedMultiplier s * dirSign (timeDirection s) in
            let s3 := set_currentDate
                        (JS.newDate (JS.getTime (currentDate s2)
                                     + daysToAdd * MILLISECONDS_PER_DAY)) s2 in
            match highlightedAlignment s with
            | Some _ =>
                if negb (showEventHighlights settings)
                then set_highlightedAlignment None s3 else s3
            | None => s3
            end
          else s2
      end.

(** [runCalculationBatch()], run when its timer fires, together with the
    render that follows it.  [now] and [now'] are the two values of
    [Date.now()] read in the batch.  The callback reads the time direction
    it captured, [batchDirection].  In the continuous branch the cap is
    tested inside a [setSearchState] updater, which runs after the
    callback: the test [if (calcTargetRef.current)] that follows it in the
    source still finds the target, so the scan position is moved and the
    next batch is scheduled in both cases; at the cap the updater then
    clears the target, and that batch will find it cleared. *)
Definition runCalculationBatch (now now' : R) (eventId : string) (s : Sim)
  : Sim :=
  let s := set_batchPending false s in
  match calcTarget s with
  | None => s
  | Some ct =>
      let timeStep := now - lastRealTime s in
      let s := set_lastRealTime now s in
      let s := update_searchState
                 (fun prev => if continuousPaused prev then prev
                              else set_elapsedTime (elapsedTime prev + timeStep)
                                                   prev) s in
      let BATCH_SIZE := 200%nat in
      let type_ := ct_type ct in
      let ids := sortStr (ct_ids ct) in
      let strictMode_ := ct_strictMode ct in
      let tolerance := ct_tolerance ct in
      let solarRadius := ct_solarRadius ct in
      (* the sort is in place: the ref's array is now sorted *)
      let s := set_calcTarget
                 (Some (mkCalcTarget type_ ids strictMode_ tolerance
                                     solarRadius)) s in
      let currentKey := eventKey type_ ids in
      let step := dirSign (batchDirection s) * MILLISECONDS_PER_DAY in
      let '(currentTs, found) :=
        batchLoop (detects type_ ids tolerance strictMode_ solarRadius)
                  (lastEventGuard s) currentKey step BATCH_SIZE (calcDate s) in
      let s := set_calcDate currentTs s in
      let s := update_searchState
                 (fun prev => if continuousPaused prev then prev
                              else set_currentScanDate currentTs
                                     (set_calculationDuration
                                        (now' - calcStart s) prev)) s in
      if found then
        let duration :=
          calculateEventDuration Astronomy (JS.newDate currentTs) type_ ids
            tolerance (useHighPrecision settings) strictMode_ solarRadius
            celestialBodies in
        let optimal :=
          findOptimalEventTime Astronomy (fst duration) (snd duration) type_
            ids (useHighPrecision settings) strictMode_ solarRadius
            celestialBodies in
        let s := set_lastEventGuard
                   (Some (mkGuard currentKey (fst duration) (snd duration)))
                   s in
        let newEvent :=
          mkFoundEvent eventId type_ ids (fst duration) (snd duration)
                       (fst optimal) (snd optimal) (Some strictMode_) in
        if continuousIteration settings then
          (* [if (calcTargetRef.current)]: the updater has not run yet *)
          let s := set_calcDate
                     (match batchDirection s with
                      | Forward => snd duration + MILLISECONDS_PER_DAY
                      | Backward => fst duration - MILLISECONDS_PER_DAY
                      end) s in
          let s := set_batchPending true s in
          (* the updater *)
          let updatedEvents := foundEvents (searchState s) ++ [newEvent] in
          if capReached updatedEvents (snd duration)
                        (searchStartTime (searchState s))
          then
            let s := set_calcTarget None s in
            update_searchState
              (fun prev => set_completed true
                             (set_isCalculating false
                                (set_foundEvents updatedEvents prev))) s
          else
            update_searchState
              (fun prev =>
                 set_currentScanDate
                   (match batchDirection s with
                    | Forward => snd duration
                    | Backward => fst duration
                    end)
                   (set_foundEvents updatedEvents prev)) s
        else
          let s := update_searchState
            (fun prev =>
               set_foundEvents (foundEvents prev ++ [newEvent])
                 (set_result (fst duration) (snd duration)
                             (fst optimal) (snd optimal)
                    (set_targetIds (Some ids)
                       (set_calculationResult (Some currentTs)
                          (set_isCalculating false prev))))) s in
          set_calcTarget None s
      else
        if continuousPaused (searchState s)
           || negb (isCalculating (searchState s))
        then s
        else set_batchPending true s
  end.

(** [startCalculation] and [startSearch]; every caller passes a [config]
    with both fields. *)
Definition startCalculation
  (now : R) (type_ : EventType) (ids : list string) (strict : bool)
  (config : Config) (keepHistory : bool) (s : Sim) : Sim :=
  let s := set_highlightedAlignment None (set_isPlaying false s) in
  let s := set_lastEventGuard None s in
  let startTs := JS.getTime (currentDate s) in
  let s := set_calcDate startTs s in
  let s := set_calcStart now s in
  let s := set_calcTarget
             (Some (mkCalcTarget type_ ids strict (cfg_tolerance config)
                                 (cfg_solarRadius config))) s in
  let s := set_lastRealTime now s in
  let s := update_searchState
    (fun prev =>
       mkSearch false (Some type_) (Some ids) StatusCalculating medium
         (cfg_tolerance config) (Some (cfg_solarRadius config)) (Some strict)
         true None 0 (if keepHistory then elapsedTime prev else 0) startTs
         None None None None false
         (if keepHistory then foundEvents prev else [])
         (if keepHistory then searchStartTime prev else startTs) false) s in
  (* the timer holds the callback of this render *)
  set_batchPending true (set_batchDirection (timeDirection s) s).

Definition startSearch
  (now : R) (type_ : EventType) (ids : list string) (speed_ : SearchSpeed)
  (strict : bool) (config : Config) (keepHistory : bool) (s : Sim)
  : Sim :=
  if allowCalculationSearch settings then
    startCalculation now type_ ids strict config keepHistory s
  else
    let s := set_lastEventGuard None (set_highlightedAlignment None s) in
    let startTs := JS.getTime (currentDate s) in
    let s := set_lastRealTime now s in
    let s := update_searchState
      (fun prev =>
         mkSearch true (Some type_) (Some ids) StatusStarting speed_
           (cfg_tolerance config) (Some (cfg_solarRadius config))
           (Some strict)
           false None 0 (if keepHistory then elapsedTime prev else 0) startTs
           None None None None false
           (if keepHistory then foundEvents prev else [])
           (if keepHistory then searchStartTime prev else startTs) false) s in
    set_isPlaying false s.

Definition stopCalculation (s : Sim) : Sim :=
  let s := set_batchPending false s in
  let s := set_calcTarget None s in
  update_searchState
    (fun prev => set_active false (set_isCalculating false prev)) s.

(** [resetSearchForm]: the form fields of the search state are cleared;
    the calculation target and a pending batch are left as they are. *)
Definition resetSearchForm (s : Sim) : Sim :=
  let s := update_searchState
    (fun prev =>
       mkSearch false None (targetIds prev) StatusEmpty (speed prev)
         (activeTolerance prev) (activeSolarRadius prev) (Some false)
         false None (calculationDuration prev) 0 0
         (resultStartDate prev) (resultEndDate prev)
         (resultOptimalDate prev) (resultMinAngle prev) false [] 0 false) s in
  let s := set_highlightedAlignment None s in
  set_lastEventGuard None s.

End WithEngine.

End Simulation.

(** * Theorems *)

Import Types Astronomy.

(** ** JavaScript comparisons *)

Lemma ltb_true x y : JS.ltb x y = true <-> x < y.
Proof.
  unfold JS.ltb; destruct (Rlt_dec x y); split; intros; auto; discriminate.
Qed.

Lemma ltb_false x y : JS.ltb x y = false <-> y <= x.
Proof.
  unfold JS.ltb; destruct (Rlt_dec x y); split; intros; auto;
    try discriminate; lra.
Qed.

Lemma leb_true x y : JS.leb x y = true <-> x <= y.
Proof.
  unfold JS.leb; destruct (Rle_dec x y); split; intros; auto; discriminate.
Qed.

Lemma leb_false x y : JS.leb x y = false <-> y < x.
Proof.
  unfold JS.leb; destruct (Rle_dec x y); split; intros; auto;
    try discriminate; lra.
Qed.

Lemma eqb_true x y : JS.eqb x y = true <-> x = y.
Proof.
  unfold JS.eqb; destruct (Req_dec_T x y); split; intros; auto; discriminate.
Qed.

Lemma eqb_false x y : JS.eqb x y = false <-> x <> y.
Proof.
  unfold JS.eqb; destruct (Req_dec_T x y); split; intros; auto;
    try discriminate; contradiction.
Qed.

(** Case analysis on a JavaScript comparison, with the fact it decides. *)
Ltac js_case c :=
  lazymatch c with
  | JS.ltb ?x ?y =>
      let H := fresh "Hlt" in
      destruct (JS.ltb x y) eqn:H;
      [apply ltb_true in H | apply ltb_false in H]
  | JS.leb ?x ?y =>
      let H := fresh "Hle" in
      destruct (JS.leb x y) eqn:H;
      [apply leb_true in H | apply leb_false in H]
  | JS.eqb ?x ?y =>
      let H := fresh "Heq" in
      destruct (JS.eqb x y) eqn:H;
      [apply eqb_true in H | apply eqb_false in H]
  end.

Lemma Int_part_IZR (z : Z) : Int_part (IZR z) = z.
Proof. symmetry. apply Int_part_spec. lra. Qed.

(** A date's time value is integral: building a date from it gives the
    date back. *)
Lemma newDate_getTime (d : JS.Date) : JS.newDate (JS.getTime d) = d.
Proof.
  unfold JS.newDate, JS.getTime, JS.truncZ.
  destruct (Rle_dec 0 (IZR d)) as [H | H].
  - apply Int_part_IZR.
  - rewrite <- opp_IZR, Int_part_IZR. lia.
Qed.

(** ** solveKepler *)

Lemma newtonFrom_S M_rad e E k :
  newtonFrom M_rad e E (S k)
  = fst (keplerStep M_rad e (newtonFrom M_rad e E k)).
Proof.
  revert E; induction k as [| k IH]; intro E; [reflexivity |].
  change (newtonFrom M_rad e E (S (S k)))
    with (newtonFrom M_rad e (fst (keplerStep M_rad e E)) (S k)).
  rewrite IH. reflexivity.
Qed.

(** The loop returns the first Newton iterate whose step was below the
    tolerance, or the [n]-th when there is none among the first [n]. *)
Lemma keplerLoop_spec M_rad e n E :
  exists k : nat,
    ((n = 0 /\ k = 0) \/ (1 <= k <= n))%nat
    /\ keplerLoop n M_rad e E = (newtonFrom M_rad e E k, k)
    /\ (forall j, (S j < k)%nat ->
          tolerance
          <= Rabs (snd (keplerStep M_rad e (newtonFrom M_rad e E j))))
    /\ ((k < n)%nat ->
        Rabs (snd (keplerStep M_rad e (newtonFrom M_rad e E (k - 1))))
        < tolerance).
Proof.
  revert E; induction n as [| n IH]; intro E.
  - exists 0%nat. repeat split; auto; intros; lia.
  - cbn [keplerLoop].
    destruct (keplerStep M_rad e E) as [E' dE] eqn:Hstep.
    js_case (JS.ltb (Rabs dE) tolerance).
    + exists 1%nat. repeat split.
      * right; lia.
      * cbn [newtonFrom]. now rewrite Hstep.
      * intros; lia.
      * intros _. cbn [Nat.sub newtonFrom]. now rewrite Hstep.
    + destruct (IH E') as (k & Hk & Hrun & Hbefore & Hlast).
      exists (S k). rewrite Hrun. repeat split.
      * right; lia.
      * cbn [newtonFrom]. now rewrite Hstep.
      * intros [| j] Hj.
        -- cbn [newtonFrom]. now rewrite Hstep.
        -- cbn [newtonFrom]. rewrite Hstep. apply Hbefore. lia.
      * intros Hkn. destruct k as [| k]; [lia |].
        assert (H := Hlast ltac:(lia)).
        replace (S k - 1)%nat with k in H by lia.
        replace (S (S k) - 1)%nat with (S k) by lia.
        cbn [newtonFrom]. now rewrite Hstep.
Qed.

(** For an eccentricity below one the divisor of the Newton step is
    positive, whatever the estimate. *)
Lemma kepler_divisor_pos e E : 0 <= e < 1 -> 0 < 1 - e * cos E.
Proof.
  intros [H0 H1]. pose proof (COS_bound E) as [Hl Hu].
  assert (e * cos E <= e * 1) by (apply Rmult_le_compat_l; lra).
  lra.
Qed.

(** C2. [solveKepler] is Newton-Raphson from [E0 = deg2rad M] on
    [f E = E - e sin E - M], whose derivative is [1 - e cos E]: each pass
    subtracts the step [f E / f' E].  It performs [k] passes with
    [1 <= k <= 100], returns the [k]-th iterate, no pass before the last had
    a step below [1e-6], it stops at the first step below [1e-6], and when
    no step of the 100 is below it the value returned is the 100th iterate.
    Every division is by a positive number and the function returns a
    number in every case. *)
Theorem solveKepler_newton_capped (M e : R) :
  0 <= e < 1 ->
  newton M e 0 = deg2rad M
  /\ (forall j,
        newtonDelta M e j
        = (newton M e j - e * sin (newton M e j) - deg2rad M)
          / (1 - e * cos (newton M e j))
        /\ newton M e (S j) = newton M e j - newtonDelta M e j)
  /\ (forall j, 0 < 1 - e * cos (newton M e j))
  /\ (exists k : nat,
        (1 <= k <= 100)%nat
        /\ solveKepler_run M e = (newton M e k, k)
        /\ solveKepler M e = newton M e k
        /\ (forall j, (S j < k)%nat -> tolerance <= Rabs (newtonDelta M e j))
        /\ ((k < 100)%nat -> Rabs (newtonDelta M e (k - 1)) < tolerance))
  /\ ((forall j, (j < 100)%nat -> tolerance <= Rabs (newtonDelta M e j)) ->
      solveKepler_run M e = (newton M e 100, 100%nat)).
Proof.
  intros He.
  destruct (keplerLoop_spec (deg2rad M) e 100 (deg2rad M))
    as (k & Hk & Hrun & Hbefore & Hlast).
  assert (Hk' : (1 <= k <= 100)%nat) by (destruct Hk as [[? _] | ?]; lia).
  split; [reflexivity |].
  split.
  { intro j. unfold newtonDelta, newton. rewrite newtonFrom_S.
    split; reflexivity. }
  split; [intro j; now apply kepler_divisor_pos |].
  split.
  - exists k. unfold solveKepler, solveKepler_run, newton, newtonDelta.
    rewrite Hrun. repeat split; auto; lia.
  - intros Hnever. unfold solveKepler_run. rewrite Hrun.
    destruct (Nat.eq_dec k 100) as [-> | Hne]; [reflexivity |].
    exfalso. assert (Hlt : (k < 100)%nat) by lia.
    specialize (Hlast Hlt). specialize (Hnever (k - 1)%nat ltac:(lia)).
    unfold newtonDelta, newton in Hnever. lra.
Qed.

(** The theorem at [M = 90], [e = 1/2]: the first step is [-1/2], the
    first iterate [pi/2 + 1/2], and the loop makes at least two passes. *)
Lemma solveKepler_newton_capped_witness :
  0 <= 1 / 2 < 1
  /\ newtonDelta 90 (1 / 2) 0 = - (1 / 2)
  /\ newton 90 (1 / 2) 1 = PI / 2 + 1 / 2
  /\ exists k : nat,
       (2 <= k <= 100)%nat
       /\ solveKepler 90 (1 / 2) = newton 90 (1 / 2) k.
Proof.
  assert (He : 0 <= 1 / 2 < 1) by lra.
  destruct (solveKepler_newton_capped 90 (1 / 2) He)
    as (H0 & Hstep & _ & (k & Hk & _ & Hv & _ & Hlast) & _).
  destruct (Hstep 0%nat) as [Hd H1].
  assert (Hrad : deg2rad 90 = PI / 2) by (unfold deg2rad; field).
  rewrite H0, Hrad, sin_PI2, cos_PI2 in Hd.
  assert (Hd' : newtonDelta 90 (1 / 2) 0 = - (1 / 2))
    by (rewrite Hd; field).
  split; [exact He |]. split; [exact Hd' |].
  split; [rewrite H1, Hd', H0, Hrad; ring |].
  exists k. split; [| exact Hv].
  destruct (Nat.eq_dec k 1) as [-> | Hne]; [| lia].
  exfalso. assert (Hlt : (1 < 100)%nat) by lia.
  specialize (Hlast Hlt). cbn [Nat.sub] in Hlast. rewrite Hd' in Hlast.
  rewrite Rabs_Ropp, Rabs_pos_eq in Hlast by lra.
  unfold tolerance in Hlast. lra.
Defined.

(** ** checkSpecificAlignment *)

(** The selection is absent or has fewer than two elements. *)
Definition fewerThanTwo (targetIds : option (list string)) : Prop :=
  match targetIds with
  | None => True
  | Some ids => (List.length ids < 2)%nat
  end.

(** C10. [checkSpecificAlignment] answers [false] whenever [targetIds] is
    absent or holds fewer than two ids, whatever the date, the tolerance,
    the precision flag and the catalog. *)
Theorem checkSpecificAlignment_needs_two
  (Astronomy : option Engine) (date : JS.Date)
  (targetIds : option (list string)) (toleranceDeg : R)
  (useHighPrecision : bool) (allBodies : list PlanetData) :
  fewerThanTwo targetIds ->
  checkSpecificAlignment Astronomy date targetIds toleranceDeg
    useHighPrecision allBodies = false.
Proof.
  unfold fewerThanTwo, checkSpecificAlignment.
  destruct targetIds as [ids |]; [| reflexivity].
  intros Hlen. apply Nat.ltb_lt in Hlen. now rewrite Hlen.
Qed.

(** The theorem for the single target [mars] in an empty catalog. *)
Lemma checkSpecificAlignment_needs_two_witness :
  fewerThanTwo (Some ["mars"%string])
  /\ checkSpecificAlignment None 0%Z (Some ["mars"%string]) 10 false []
     = false.
Proof.
  split.
  - simpl. lia.
  - apply (checkSpecificAlignment_needs_two None 0%Z (Some ["mars"%string])
             10 false []).
    simpl. lia.
Defined.

(** *** The numeric sort *)

Lemma insertNum_perm x l : Permutation (insertNum x l) (x :: l).
Proof.
  induction l as [| y tl IH]; cbn [insertNum]; [reflexivity |].
  destruct (JS.leb x y); [reflexivity |].
  rewrite IH. apply perm_swap.
Qed.

Lemma sortNum_perm l : Permutation (sortNum l) l.
Proof.
  induction l as [| x tl IH]; cbn [sortNum]; [reflexivity |].
  rewrite insertNum_perm. now constructor.
Qed.

Lemma insertNum_sorted x l :
  StronglySorted Rle l -> StronglySorted Rle (insertNum x l).
Proof.
  induction l as [| y tl IH]; cbn [insertNum]; intros Hs.
  - repeat constructor.
  - inversion Hs as [| ? ? Htl Hall]; subst.
    js_case (JS.leb x y).
    + constructor; [assumption |].
      constructor; [assumption |].
      eapply Forall_impl; [| exact Hall]. intros z Hz. cbv beta in *. lra.
    + constructor; [now apply IH |].
      apply (Permutation_Forall (Permutation_sym (insertNum_perm x tl))).
      constructor; [lra | assumption].
Qed.

Lemma sortNum_sorted l : StronglySorted Rle (sortNum l).
Proof.
  induction l as [| x tl IH]; cbn [sortNum]; [constructor |].
  now apply insertNum_sorted.
Qed.

(** Two ascending arrangements of the same numbers are the same list. *)
Lemma sorted_perm_unique (l1 l2 : list R) :
  StronglySorted Rle l1 -> StronglySorted Rle l2 -> Permutation l1 l2 ->
  l1 = l2.
Proof.
  revert l2; induction l1 as [| a l1 IH]; intros l2 H1 H2 Hp.
  - apply Permutation_nil in Hp. now subst.
  - destruct l2 as [| b l2].
    + apply Permutation_sym, Permutation_nil in Hp. discriminate.
    + inversion H1 as [| ? ? Hs1 Ha]; subst.
      inversion H2 as [| ? ? Hs2 Hb]; subst.
      assert (Hab : a = b).
      { assert (Hin1 : In a (b :: l2))
          by (eapply Permutation_in; [exact Hp | now left]).
        assert (Hin2 : In b (a :: l1))
          by (eapply Permutation_in;
              [apply Permutation_sym; exact Hp | now left]).
        rewrite Forall_forall in Ha, Hb.
        destruct Hin1 as [-> | Hin1]; [reflexivity |].
        destruct Hin2 as [-> | Hin2]; [reflexivity |].
        apply Rle_antisym; [now apply Ha | now apply Hb]. }
      subst b. f_equal. apply IH; try assumption.
      now apply Permutation_cons_inv in Hp.
Qed.

Lemma sortNum_permutation_invariant (l1 l2 : list R) :
  Permutation l1 l2 -> sortNum l1 = sortNum l2.
Proof.
  intros Hp. apply sorted_perm_unique; try apply sortNum_sorted.
  rewrite !sortNum_perm. exact Hp.
Qed.

(** C8. [checkSpecificAlignment] gives the same answer on any two orderings
    of the same target ids. *)
Theorem checkSpecificAlignment_permutation
  (Astronomy : option Engine) (date : JS.Date) (ids1 ids2 : list string)
  (toleranceDeg : R) (useHighPrecision : bool)
  (allBodies : list PlanetData) :
  Permutation ids1 ids2 ->
  checkSpecificAlignment Astronomy date (Some ids1) toleranceDeg
    useHighPrecision allBodies
  = checkSpecificAlignment Astronomy date (Some ids2) toleranceDeg
      useHighPrecision allBodies.
Proof.
  intros Hp. unfold checkSpecificAlignment.
  rewrite (Permutation_length Hp).
  destruct (List.length ids2 <? 2)%nat; [reflexivity |].
  f_equal. f_equal. apply sortNum_permutation_invariant.
  unfold targetLongitudes. now apply Permutation_map.
Qed.

(** The theorem on the two orderings of three planets. *)
Lemma checkSpecificAlignment_permutation_witness :
  Permutation ["mars"; "venus"; "jupiter"]%string
              ["jupiter"; "mars"; "venus"]%string
  /\ checkSpecificAlignment None 0%Z
       (Some ["mars"; "venus"; "jupiter"]%string) 10 false []
     = checkSpecificAlignment None 0%Z
         (Some ["jupiter"; "mars"; "venus"]%string) 10 false [].
Proof.
  assert (Hp : Permutation ["mars"; "venus"; "jupiter"]%string
                           ["jupiter"; "mars"; "venus"]%string).
  { apply Permutation_sym.
    apply (Permutation_cons_app ["mars"; "venus"]%string []
                                "jupiter"%string).
    reflexivity. }
  split; [exact Hp |].
  apply (checkSpecificAlignment_permutation None 0%Z _ _ 10 false [] Hp).
Defined.

(** ** calculateEventDuration *)

Lemma INR_3651 : INR 3651 = 3651.
Proof. rewrite INR_IZR_INZ. reflexivity. Qed.

Section Expansion.

Variable check : R -> bool.
Variables center STEP : R.

(** A loop that has left keeps its result when given more passes. *)
Lemma expandStart_more_fuel (fuel fuel' : nat) (start r : R) :
  expandStart fuel check center STEP start = Some r -> (fuel <= fuel')%nat ->
  expandStart fuel' check center STEP start = Some r.
Proof.
  revert fuel' start; induction fuel as [| fuel IH]; intros fuel' start Hr Hle;
    [discriminate |].
  destruct fuel' as [| fuel']; [lia |].
  cbn [expandStart] in *.
  destruct (check (start - STEP)); [| exact Hr].
  destruct (JS.ltb (3650 * STEP) (center - (start - STEP))); [exact Hr |].
  apply IH; [exact Hr | lia].
Qed.

Lemma expandEnd_more_fuel (fuel fuel' : nat) (end_ r : R) :
  expandEnd fuel check center STEP end_ = Some r -> (fuel <= fuel')%nat ->
  expandEnd fuel' check center STEP end_ = Some r.
Proof.
  revert fuel' end_; induction fuel as [| fuel IH]; intros fuel' end_ Hr Hle;
    [discriminate |].
  destruct fuel' as [| fuel']; [lia |].
  cbn [expandEnd] in *.
  destruct (check (end_ + STEP)); [| exact Hr].
  destruct (JS.ltb (3650 * STEP) (end_ + STEP - center)); [exact Hr |].
  apply IH; [exact Hr | lia].
Qed.

Hypothesis STEP_pos : 0 < STEP.

(** The backward loop entered [k] days before the center, still under the
    cap, leaves within [3651 - k] passes; it leaves on a date that satisfies
    the predicate when the entry date does, and either the cap was passed or
    the day before fails the predicate. *)
Lemma expandStart_spec (fuel k : nat) (start : R) :
  start = center - INR k * STEP ->
  (k <= 3650)%nat -> (3651 <= k + fuel)%nat ->
  exists (start' : R) (k' : nat),
    expandStart fuel check center STEP start = Some start'
    /\ start' = center - INR k' * STEP
    /\ (k <= k' <= 3651)%nat
    /\ (check start = true -> check start' = true)
    /\ (center - start' <= 3650 * STEP -> check (start' - STEP) = false).
Proof.
  revert k start; induction fuel as [| fuel IH]; intros k start Hst Hk Hfuel.
  - lia.
  - cbn [expandStart].
    destruct (check (start - STEP)) eqn:Hnext.
    + assert (Hst' : start - STEP = center - INR (S k) * STEP).
      { rewrite S_INR. subst start. ring. }
      js_case (JS.ltb (3650 * STEP) (center - (start - STEP))).
      * exists (start - STEP), (S k). repeat split; auto; try lia.
        intros Hcap. lra.
      * assert (HSk : (S k <= 3650)%nat).
        { destruct (Nat.le_gt_cases (S k) 3650) as [H | H]; [exact H |].
          exfalso. apply le_INR in H. rewrite INR_3651 in H.
          rewrite Hst' in Hlt.
          assert (3651 * STEP <= INR (S k) * STEP)
            by (apply Rmult_le_compat_r; lra).
          lra. }
        destruct (IH (S k) (start - STEP) Hst' HSk ltac:(lia))
          as (start' & k' & Hrun & Hk' & Hrange & Htrue & Hstop).
        exists start', k'. repeat split; auto; lia.
    + exists start, k. repeat split; auto; lia.
Qed.

Lemma expandEnd_spec (fuel k : nat) (end_ : R) :
  end_ = center + INR k * STEP ->
  (k <= 3650)%nat -> (3651 <= k + fuel)%nat ->
  exists (end' : R) (k' : nat),
    expandEnd fuel check center STEP end_ = Some end'
    /\ end' = center + INR k' * STEP
    /\ (k <= k' <= 3651)%nat
    /\ (check end_ = true -> check end' = true)
    /\ (end' - center <= 3650 * STEP -> check (end' + STEP) = false).
Proof.
  revert k end_; induction fuel as [| fuel IH]; intros k end_ Hst Hk Hfuel.
  - lia.
  - cbn [expandEnd].
    destruct (check (end_ + STEP)) eqn:Hnext.
    + assert (Hst' : end_ + STEP = center + INR (S k) * STEP).
      { rewrite S_INR. subst end_. ring. }
      js_case (JS.ltb (3650 * STEP) (end_ + STEP - center)).
      * exists (end_ + STEP), (S k). repeat split; auto; try lia.
        intros Hcap. lra.
      * assert (HSk : (S k <= 3650)%nat).
        { destruct (Nat.le_gt_cases (S k) 3650) as [H | H]; [exact H |].
          exfalso. apply le_INR in H. rewrite INR_3651 in H.
          rewrite Hst' in Hlt.
          assert (3651 * STEP <= INR (S k) * STEP)
            by (apply Rmult_le_compat_r; lra).
          lra. }
        destruct (IH (S k) (end_ + STEP) Hst' HSk ltac:(lia))
          as (end' & k' & Hrun & Hk' & Hrange & Htrue & Hstop).
        exists end', k'. repeat split; auto; lia.
    + exists end_, k. repeat split; auto; lia.
Qed.

End Expansion.

(** The window of [calculateEventDuration], by the number of days each loop
    moved: both loops leave within 3651 passes, so more fuel changes
    nothing. *)
Lemma calculateEventDuration_days
  (Astronomy : option Engine) (centerDate : JS.Date) (type : EventType)
  (targetIds : list string) (toleranceDeg : R)
  (useHighPrecision strictMode : bool) (solarRadiusDeg : R)
  (allBodies : list PlanetData) :
  let check := eventCheck Astronomy type targetIds toleranceDeg
                 useHighPrecision strictMode solarRadiusDeg allBodies in
  let center := JS.getTime centerDate in
  exists (ks ke : nat),
    let start := center - INR ks * MILLISECONDS_PER_DAY in
    let end_ := center + INR ke * MILLISECONDS_PER_DAY in
    (ks <= 3651)%nat /\ (ke <= 3651)%nat
    /\ (forall fuel, (3651 <= fuel)%nat ->
          calculateEventDuration_fuel Astronomy fuel centerDate type targetIds
            toleranceDeg useHighPrecision strictMode solarRadiusDeg allBodies
          = Some (start, end_))
    /\ calculateEventDuration Astronomy centerDate type targetIds
         toleranceDeg useHighPrecision strictMode solarRadiusDeg allBodies
       = (start, end_)
    /\ (check center = true -> check start = true /\ check end_ = true)
    /\ (center - start <= 3650 * MILLISECONDS_PER_DAY ->
        check (start - MILLISECONDS_PER_DAY) = false)
    /\ (end_ - center <= 3650 * MILLISECONDS_PER_DAY ->
        check (end_ + MILLISECONDS_PER_DAY) = false).
Proof.
  intros check center.
  assert (Hpos : 0 < MILLISECONDS_PER_DAY)
    by (unfold MILLISECONDS_PER_DAY; lra).
  assert (H0 : center = center - INR 0 * MILLISECONDS_PER_DAY)
    by (cbn [INR]; ring).
  assert (H0' : center = center + INR 0 * MILLISECONDS_PER_DAY)
    by (cbn [INR]; ring).
  destruct (expandStart_spec check center _ Hpos 3651 0 center H0
              ltac:(lia) ltac:(lia))
    as (start & ks & Hs & Hsk & Hsr & Hst & Hsf).
  destruct (expandEnd_spec check center _ Hpos 3651 0 center H0'
              ltac:(lia) ltac:(lia))
    as (end_ & ke & He & Hek & Her & Het & Hef).
  exists ks, ke. cbv zeta. rewrite <- Hsk, <- Hek.
  assert (Hfuel : forall fuel, (3651 <= fuel)%nat ->
            calculateEventDuration_fuel Astronomy fuel centerDate type
              targetIds toleranceDeg useHighPrecision strictMode
              solarRadiusDeg allBodies = Some (start, end_)).
  { intros fuel Hf. unfold calculateEventDuration_fuel.
    fold check. fold center.
    rewrite (expandStart_more_fuel check center _ 3651 fuel center start Hs Hf).
    rewrite (expandEnd_more_fuel check center _ 3651 fuel center end_ He Hf).
    reflexivity. }
  repeat split; auto; try lia.
  unfold calculateEventDuration, durationPasses.
  now rewrite (Hfuel 3651%nat (Nat.le_refl _)).
Qed.

(** C4. From a center date at which the predicate holds,
    [calculateEventDuration] returns (with any fuel of at least 3651 passes
    per loop, so the expansion terminates) a window with
    [start <= center <= end] whose two ends satisfy the predicate; the day
    before [start] fails the predicate unless the backward expansion passed
    the 3650-day cap, and the day after [end] fails it unless the forward
    expansion passed the cap. *)
Theorem calculateEventDuration_window
  (Astronomy : option Engine) (centerDate : JS.Date) (type : EventType)
  (targetIds : list string) (toleranceDeg : R)
  (useHighPrecision strictMode : bool) (solarRadiusDeg : R)
  (allBodies : list PlanetData) :
  let check := eventCheck Astronomy type targetIds toleranceDeg
                 useHighPrecision strictMode solarRadiusDeg allBodies in
  let center := JS.getTime centerDate in
  let window := calculateEventDuration Astronomy centerDate type targetIds
                  toleranceDeg useHighPrecision strictMode solarRadiusDeg
                  allBodies in
  let start := fst window in
  let end_ := snd window in
  check center = true ->
  (forall fuel, (3651 <= fuel)%nat ->
     calculateEventDuration_fuel Astronomy fuel centerDate type targetIds
       toleranceDeg useHighPrecision strictMode solarRadiusDeg allBodies
     = Some window)
  /\ start <= center <= end_
  /\ check start = true
  /\ check end_ = true
  /\ (center - start <= 3650 * MILLISECONDS_PER_DAY ->
      check (start - MILLISECONDS_PER_DAY) = false)
  /\ (end_ - center <= 3650 * MILLISECONDS_PER_DAY ->
      check (end_ + MILLISECONDS_PER_DAY) = false).
Proof.
  intros check center window start end_ Hcenter.
  destruct (calculateEventDuration_days Astronomy centerDate type targetIds
              toleranceDeg useHighPrecision strictMode solarRadiusDeg
              allBodies)
    as (ks & ke & Hks & Hke & Hfuel & Hwin & Htrue & Hsf & Hef).
  fold check center in Hfuel, Hwin, Htrue, Hsf, Hef.
  cbv zeta in Hfuel, Hwin, Htrue, Hsf, Hef.
  subst start end_. unfold window. rewrite Hwin. cbn [fst snd].
  assert (Hpos : 0 < MILLISECONDS_PER_DAY)
    by (unfold MILLISECONDS_PER_DAY; lra).
  pose proof (pos_INR ks). pose proof (pos_INR ke).
  destruct (Htrue Hcenter) as [Hs He].
  repeat split; auto; nra.
Qed.

(** *** A window with both borders

    An ephemeris that keeps the Earth at [(-1, 0, 0)] and Mars at
    [(1, 0, 0)], and has Venus at [(1, 0, 0)] from time 0 to the end of the
    next day and at [(-3, 0, 0)], behind the Sun, at every other time: seen
    from the Earth the two planets are in one direction on those dates and
    in opposite directions otherwise. *)

Definition conjunctionEnd : Z := 86400000.

Definition inConjunction (d : JS.Date) : bool :=
  ((0 <=? d) && (d <=? conjunctionEnd))%Z.

Definition conjunctionEngine : Engine :=
  mkEngine (fun body d =>
    match body with
    | Earth => Some (mkPos (-1) 0 0)
    | Venus => Some (if inConjunction d then mkPos 1 0 0 else mkPos (-3) 0 0)
    | _ => Some (mkPos 1 0 0)
    end).

Definition circular (a : R) : OrbitalElements := mkElements 0 0 0 a 0 0.

Definition innerPlanets : list PlanetData :=
  [mkPlanet "venus" (circular (723 / 1000)); mkPlanet "earth" (circular 1);
   mkPlanet "mars" (circular (1524 / 1000))].

Lemma conjunction_position (id : string) (body : Body) (d : JS.Date)
  (x : R) (el : OrbitalElements) :
  String.eqb id "sun" = false ->
  find (fun p => String.eqb (pl_id p) id) innerPlanets = Some (mkPlanet id el) ->
  bodyOfId id = Some body ->
  HelioVector conjunctionEngine body d = Some (mkPos x 0 0) ->
  getPositionHelper (Some conjunctionEngine) id d true innerPlanets
  = mkPos x 0 0.
Proof.
  intros Hsun Hfind Hbody Hvec.
  unfold getPositionHelper. rewrite Hsun, Hfind. cbn [pl_elements].
  unfold calculateBodyPosition, calculateBodyPosition_tr,
    calculateHighPrecisionPosition.
  rewrite Hsun, Hbody, Hvec. cbv zeta. unfold ret. cbn [fst px py pz].
  f_equal; ring.
Qed.

Lemma longitude_ahead : getEclipticLongitude (mkPos 2 0 0) = 0.
Proof.
  unfold getEclipticLongitude, JS.atan2. cbn [px py].
  destruct (Rlt_dec 0 2) as [_ | H]; [| lra].
  replace (0 / 2) with 0 by field. rewrite atan_0, Rmult_0_l.
  assert (H : JS.ltb 0 0 = false) by (apply ltb_false; lra).
  now rewrite H.
Qed.

Lemma longitude_behind : getEclipticLongitude (mkPos (-2) 0 0) = 180.
Proof.
  unfold getEclipticLongitude, JS.atan2. cbn [px py].
  destruct (Rlt_dec 0 (-2)) as [H | _]; [lra |].
  destruct (Rlt_dec (-2) 0) as [_ | H]; [| lra].
  destruct (Rle_dec 0 0) as [_ | H]; [| lra].
  replace (0 / -2) with 0 by field. rewrite atan_0, Rplus_0_l.
  replace (PI * (180 / PI)) with 180 by (field; apply PI_neq0).
  assert (H : JS.ltb 180 0 = false) by (apply ltb_false; lra).
  now rewrite H.
Qed.

(** The alignment of Mars and Venus within one degree holds exactly on the
    dates of the conjunction. *)
Lemma conjunction_check (d : JS.Date) :
  checkSpecificAlignment (Some conjunctionEngine) d
    (Some ["mars"; "venus"]%string) 1 true innerPlanets
  = inConjunction d.
Proof.
  unfold checkSpecificAlignment, targetLongitudes.
  cbn [List.length Nat.ltb Nat.leb map].
  rewrite (conjunction_position "earth" Earth d (-1) (circular 1))
    by reflexivity.
  rewrite (conjunction_position "mars" Mars d 1 (circular (1524 / 1000)))
    by reflexivity.
  rewrite (conjunction_position "venus" Venus d
             (if inConjunction d then 1 else -3) (circular (723 / 1000)));
    [| reflexivity | reflexivity | reflexivity
     | cbn [HelioVector conjunctionEngine]; now destruct (inConjunction d)].
  unfold subtractVectors. cbn [px py pz].
  replace (1 - -1) with 2 by ring. replace (0 - 0) with 0 by ring.
  rewrite longitude_ahead.
  destruct (inConjunction d).
  - replace (1 - -1) with 2 by ring. rewrite longitude_ahead.
    cbn [sortNum insertNum].
    assert (H00 : JS.leb 0 0 = true) by (apply leb_true; lra).
    rewrite H00. unfold spanOfSorted. cbn [maxGapLoop last hd].
    rewrite Rminus_diag.
    assert (H0 : JS.ltb 0 0 = false) by (apply ltb_false; lra).
    assert (H360 : JS.ltb 0 (360 - 0) = true) by (apply ltb_true; lra).
    rewrite H0, H360. apply leb_true. lra.
  - replace (-3 - -1) with (-2) by ring. rewrite longitude_behind.
    cbn [sortNum insertNum].
    assert (H0 : JS.leb 0 180 = true) by (apply leb_true; lra).
    rewrite H0. unfold spanOfSorted. cbn [maxGapLoop last hd].
    assert (H1 : JS.ltb 0 (180 - 0) = true) by (apply ltb_true; lra).
    rewrite H1.
    assert (H2 : JS.ltb (180 - 0) (360 - (180 - 0)) = false)
      by (apply ltb_false; lra).
    rewrite H2. apply leb_false. lra.
Qed.

Definition conjunctionCheck : R -> bool :=
  eventCheck (Some conjunctionEngine) PLANETARY_ALIGNMENT
    ["mars"; "venus"]%string 1 true false (266 / 1000) innerPlanets.

Lemma conjunctionCheck_at (z : Z) :
  conjunctionCheck (IZR z) = inConjunction z.
Proof.
  unfold conjunctionCheck, eventCheck. cbv zeta.
  change (JS.newDate (IZR z)) with (JS.newDate (JS.getTime z)).
  rewrite newDate_getTime. apply conjunction_check.
Qed.

Lemma expandStart_stop fuel check center STEP start :
  check (start - STEP) = false ->
  expandStart (S fuel) check center STEP start = Some start.
Proof. intros H. cbn [expandStart]. now rewrite H. Qed.

Lemma expandEnd_more fuel check center STEP end_ :
  check (end_ + STEP) = true ->
  end_ + STEP - center <= 3650 * STEP ->
  expandEnd (S fuel) check center STEP end_
  = expandEnd fuel check center STEP (end_ + STEP).
Proof.
  intros H Hcap. cbn [expandEnd]. rewrite H.
  apply ltb_false in Hcap. now rewrite Hcap.
Qed.

Lemma expandEnd_stop fuel check center STEP end_ :
  check (end_ + STEP) = false ->
  expandEnd (S fuel) check center STEP end_ = Some end_.
Proof. intros H. cbn [expandEnd]. now rewrite H. Qed.

(** From the first day of the conjunction the window is the two days of
    the conjunction: it ends one day later. *)
Lemma conjunction_window :
  calculateEventDuration (Some conjunctionEngine) 0%Z PLANETARY_ALIGNMENT
    ["mars"; "venus"]%string 1 true false (266 / 1000) innerPlanets
  = (0, 86400000).
Proof.
  unfold calculateEventDuration, calculateEventDuration_fuel, durationPasses.
  cbv zeta. fold conjunctionCheck.
  change (JS.getTime 0%Z) with 0. unfold MILLISECONDS_PER_DAY.
  rewrite expandStart_stop.
  2:{ replace (0 - 86400000) with (IZR (-86400000)) by lra.
      now rewrite conjunctionCheck_at. }
  rewrite expandEnd_more.
  2:{ replace (0 + 86400000) with (IZR 86400000) by lra.
      now rewrite conjunctionCheck_at. }
  2:{ lra. }
  rewrite expandEnd_stop.
  2:{ replace (0 + 86400000 + 86400000) with (IZR 172800000) by lra.
      now rewrite conjunctionCheck_at. }
  f_equal. ring.
Qed.

(** The theorem on the first day of that conjunction: the window is the
    two days of the conjunction, the alignment holds at both ends and
    fails one day before the start and one day after the end. *)
Lemma calculateEventDuration_window_witness :
  conjunctionCheck (JS.getTime 0%Z) = true
  /\ calculateEventDuration (Some conjunctionEngine) 0%Z PLANETARY_ALIGNMENT
       ["mars"; "venus"]%string 1 true false (266 / 1000) innerPlanets
     = (0, 86400000)
  /\ conjunctionCheck 0 = true
  /\ conjunctionCheck 86400000 = true
  /\ conjunctionCheck (0 - MILLISECONDS_PER_DAY) = false
  /\ conjunctionCheck (86400000 + MILLISECONDS_PER_DAY) = false.
Proof.
  assert (Hcenter : conjunctionCheck (JS.getTime 0%Z) = true)
    by (unfold JS.getTime; now rewrite conjunctionCheck_at).
  destruct (calculateEventDuration_window (Some conjunctionEngine) 0%Z
              PLANETARY_ALIGNMENT ["mars"; "venus"]%string 1 true false
              (266 / 1000) innerPlanets Hcenter)
    as (_ & _ & Hs & He & Hbs & Hbe).
  rewrite conjunction_window in Hs, He, Hbs, Hbe.
  cbn [fst snd] in Hs, He, Hbs, Hbe.
  change (JS.getTime 0%Z) with 0 in Hbs, Hbe.
  unfold MILLISECONDS_PER_DAY in *.
  split; [exact Hcenter |]. split; [exact conjunction_window |].
  split; [exact Hs |]. split; [exact He |].
  split; [apply Hbs; lra | apply Hbe; lra].
Defined.

(** ** getAlignmentMetric is bounded *)

Lemma maxGapLoop_ge (l : list R) (acc : R) : acc <= maxGapLoop l acc.
Proof.
  revert acc; induction l as [| a tl IH]; intro acc; cbn [maxGapLoop]; [lra |].
  destruct tl as [| b tl']; [lra |].
  js_case (JS.ltb acc (b - a)).
  - specialize (IH (b - a)). lra.
  - apply IH.
Qed.

Lemma spanOfSorted_le_360 (l : list R) : spanOfSorted l <= 360.
Proof.
  unfold spanOfSorted. pose proof (maxGapLoop_ge l 0).
  destruct (JS.ltb _ _) eqn:E; [apply ltb_true in E |]; lra.
Qed.

Lemma angleBetweenVectors3D_bound (v1 v2 : Position) :
  0 <= angleBetweenVectors3D v1 v2 <= PI.
Proof.
  unfold angleBetweenVectors3D.
  destruct (_ || _).
  - pose proof PI_RGT_0. lra.
  - apply acos_bound.
Qed.

Lemma angle_degrees_bound (a : R) : 0 <= a <= PI -> 0 <= a * (180 / PI) <= 180.
Proof.
  intros [H0 H1]. pose proof PI_RGT_0 as Hpi.
  assert (Hk : 0 < 180 / PI) by (apply Rdiv_lt_0_compat; lra).
  split; [apply Rmult_le_pos; lra |].
  replace 180 with (PI * (180 / PI)) at 2 by (field; lra).
  apply Rmult_le_compat_r; lra.
Qed.

Lemma getAlignmentMetric_bound
  (Astronomy : option Engine) (date : JS.Date) (type : EventType)
  (targetIds : list string) (useHighPrecision : bool)
  (allBodies : list PlanetData) :
  getAlignmentMetric Astronomy date type targetIds useHighPrecision allBodies
  <= 360.
Proof.
  unfold getAlignmentMetric. destruct type.
  - set (f := fun (maxDiff : R) (id : string) => _).
    assert (H : forall l acc, acc <= 360 -> fold_left f l acc <= 360).
    { induction l as [| id l IH]; intros acc Hacc; cbn [fold_left]; [exact Hacc |].
      apply IH. unfold f.
      destruct (JS.ltb _ _); [| exact Hacc].
      pose proof (angle_degrees_bound _
                    (angleBetweenVectors3D_bound
                       (subtractVectors origin
                          (getPositionHelper Astronomy "earth" date
                             useHighPrecision allBodies))
                       (subtractVectors
                          (getPositionHelper Astronomy id date
                             useHighPrecision allBodies)
                          (getPositionHelper Astronomy "earth" date
                             useHighPrecision allBodies)))).
      lra. }
    apply H. lra.
  - destruct (_ <? _)%nat; [lra | apply spanOfSorted_le_360].
Qed.

(** ** findOptimalEventTime *)

Section Optimiser.

Variable metric : JS.Date -> R.
Hypothesis metric_bound : forall d, metric d <= 360.

(** The value of the metric at the number [t], as the code evaluates it. *)
Definition metricAt (t : R) : R := metric (JS.newDate t).

(** What both loops maintain: [minMetric] is at most the metric at every
    number probed so far, and it is attained at [bestTime], which is one of
    them (or nothing was probed yet and the two variables are as
    initialised). *)
Definition bestSoFar (init : R) (log : list R) (bestTime minMetric : R)
  : Prop :=
  (forall t, In t log -> minMetric <= metricAt t)
  /\ minMetric <= 999
  /\ ((In bestTime log /\ metricAt bestTime = minMetric)
      \/ (log = [] /\ bestTime = init /\ minMetric = 999)).

Lemma bestSoFar_keep init log0 ts bestTime minMetric :
  bestSoFar init log0 bestTime minMetric ->
  ts <> [] -> (forall t, In t ts -> minMetric <= metricAt t) ->
  bestSoFar init (log0 ++ ts) bestTime minMetric.
Proof.
  intros (Hall & H999 & Hbest) Hne Hts. repeat split.
  - intros u Hu. apply in_app_or in Hu. destruct Hu; auto.
  - exact H999.
  - left. destruct Hbest as [[Hin Heq] | (Hnil & Hb & Hm)].
    + split; [apply in_or_app; now left | exact Heq].
    + exfalso. destruct ts as [| t ts]; [now apply Hne |].
      specialize (Hts t (or_introl eq_refl)).
      pose proof (metric_bound (JS.newDate t)). unfold metricAt in Hts. lra.
Qed.

Lemma bestSoFar_update init log0 ts bestTime minMetric t :
  bestSoFar init log0 bestTime minMetric ->
  In t ts -> metricAt t < minMetric ->
  (forall u, In u ts -> metricAt t <= metricAt u) ->
  bestSoFar init (log0 ++ ts) t (metricAt t).
Proof.
  intros (Hall & H999 & Hbest) Hin Hlt Hts. repeat split.
  - intros u Hu. apply in_app_or in Hu. destruct Hu as [Hu | Hu]; auto.
    specialize (Hall u Hu). lra.
  - lra.
  - left. split; [apply in_or_app; now right | reflexivity].
Qed.

Lemma coarseLoop_spec (start stepSize : R) (init : R) (n i : nat)
  (bestTime minMetric : R) (log0 : list R) :
  bestSoFar init log0 bestTime minMetric ->
  let '((bestTime', minMetric'), log) :=
    coarseLoop metric start stepSize i n bestTime minMetric in
  bestSoFar init (log0 ++ log) bestTime' minMetric'
  /\ log = map (fun j => start + INR j * stepSize) (seq i n)
  /\ (bestTime' = bestTime \/ In bestTime' log).
Proof.
  revert i bestTime minMetric log0.
  induction n as [| n IH]; intros i bestTime minMetric log0 Hinv.
  - cbn. rewrite app_nil_r. auto.
  - cbn [coarseLoop bind probe seq map].
    set (t := start + INR i * stepSize).
    fold (metricAt t).
    js_case (JS.ltb (metricAt t) minMetric).
    + assert (Hnext : bestSoFar init (log0 ++ [t]) t (metricAt t)).
      { apply (bestSoFar_update init log0 [t] bestTime minMetric t Hinv);
          [now left | exact Hlt |].
        intros u [<- | []]. lra. }
      specialize (IH (S i) t (metricAt t) (log0 ++ [t]) Hnext).
      destruct (coarseLoop metric start stepSize (S i) n t (metricAt t))
        as [[bt mm] log].
      destruct IH as (Hinv' & Hlog & Hbt).
      rewrite <- app_assoc in Hinv'. cbn [app] in *.
      split; [exact Hinv' |]. split; [now rewrite Hlog |].
      right. destruct Hbt as [-> | Hbt]; [now left | now right].
    + assert (Hnext : bestSoFar init (log0 ++ [t]) bestTime minMetric).
      { apply (bestSoFar_keep init log0 [t] bestTime minMetric Hinv);
          [discriminate |].
        intros u [<- | []]. exact Hlt. }
      specialize (IH (S i) bestTime minMetric (log0 ++ [t]) Hnext).
      destruct (coarseLoop metric start stepSize (S i) n bestTime minMetric)
        as [[bt mm] log].
      destruct IH as (Hinv' & Hlog & Hbt).
      rewrite <- app_assoc in Hinv'. cbn [app] in *.
      split; [exact Hinv' |]. split; [now rewrite Hlog |].
      destruct Hbt as [-> | Hbt]; [now left | right; now right].
Qed.

(** One pass of the ternary loop leaves a bracket inside the bracket it
    entered with. *)
Lemma ternaryLoop_spec (init : R) (n : nat)
  (left right bestTime minMetric : R) (log0 : list R) :
  bestSoFar init log0 bestTime minMetric ->
  let '((bestTime', minMetric'), log) :=
    ternaryLoop metric n left right bestTime minMetric in
  bestSoFar init (log0 ++ log) bestTime' minMetric'
  /\ List.length log = (2 * n)%nat
  /\ (left <= right -> forall t, In t log -> left <= t <= right)
  /\ (bestTime' = bestTime \/ In bestTime' log).
Proof.
  revert left right bestTime minMetric log0.
  induction n as [| n IH]; intros left right bestTime minMetric log0 Hinv.
  - cbn. rewrite app_nil_r. repeat split; auto; try apply Hinv; contradiction.
  - cbn [ternaryLoop bind probe].
    set (m1 := left + (right - left) / 3).
    set (m2 := right - (right - left) / 3).
    fold (metricAt m1). fold (metricAt m2).
    assert (Hfinish :
      forall l r bt mm,
        bestSoFar init (log0 ++ [m1; m2]) bt mm ->
        (left <= right -> left <= l /\ l <= r /\ r <= right) ->
        (bt = bestTime \/ In bt [m1; m2]) ->
        let '(bestTime', minMetric', log) :=
          (let '(b, l2) :=
             (let '(b, l2) := ternaryLoop metric n l r bt mm in
              (b, [m2] ++ l2)) in
           (b, [m1] ++ l2)) in
        bestSoFar init (log0 ++ log) bestTime' minMetric'
        /\ List.length log = (2 * S n)%nat
        /\ (left <= right -> forall t, In t log -> left <= t <= right)
        /\ (bestTime' = bestTime \/ In bestTime' log)).
    { intros l r bt mm Hnext Hbr Hsrc.
      specialize (IH l r bt mm (log0 ++ [m1; m2]) Hnext).
      destruct (ternaryLoop metric n l r bt mm) as [[bt' mm'] log].
      destruct IH as (Hinv' & Hlen & Hrange & Hbt).
      rewrite <- app_assoc in Hinv'. cbn [app] in *.
      split; [exact Hinv' |].
      split; [cbn [List.length]; lia |].
      split.
      - intros Hlr t [<- | [<- | Ht]].
        + subst m1. lra.
        + subst m2. lra.
        + destruct (Hbr Hlr) as (H1 & H2 & H3).
          specialize (Hrange H2 t Ht). lra.
      - destruct Hbt as [-> | Hbt].
        + destruct Hsrc as [-> | Hsrc]; [now left | right].
          destruct Hsrc as [<- | [<- | []]]; [now left | right; now left].
        + right. right. now right. }
    js_case (JS.ltb (metricAt m1) (metricAt m2)).
    + js_case (JS.ltb (metricAt m1) minMetric).
      * apply Hfinish.
        -- apply (bestSoFar_update init log0 [m1; m2] bestTime minMetric m1
                    Hinv); [now left | exact Hlt0 |].
           intros u [<- | [<- | []]]; lra.
        -- intros Hlr. subst m1 m2. lra.
        -- right. now left.
      * apply Hfinish.
        -- apply (bestSoFar_keep init log0 [m1; m2] bestTime minMetric Hinv);
             [discriminate |].
           intros u [<- | [<- | []]]; lra.
        -- intros Hlr. subst m1 m2. lra.
        -- now left.
    + js_case (JS.ltb (metricAt m2) minMetric).
      * apply Hfinish.
        -- apply (bestSoFar_update init log0 [m1; m2] bestTime minMetric m2
                    Hinv); [right; now left | exact Hlt0 |].
           intros u [<- | [<- | []]]; lra.
        -- intros Hlr. subst m1 m2. lra.
        -- right. right. now left.
      * apply Hfinish.
        -- apply (bestSoFar_keep init log0 [m1; m2] bestTime minMetric Hinv);
             [discriminate |].
           intros u [<- | [<- | []]]; lra.
        -- intros Hlr. subst m1 m2. lra.
        -- now left.
Qed.

End Optimiser.

Lemma INR_20 : INR 20 = 20.
Proof. rewrite INR_IZR_INZ. reflexivity. Qed.

(** The coarse samples: [start + i * stepSize] for [i = 0 .. 20]. *)
Definition coarseSamples (start end_ : R) : list R :=
  map (fun j => start + INR j * ((end_ - start) / INR 20)) (seq 0 21).

Lemma coarseSamples_range (start end_ t : R) :
  start <= end_ -> In t (coarseSamples start end_) -> start <= t <= end_.
Proof.
  intros Hle Hin. unfold coarseSamples in Hin.
  apply in_map_iff in Hin. destruct Hin as (j & <- & Hj).
  apply in_seq in Hj. rewrite INR_20.
  assert (H0 : 0 <= INR j) by apply pos_INR.
  assert (H20 : INR j <= 20).
  { rewrite <- INR_20. apply le_INR. lia. }
  split; [| replace end_ with (start + 20 * ((end_ - start) / 20)) at 2
              by field]; nra.
Qed.

(** Everything the two loops of [findOptimalEventTime] establish. *)
Lemma findOptimalEventTime_spec
  (Astronomy : option Engine) (start end_ : R) (type : EventType)
  (targetIds : list string) (useHighPrecision strictMode : bool)
  (solarRadiusDeg : R) (allBodies : list PlanetData) :
  let metric := fun d =>
    getAlignmentMetric Astronomy d type targetIds useHighPrecision allBodies in
  let run := findOptimalEventTime_tr Astronomy start end_ type targetIds
               useHighPrecision strictMode solarRadiusDeg allBodies in
  let time := fst (fst run) in
  let angle := snd (fst run) in
  let probes := snd run in
  (forall t, In t probes -> angle <= metricAt metric t)
  /\ In time probes
  /\ metricAt metric time = angle
  /\ (exists ternary, probes = coarseSamples start end_ ++ ternary
                      /\ List.length ternary = 20%nat
                      /\ (start <= end_ ->
                          forall t, In t ternary -> start <= t <= end_)).
Proof.
  intros metric run time angle probes.
  subst time angle probes run. unfold findOptimalEventTime_tr.
  cbv zeta. fold metric. cbn [bind].
  assert (Hbound : forall d, metric d <= 360)
    by (intro d; apply getAlignmentMetric_bound).
  assert (Hinit : bestSoFar metric start [] start 999).
  { repeat split; [intros t [] | lra | right; auto]. }
  pose proof (coarseLoop_spec metric Hbound start ((end_ - start) / INR 20)
                start 21 0 start 999 [] Hinit) as Hc.
  destruct (coarseLoop metric start ((end_ - start) / INR 20) 0 21 start 999)
    as [[bt mm] clog].
  destruct Hc as (Hinv & Hclog & Hbt). cbn [app] in Hinv.
  unfold bind. cbv beta iota.
  set (left := JS.max start (bt - (end_ - start) / INR 20)).
  set (right := JS.min end_ (bt + (end_ - start) / INR 20)).
  pose proof (ternaryLoop_spec metric Hbound start 10 left right bt mm clog
                Hinv) as Ht.
  destruct (ternaryLoop metric 10 left right bt mm) as [[bt' mm'] tlog].
  destruct Ht as (Hinv' & Hlen & Hrange & Hbt').
  cbn [fst snd].
  destruct Hinv' as (Hall & H999 & Hbest).
  assert (Hne : clog ++ tlog <> []) by (rewrite Hclog; discriminate).
  destruct Hbest as [[Hin Heq] | (Hnil & _)]; [| contradiction].
  split; [exact Hall |]. split; [exact Hin |]. split; [exact Heq |].
  exists tlog. split; [now rewrite Hclog |]. split; [exact Hlen |].
  intros Hle t Hin'.
  assert (Hbtr : start <= bt <= end_).
  { destruct Hbt as [-> | Hbt]; [lra |].
    apply coarseSamples_range; [exact Hle |]. unfold coarseSamples.
    now rewrite <- Hclog. }
  assert (Hstep : 0 <= (end_ - start) / INR 20).
  { rewrite INR_20. lra. }
  assert (Hl : start <= left /\ left <= right /\ right <= end_).
  { subst left right. unfold JS.max, JS.min, Rmax, Rmin.
    repeat destruct (Rle_dec _ _); lra. }
  destruct Hl as (H1 & H2 & H3). specialize (Hrange H2 t Hin'). lra.
Qed.

(** C5. The metric [findOptimalEventTime] returns is at most the metric at
    [start] and at [end]; it is at most the metric at each of the 21 coarse
    samples and 20 ternary probes, and it is the metric at the returned
    time, which is one of those 41 numbers. *)
Theorem findOptimalEventTime_minimum
  (Astronomy : option Engine) (start end_ : R) (type : EventType)
  (targetIds : list string) (useHighPrecision strictMode : bool)
  (solarRadiusDeg : R) (allBodies : list PlanetData) :
  let metric := fun t =>
    getAlignmentMetric Astronomy (JS.newDate t) type targetIds
      useHighPrecision allBodies in
  let run := findOptimalEventTime_tr Astronomy start end_ type targetIds
               useHighPrecision strictMode solarRadiusDeg allBodies in
  let result := findOptimalEventTime Astronomy start end_ type targetIds
                  useHighPrecision strictMode solarRadiusDeg allBodies in
  let time := fst result in
  let angle := snd result in
  let probes := snd run in
  angle <= metric start
  /\ angle <= metric end_
  /\ List.length probes = 41%nat
  /\ (forall t, In t (coarseSamples start end_) -> In t probes)
  /\ (forall t, In t probes -> angle <= metric t)
  /\ In time probes
  /\ metric time = angle.
Proof.
  intros metric run result time angle probes.
  destruct (findOptimalEventTime_spec Astronomy start end_ type targetIds
              useHighPrecision strictMode solarRadiusDeg allBodies)
    as (Hall & Hin & Heq & (ternary & Hprobes & Hlen & _)).
  cbv zeta in Hall, Hin, Heq, Hprobes.
  unfold metricAt in Hall, Heq. cbv beta in Hall, Heq.
  subst time angle probes result metric run.
  unfold findOptimalEventTime. cbv beta.
  set (run := findOptimalEventTime_tr Astronomy start end_ type targetIds
                useHighPrecision strictMode solarRadiusDeg allBodies) in *.
  assert (Hsub : forall t, In t (coarseSamples start end_) -> In t (snd run)).
  { intros t Ht. rewrite Hprobes. apply in_or_app. now left. }
  assert (Hs : In start (coarseSamples start end_)).
  { unfold coarseSamples. apply in_map_iff. exists 0%nat.
    split; [cbn [INR]; ring | apply in_seq; lia]. }
  assert (He : In end_ (coarseSamples start end_)).
  { unfold coarseSamples. apply in_map_iff. exists 20%nat.
    split; [rewrite INR_20; field | apply in_seq; lia]. }
  split; [exact (Hall start (Hsub start Hs)) |].
  split; [exact (Hall end_ (Hsub end_ He)) |].
  split; [rewrite Hprobes, length_app, Hlen; reflexivity |].
  split; [exact Hsub |].
  split; [exact Hall |].
  split; [exact Hin | exact Heq].
Qed.

(** ** calculateBodyPosition *)

(** C7, as amended.  The special case is keyed on the id: for the id [sun]
    the position is the origin for every date, every set of elements and
    every precision setting, and no call of the solver is made. *)
Theorem calculateBodyPosition_sun
  (Astronomy : option Engine) (elements : OrbitalElements) (date : JS.Date)
  (useHighPrecision : bool) :
  calculateBodyPosition_tr Astronomy "sun" elements date useHighPrecision
  = (origin, [])
  /\ calculateBodyPosition Astronomy "sun" elements date useHighPrecision
     = origin.
Proof. split; reflexivity. Qed.

(** Without the ephemeris, every other id goes through the solver once. *)
Lemma calculateBodyPosition_kepler_path
  (id : string) (elements : OrbitalElements) (date : JS.Date) :
  String.eqb id "sun" = false ->
  List.length
    (snd (calculateBodyPosition_tr None id elements date false)) = 1%nat.
Proof.
  intros Hid. unfold calculateBodyPosition_tr. rewrite Hid. reflexivity.
Qed.

(** C7 as stated fails: with [a = 0] and an id other than [sun] the solver
    is called, so the result is not the special case. *)
Lemma calculateBodyPosition_a0_calls_solver :
  let elements := mkElements 0 0 0 0 0 0 in
  el_a elements = 0
  /\ calculateBodyPosition_tr None "mercury" elements 0%Z false
     <> (origin, []).
Proof.
  split; [reflexivity |].
  intros H. apply (f_equal (fun r => List.length (snd r))) in H.
  rewrite calculateBodyPosition_kepler_path in H by reflexivity.
  discriminate.
Qed.

(** ** project3D *)

Import Projection.


Lemma project3D_depth_any_id pos scale settings zoomK id id' pivot :
  pp_depth (project3D pos scale settings zoomK id pivot)
  = pp_depth (project3D pos scale settings zoomK id' pivot).
Proof.
  unfold project3D.
  destruct (enablePerspective settings); [| reflexivity].
  destruct (JS.leb _ _); reflexivity.
Qed.








Definition frontSettings : AppSettings :=
  mkSettings false true false false 0 0 true true.




(** C9. Projecting the pivot itself gives the screen point (0, 0) at depth
    0, for every yaw and tilt, every scale, every positive zoom factor (the
    zoom behaviour of the view keeps it positive; at zoom 0 the camera
    distance of the proximity mode is not a number of the model), every id
    and both projection modes.  The pivot is in front of the camera, at the
    camera distance, and its scale factor is 1. *)
Theorem project3D_pivot
  (pivot : Position) (scale : R) (settings : AppSettings) (zoomK : R)
  (id : option string) :
  0 < zoomK ->
  let p := project3D pivot scale settings zoomK id pivot in
  pp_x p = 0 /\ pp_y p = 0 /\ pp_depth p = 0 /\ pp_scaleFactor p = 1.
Proof.
  intros Hzoom. unfold project3D. cbv zeta.
  assert (Hcam : 0 < effectiveCameraDist settings zoomK).
  { unfold effectiveCameraDist, BASE_PROXIMITY_CONST, INFINITE_CAMERA_DIST.
    destruct (enableProximitySim settings); [| lra].
    apply Rdiv_lt_0_compat; lra. }
  set (camera := effectiveCameraDist settings zoomK) in *.
  destruct (enablePerspective settings).
  - match goal with
    | |- context [JS.leb (camera - ?d) 0] =>
        replace d with 0 by ring
    end.
    rewrite Rminus_0_r.
    js_case (JS.leb camera 0); [lra |].
    cbn [pp_x pp_y pp_depth pp_scaleFactor].
    split; [ring |]. split; [ring |]. split; [reflexivity |].
    field. lra.
  - cbn [pp_x pp_y pp_depth pp_scaleFactor].
    split; [ring |]. split; [ring |]. split; [ring | reflexivity].
Qed.

(** The theorem in the proximity mode, at zoom 40, where the camera is 50
    units from the pivot. *)
Lemma project3D_pivot_witness :
  0 < 40
  /\ pp_x (project3D (mkPos 1 2 3) 65 frontSettings 40 (Some "mars"%string)
             (mkPos 1 2 3)) = 0
  /\ pp_scaleFactor
       (project3D (mkPos 1 2 3) 65 frontSettings 40 (Some "mars"%string)
          (mkPos 1 2 3)) = 1.
Proof.
  assert (H : 0 < 40) by lra.
  destruct (project3D_pivot (mkPos 1 2 3) 65 frontSettings 40
              (Some "mars"%string) H) as (Hx & _ & _ & Hs).
  split; [exact H |]. split; [exact Hx | exact Hs].
Defined.

(** The optimum lies in the window and its metric is at most the metric at
    the window's start. *)
Lemma findOptimalEventTime_in_window
  (Astronomy : option Engine) (start end_ : R) (type : EventType)
  (targetIds : list string) (useHighPrecision strictMode : bool)
  (solarRadiusDeg : R) (allBodies : list PlanetData) :
  let result := findOptimalEventTime Astronomy start end_ type targetIds
                  useHighPrecision strictMode solarRadiusDeg allBodies in
  let metric := fun t =>
    getAlignmentMetric Astronomy (JS.newDate t) type targetIds
      useHighPrecision allBodies in
  metric (fst result) = snd result
  /\ snd result <= metric start
  /\ (start <= end_ -> start <= fst result <= end_).
Proof.
  intros result metric.
  destruct (findOptimalEventTime_spec Astronomy start end_ type targetIds
              useHighPrecision strictMode solarRadiusDeg allBodies)
    as (Hall & Hin & Heq & (ternary & Hprobes & Hlen & Hrange)).
  cbv zeta in Hall, Hin, Heq, Hprobes.
  unfold metricAt in Hall, Heq. cbv beta in Hall, Heq.
  subst result metric. unfold findOptimalEventTime. cbv beta.
  set (run := findOptimalEventTime_tr Astronomy start end_ type targetIds
                useHighPrecision strictMode solarRadiusDeg allBodies) in *.
  split; [exact Heq |]. split.
  - apply Hall. rewrite Hprobes. apply in_or_app. left.
    unfold coarseSamples. apply in_map_iff. exists 0%nat.
    split; [cbn [INR]; ring | apply in_seq; lia].
  - intros Hle. rewrite Hprobes in Hin. apply in_app_or in Hin.
    destruct Hin as [Hin | Hin].
    + now apply coarseSamples_range.
    + now apply Hrange.
Qed.

(** ** The found-event history *)

Import Simulation.

(** The angular separation, in degrees, that [isTransit] compares with the
    tolerance. *)
Definition transitAngleDeg
  (Astronomy : option Engine) (planetName : string) (date : JS.Date)
  (useHighPrecision : bool) (allBodies : list PlanetData) : R :=
  let posEarth :=
    getPositionHelper Astronomy "earth" date useHighPrecision allBodies in
  let posPlanet :=
    getPositionHelper Astronomy planetName date useHighPrecision allBodies in
  angleBetweenVectors3D (subtractVectors origin posEarth)
                        (subtractVectors posPlanet posEarth)
  * (180 / PI).

(** The body is nearer to the Earth than the Sun is: the second conjunct
    of [isTransit]. *)
Definition nearerThanSun
  (Astronomy : option Engine) (planetName : string) (date : JS.Date)
  (useHighPrecision : bool) (allBodies : list PlanetData) : bool :=
  let posEarth :=
    getPositionHelper Astronomy "earth" date useHighPrecision allBodies in
  let posPlanet :=
    getPositionHelper Astronomy planetName date useHighPrecision allBodies in
  JS.ltb (magnitude (subtractVectors posPlanet posEarth))
         (magnitude (subtractVectors origin posEarth)).

Lemma isTransit_split
  (Astronomy : option Engine) (planetName : string) (date : JS.Date)
  (toleranceDeg : R) (useHighPrecision strictMode : bool)
  (solarRadiusDeg : R) (allBodies : list PlanetData) :
  isTransit Astronomy planetName date toleranceDeg useHighPrecision strictMode
    solarRadiusDeg allBodies
  = JS.leb (transitAngleDeg Astronomy planetName date useHighPrecision
              allBodies)
           (if strictMode then solarRadiusDeg else toleranceDeg)
    && nearerThanSun Astronomy planetName date useHighPrecision allBodies.
Proof. reflexivity. Qed.

Lemma transitAngleDeg_nonneg Astronomy planetName date hp allBodies :
  0 <= transitAngleDeg Astronomy planetName date hp allBodies.
Proof.
  unfold transitAngleDeg.
  apply angle_degrees_bound, angleBetweenVectors3D_bound.
Qed.

(** The transit metric is the largest of [0] and the targets' angular
    separations. *)
Lemma transit_metric_ge Astronomy date targetIds hp allBodies id :
  In id targetIds ->
  transitAngleDeg Astronomy id date hp allBodies
  <= getAlignmentMetric Astronomy date TRANSIT targetIds hp allBodies.
Proof.
  unfold getAlignmentMetric. cbv zeta.
  set (f := fun (maxDiff : R) (id : string) => _).
  assert (Hmono : forall l acc, acc <= fold_left f l acc).
  { induction l as [| x l IH]; intro acc; cbn [fold_left]; [lra |].
    eapply Rle_trans; [| apply IH]. unfold f.
    js_case (JS.ltb acc (angleBetweenVectors3D
       (subtractVectors origin (getPositionHelper Astronomy "earth" date hp
                                  allBodies))
       (subtractVectors (getPositionHelper Astronomy x date hp allBodies)
          (getPositionHelper Astronomy "earth" date hp allBodies))
       * (180 / PI))); lra. }
  assert (H : forall l acc, In id l ->
            transitAngleDeg Astronomy id date hp allBodies
            <= fold_left f l acc).
  { induction l as [| x l IH]; intros acc Hin; [destruct Hin |].
    cbn [fold_left]. destruct Hin as [-> | Hin]; [| now apply IH].
    eapply Rle_trans; [| apply Hmono]. unfold f, transitAngleDeg. cbv zeta.
    match goal with |- context [JS.ltb ?a ?b] => js_case (JS.ltb a b) end;
      lra. }
  intros Hin. now apply H.
Qed.

Lemma transit_metric_le Astronomy date targetIds hp allBodies bound :
  0 <= bound ->
  (forall id, In id targetIds ->
     transitAngleDeg Astronomy id date hp allBodies <= bound) ->
  getAlignmentMetric Astronomy date TRANSIT targetIds hp allBodies <= bound.
Proof.
  intros Hb Hall. unfold getAlignmentMetric. cbv zeta.
  set (f := fun (maxDiff : R) (id : string) => _).
  assert (H : forall l acc, acc <= bound ->
            (forall id, In id l ->
               transitAngleDeg Astronomy id date hp allBodies <= bound) ->
            fold_left f l acc <= bound).
  { induction l as [| x l IH]; intros acc Hacc Hl; cbn [fold_left];
      [exact Hacc |].
    apply IH; [| intros id Hid; apply Hl; now right].
    unfold f. specialize (Hl x (or_introl eq_refl)).
    unfold transitAngleDeg in Hl. cbv zeta in Hl.
    match goal with |- context [JS.ltb ?a ?b] => js_case (JS.ltb a b) end;
      lra. }
  now apply H.
Qed.

(** The event both callbacks build from the date on which the scan loop
    found the predicate true. *)
Definition eventAt
  (Astronomy : option Engine) (settings : AppSettings)
  (celestialBodies : list PlanetData) (eventId : string) (ty : EventType)
  (targets : list string) (tolerance : R) (strict : bool) (solarRadius : R)
  (strictField : option bool) (center : JS.Date) : FoundEvent :=
  let duration :=
    calculateEventDuration Astronomy center ty targets tolerance
      (useHighPrecision settings) strict solarRadius celestialBodies in
  let optimal :=
    findOptimalEventTime Astronomy (fst duration) (snd duration) ty targets
      (useHighPrecision settings) strict solarRadius celestialBodies in
  mkFoundEvent eventId ty targets (fst duration) (snd duration)
               (fst optimal) (snd optimal) strictField.

(** What holds of a found event, for the tolerance, strict mode and solar
    radius its search captured: the optimum lies in the window; for an
    alignment the predicate holds at the optimum; for a transit every
    target is, at the optimum, within the effective tolerance of the Sun's
    direction. *)
Definition eventInvariant
  (Astronomy : option Engine) (useHighPrecision : bool)
  (allBodies : list PlanetData) (tolerance : R) (strict : bool)
  (solarRadius : R) (ev : FoundEvent) : Prop :=
  fe_startDate ev <= fe_optimalDate ev <= fe_endDate ev
  /\ match fe_type ev with
     | PLANETARY_ALIGNMENT =>
         checkSpecificAlignment Astronomy (JS.newDate (fe_optimalDate ev))
           (Some (fe_targetIds ev)) tolerance useHighPrecision allBodies
         = true
     | TRANSIT =>
         forall id, In id (fe_targetIds ev) ->
           transitAngleDeg Astronomy id (JS.newDate (fe_optimalDate ev))
             useHighPrecision allBodies
           <= (if strict then solarRadius else tolerance)
     end.

Lemma detects_eventCheck
  Astronomy settings celestialBodies ty targets tolerance strict solarRadius
  (d : JS.Date) :
  detects Astronomy settings celestialBodies ty targets tolerance strict
    solarRadius d = true ->
  eventCheck Astronomy ty targets tolerance (useHighPrecision settings) strict
    solarRadius celestialBodies (JS.getTime d) = true.
Proof.
  unfold detects, eventCheck. rewrite newDate_getTime.
  destruct ty; intros H; apply andb_prop in H; apply H.
Qed.

Lemma eventAt_invariant
  Astronomy settings celestialBodies eventId ty targets tolerance strict
  solarRadius strictField (center : JS.Date) :
  eventCheck Astronomy ty targets tolerance (useHighPrecision settings) strict
    solarRadius celestialBodies (JS.getTime center) = true ->
  eventInvariant Astronomy (useHighPrecision settings) celestialBodies
    tolerance strict solarRadius
    (eventAt Astronomy settings celestialBodies eventId ty targets tolerance
       strict solarRadius strictField center).
Proof.
  intros Hcenter. unfold eventInvariant, eventAt.
  cbn [fe_startDate fe_endDate fe_optimalDate fe_type fe_targetIds].
  destruct (calculateEventDuration_days Astronomy center ty targets tolerance
              (useHighPrecision settings) strict solarRadius celestialBodies)
    as (ks & ke & _ & _ & _ & Hwin & Htrue & _).
  cbv zeta in Hwin, Htrue. rewrite Hwin. cbn [fst snd].
  destruct (Htrue Hcenter) as [Hstart _].
  set (start := JS.getTime center - INR ks * MILLISECONDS_PER_DAY) in *.
  set (end_ := JS.getTime center + INR ke * MILLISECONDS_PER_DAY) in *.
  assert (Hle : start <= end_).
  { subst start end_. pose proof (pos_INR ks). pose proof (pos_INR ke).
    unfold MILLISECONDS_PER_DAY. nra. }
  destruct (findOptimalEventTime_in_window Astronomy start end_ ty targets
              (useHighPrecision settings) strict solarRadius celestialBodies)
    as (Heq & Hmin & Hrange).
  cbv zeta in Heq, Hmin, Hrange.
  set (result := findOptimalEventTime Astronomy start end_ ty targets
                   (useHighPrecision settings) strict solarRadius
                   celestialBodies) in *.
  split; [now apply Hrange |].
  unfold eventCheck in Hstart.
  destruct ty.
  - (* transit *)
    intros id Hid.
    rewrite forallb_forall in Hstart.
    assert (Hbound : forall x, In x targets ->
              transitAngleDeg Astronomy x (JS.newDate start)
                (useHighPrecision settings) celestialBodies
              <= (if strict then solarRadius else tolerance)).
    { intros x Hx. specialize (Hstart x Hx). rewrite isTransit_split in Hstart.
      apply andb_prop in Hstart. destruct Hstart as [Hang _].
      now apply leb_true in Hang. }
    assert (H0 : 0 <= (if strict then solarRadius else tolerance)).
    { eapply Rle_trans; [| apply (Hbound id Hid)].
      apply transitAngleDeg_nonneg. }
    pose proof (transit_metric_le Astronomy (JS.newDate start) targets
                  (useHighPrecision settings) celestialBodies _ H0 Hbound)
      as Hms.
    pose proof (transit_metric_ge Astronomy (JS.newDate (fst result)) targets
                  (useHighPrecision settings) celestialBodies id Hid) as Hge.
    lra.
  - (* alignment: the metric is the span the predicate tests *)
    unfold checkSpecificAlignment in *.
    unfold getAlignmentMetric in Heq, Hmin. cbv zeta in Heq, Hmin.
    destruct (List.length targets <? 2)%nat; [discriminate |].
    apply leb_true in Hstart. apply leb_true. lra.
Qed.

(** *** The scan loops *)

Arguments calculateEventDuration : simpl never.
Arguments findOptimalEventTime : simpl never.
Arguments capReached : simpl never.
Arguments sortStr : simpl never.
Arguments eventKey : simpl never.
Arguments detects : simpl never.

(** The position the scan is moved to after a found event: one day past
    the window, in the direction of the scan. *)
Definition pastWindow (dir : Direction) (ev : FoundEvent) : R :=
  match dir with
  | Forward => fe_endDate ev + MILLISECONDS_PER_DAY
  | Backward => fe_startDate ev - MILLISECONDS_PER_DAY
  end.

(** Evaluation on a state given by its fields: the setters and the
    projections are unfolded, call by value, and nothing else. *)
Ltac state_eval :=
  cbv beta iota zeta delta
    [eventAt pastWindow
     update_searchState
     set_active set_targetIds set_status set_speed set_isCalculating
     set_calculationResult set_calculationDuration set_elapsedTime
     set_currentScanDate set_result set_foundEvents set_completed
     set_currentDate set_isPlaying set_speedMultiplier
     set_highlightedAlignment set_searchState set_lastFrameTime
     set_lastRealTime set_lastEventGuard set_calcDate set_calcStart
     set_calcTarget set_batchPending set_highlightTimer set_batchDirection
     active type targetIds status speed activeTolerance activeSolarRadius
     strictMode isCalculating calculationResult calculationDuration
     elapsedTime currentScanDate resultStartDate resultEndDate
     resultOptimalDate resultMinAngle continuousPaused foundEvents
     searchStartTime completed
     currentDate isPlaying speedMultiplier timeDirection highlightedAlignment
     searchState lastFrameTime lastRealTime lastEventGuard calcDate calcStart
     calcTarget batchPending highlightTimer batchDirection
     fe_id fe_type fe_targetIds fe_startDate fe_endDate fe_optimalDate
     fe_minAngle fe_strictMode
     ct_type ct_ids ct_strictMode ct_tolerance ct_solarRadius
     option_map negb andb orb fst snd].

Section Scheduler.

Variable Astronomy : option Engine.
Variable settings : AppSettings.
Variable celestialBodies : list PlanetData.

Lemma searchLoop_found detect guard key step n d d' :
  searchLoop detect guard key step n d = (d', true) -> detect d' = true.
Proof.
  revert d; induction n as [| n IH]; intros d H; cbn [searchLoop] in H;
    [discriminate |].
  set (d1 := JS.newDate (JS.getTime d + step)) in H.
  destruct (guardSkips _ _ _); [now apply IH in H |].
  destruct (detect d1) eqn:E; [| now apply IH in H].
  now inversion H; subst.
Qed.

Lemma batchLoop_found detect guard key step n ts ts' :
  batchLoop detect guard key step n ts = (ts', true) ->
  detect (JS.newDate ts') = true.
Proof.
  revert ts; induction n as [| n IH]; intros ts H; cbn [batchLoop] in H;
    [discriminate |].
  destruct (guardSkips _ _ _); [now apply IH in H |].
  destruct (detect (JS.newDate (ts + step))) eqn:E; [| now apply IH in H].
  now inversion H; subst.
Qed.

(** What a frame of an active search does to the history and to the
    search flags.  [s0] is the state the frame started from, [s] differs
    from it in the clocks only. *)
Lemma searchTick_cases (ty : EventType) (eventId : string) (s0 s : Sim) :
  let ss := searchState s0 in
  let targets :=
    sortStr (match targetIds ss with Some l => l | None => [] end) in
  let tolerance := activeTolerance ss in
  let strict := truthy (strictMode ss) in
  let solarRadius := radiusOrDefault (activeSolarRadius ss) in
  let s' := searchTick Astronomy settings celestialBodies ty eventId s0 s in
  (foundEvents (searchState s') = foundEvents (searchState s)
   /\ active (searchState s') = active (searchState s)
   /\ completed (searchState s') = completed (searchState s))
  \/ (exists center : JS.Date,
        detects Astronomy settings celestialBodies ty targets tolerance strict
          solarRadius center = true
        /\ let ev := eventAt Astronomy settings celestialBodies eventId ty
                       targets tolerance strict solarRadius (strictMode ss)
                       center in
           foundEvents (searchState s') = foundEvents (searchState s) ++ [ev]
           /\ searchStartTime (searchState s')
              = searchStartTime (searchState s)
           /\ (continuousIteration settings = true ->
               currentDate s'
               = JS.newDate (pastWindow (timeDirection s0) ev)
               /\ if capReached (foundEvents (searchState s) ++ [ev])
                       (fe_endDate ev) (searchStartTime (searchState s))
                  then active (searchState s') = false
                       /\ completed (searchState s') = true
                       /\ status (searchState s') = StatusCompleted
                  else active (searchState s') = active (searchState s)
                       /\ completed (searchState s')
                          = completed (searchState s)
                       /\ status (searchState s') = StatusContinuing)
           /\ (continuousIteration settings = false ->
               active (searchState s') = false)).
Proof.
  intros ss targets tolerance strict solarRadius s'.
  subst s'. unfold searchTick. fold ss. cbv zeta. fold targets.
  fold tolerance strict solarRadius.
  destruct (searchLoop _ _ _ _ _ _) as [tempDate found] eqn:Hloop.
  destruct found.
  - right. exists tempDate. split; [exact (searchLoop_found _ _ _ _ _ _ _ Hloop) |].
    cbv zeta. unfold eventAt. cbv zeta.
    destruct (continuousIteration settings) eqn:Hcont.
    + cbn. destruct (timeDirection s0); cbn;
        destruct (capReached _ _ _); cbn;
        repeat split; intros; try reflexivity; discriminate.
    + cbn. destruct ty; cbn;
        destruct (negb (showEventHighlights settings)); cbn;
        repeat split; intros; try reflexivity; discriminate.
  - left. cbn. repeat split.
Qed.

(** What a batch does to the history, to the search flags and to its own
    rescheduling. *)
Lemma batchLoop_found_or detect guard key step n ts ts' found :
  batchLoop detect guard key step n ts = (ts', found) ->
  if found then detect (JS.newDate ts') = true else True.
Proof.
  destruct found; [apply batchLoop_found | trivial].
Qed.

Lemma runCalculationBatch_cases
  (now now' : R) (eventId : string) (s : Sim) (ct : CalcTarget) :
  calcTarget s = Some ct ->
  let ids := sortStr (ct_ids ct) in
  let ss := searchState s in
  let s' := runCalculationBatch Astronomy settings celestialBodies now now'
              eventId s in
  (foundEvents (searchState s') = foundEvents ss
   /\ completed (searchState s') = completed ss
   /\ isCalculating (searchState s') = isCalculating ss
   /\ calcTarget s' <> None
   /\ batchPending s'
      = negb (continuousPaused ss || negb (isCalculating ss)))
  \/ (exists ts : R,
        detects Astronomy settings celestialBodies (ct_type ct) ids
          (ct_tolerance ct) (ct_strictMode ct) (ct_solarRadius ct)
          (JS.newDate ts) = true
        /\ let ev := eventAt Astronomy settings celestialBodies eventId
                       (ct_type ct) ids (ct_tolerance ct) (ct_strictMode ct)
                       (ct_solarRadius ct) (Some (ct_strictMode ct))
                       (JS.newDate ts) in
           foundEvents (searchState s') = foundEvents ss ++ [ev]
           /\ searchStartTime (searchState s') = searchStartTime ss
           /\ (continuousIteration settings = true ->
               calcDate s' = pastWindow (batchDirection s) ev
               /\ batchPending s' = true
               /\ if capReached (foundEvents ss ++ [ev]) (fe_endDate ev)
                       (searchStartTime ss)
                  then calcTarget s' = None
                       /\ isCalculating (searchState s') = false
                       /\ completed (searchState s') = true
                  else calcTarget s' <> None
                       /\ isCalculating (searchState s') = isCalculating ss
                       /\ completed (searchState s') = completed ss)
           /\ (continuousIteration settings = false ->
               calcTarget s' = None
               /\ batchPending s' = false
               /\ isCalculating (searchState s') = false)).
Proof.
  intros Hct ids ss s'. subst s' ss.
  destruct s as [cd ip sm td ha ss lft lrt leg cdate cstart ctgt bp ht bd].
  destruct ss as [act ty tids st sp tol rad strict calc cres cdur el scan
                  rs re ro ra paused evs sst comp].
  cbn [calcTarget] in Hct. subst ctgt.
  unfold runCalculationBatch.
  destruct paused, calc, bd; state_eval; fold ids.
  all: destruct (batchLoop _ _ _ _ _ _) as [currentTs found] eqn:Hloop;
    apply batchLoop_found_or in Hloop;
    (destruct found;
     [ right; exists currentTs; split; [exact Hloop |];
       destruct (continuousIteration settings) eqn:Hcont;
       try (destruct (capReached _ _ _));
       repeat split; intros; try reflexivity; discriminate
     | left; repeat split; try reflexivity; discriminate ]).
Qed.

(** A frame either leaves the history as it is or appends the event built
    from a date on which the detection test of the search succeeded. *)
Lemma animate_foundEvents (time now : R) (eventId : string) (s : Sim) :
  let ss := searchState s in
  let targets :=
    sortStr (match targetIds ss with Some l => l | None => [] end) in
  let s' := animate Astronomy settings celestialBodies time now eventId s in
  foundEvents (searchState s') = foundEvents ss
  \/ (exists (ty : EventType) (center : JS.Date),
        type ss = Some ty
        /\ detects Astronomy settings celestialBodies ty targets
             (activeTolerance ss) (truthy (strictMode ss))
             (radiusOrDefault (activeSolarRadius ss)) center = true
        /\ foundEvents (searchState s')
           = foundEvents ss
             ++ [eventAt Astronomy settings celestialBodies eventId ty
                   targets (activeTolerance ss) (truthy (strictMode ss))
                   (radiusOrDefault (activeSolarRadius ss)) (strictMode ss)
                   center]).
Proof.
  intros ss targets s'. subst s' targets ss. unfold animate.
  destruct (JS.eqb (lastFrameTime s) 0); [left; reflexivity |].
  destruct (isCalculating (searchState s)) eqn:Hcalc; [left; reflexivity |].
  destruct (active (searchState s)) eqn:Hact;
    destruct (continuousPaused (searchState s)) eqn:Hp;
    cbn [andb negb].
  all: try (destruct (type (searchState s)) as [ty |] eqn:Hty).
  all: try (destruct (continuousIteration settings) eqn:Hc; cbn [andb]).
  all: try (left; reflexivity).
  all: try (left; destruct (isPlaying s); [| reflexivity];
            destruct (highlightedAlignment s); [| reflexivity];
            destruct (negb (showEventHighlights settings)); reflexivity).
  all: match goal with
       | |- context [searchTick _ _ _ ?ty0 ?eid ?s0 ?s2] =>
           destruct (searchTick_cases ty0 eid s0 s2)
             as [(Hev & _) | (center & Hdet & Hev & _)];
           [ left; rewrite Hev; reflexivity
           | right; exists ty0, center; (split; [reflexivity |]);
             (split; [exact Hdet |]); cbv zeta in Hev; rewrite Hev;
             reflexivity ]
       end.
Qed.

(** A frame of an active, unpaused search is the search tick, run on a
    state that differs from the frame's in the clocks only. *)
Lemma animate_active (time now : R) (eventId : string) (s : Sim)
  (ty : EventType) :
  JS.eqb (lastFrameTime s) 0 = false ->
  isCalculating (searchState s) = false ->
  active (searchState s) = true ->
  type (searchState s) = Some ty ->
  continuousPaused (searchState s) = false ->
  exists s2,
    animate Astronomy settings celestialBodies time now eventId s
    = searchTick Astronomy settings celestialBodies ty eventId s s2
    /\ foundEvents (searchState s2) = foundEvents (searchState s)
    /\ active (searchState s2) = true
    /\ completed (searchState s2) = completed (searchState s)
    /\ searchStartTime (searchState s2) = searchStartTime (searchState s).
Proof.
  intros Hframe Hcalc Hact Hty Hpause. unfold animate.
  rewrite Hframe, Hcalc, Hact, Hty, Hpause. cbn [negb andb].
  rewrite andb_false_r.
  eexists. split; [reflexivity |]. cbn. rewrite Hact. auto.
Qed.

(** A frame that finds the search inactive and the clock stopped scans
    nothing. *)
Lemma animate_idle (time now : R) (eventId : string) (s : Sim) :
  active (searchState s) = false -> isPlaying s = false ->
  let s' := animate Astronomy settings celestialBodies time now eventId s in
  currentDate s' = currentDate s
  /\ foundEvents (searchState s') = foundEvents (searchState s)
  /\ active (searchState s') = false
  /\ completed (searchState s') = completed (searchState s).
Proof.
  intros Hact Hplay. unfold animate.
  destruct (JS.eqb (lastFrameTime s) 0); [cbn; auto |].
  rewrite Hact, Hplay. cbn [andb].
  destruct (isCalculating (searchState s)); cbn; auto.
Qed.

(** A batch that finds its target cleared scans nothing and schedules
    nothing. *)
Lemma runCalculationBatch_idle (now now' : R) (eventId : string) (s : Sim) :
  calcTarget s = None ->
  runCalculationBatch Astronomy settings celestialBodies now now' eventId s
  = set_batchPending false s.
Proof.
  intros Hct. unfold runCalculationBatch.
  cbn [calcTarget set_batchPending]. now rewrite Hct.
Qed.

End Scheduler.

(** *** The invariant of the history *)

(** [ev] is the event a callback appended to the history of [s]. *)
Definition appended (s s' : Sim) (ev : FoundEvent) : Prop :=
  foundEvents (searchState s') = foundEvents (searchState s) ++ [ev].

(** The events appended to the history, each with the tolerance, strict
    mode and solar radius its search captured: by a frame of the
    interactive search, from the search state; by a batch of the
    calculation, from the target the calculation was started with. *)
Inductive AppendedEvent
  (Astronomy : option Engine) (settings : AppSettings)
  (celestialBodies : list PlanetData)
  : FoundEvent -> R -> bool -> R -> Prop :=
| appended_by_frame (time now : R) (eventId : string) (s : Sim)
    (ev : FoundEvent) :
    appended s (animate Astronomy settings celestialBodies time now eventId s)
             ev ->
    AppendedEvent Astronomy settings celestialBodies ev
      (activeTolerance (searchState s))
      (truthy (strictMode (searchState s)))
      (radiusOrDefault (activeSolarRadius (searchState s)))
| appended_by_batch (now now' : R) (eventId : string) (s : Sim)
    (ct : CalcTarget) (ev : FoundEvent) :
    calcTarget s = Some ct ->
    appended s (runCalculationBatch Astronomy settings celestialBodies now
                  now' eventId s) ev ->
    AppendedEvent Astronomy settings celestialBodies ev
      (ct_tolerance ct) (ct_strictMode ct) (ct_solarRadius ct).

Lemma app_tail_neq {A} (l : list A) (x : A) : l <> l ++ [x].
Proof.
  intros H. apply (f_equal (@List.length A)) in H.
  rewrite length_app in H. cbn in H. lia.
Qed.

(** C1, as amended.  For every event appended to the history:
    [startDate <= optimalDate <= endDate]; when the search is an alignment
    search, [checkSpecificAlignment] with the captured tolerance holds at
    [optimalDate]; when it is a transit search, every target is at
    [optimalDate] within the captured effective tolerance (the solar radius
    in strict mode) of the direction of the Sun, which is the angular
    condition of [isTransit]. *)
Theorem foundEvent_invariant
  (Astronomy : option Engine) (settings : AppSettings)
  (celestialBodies : list PlanetData) (ev : FoundEvent)
  (tolerance : R) (strict : bool) (solarRadius : R) :
  AppendedEvent Astronomy settings celestialBodies ev tolerance strict
    solarRadius ->
  eventInvariant Astronomy (useHighPrecision settings) celestialBodies
    tolerance strict solarRadius ev.
Proof.
  intros Happ. destruct Happ as [time now eventId s ev Hev
                                | now now' eventId s ct ev Hct Hev].
  - unfold appended in Hev.
    destruct (animate_foundEvents Astronomy settings celestialBodies time now
                eventId s) as [Hsame | (ty & center & Hty & Hdet & Happ)].
    + cbv zeta in Hsame. rewrite Hsame in Hev.
      now apply app_tail_neq in Hev.
    + cbv zeta in Happ. rewrite Happ in Hev.
      apply app_inj_tail in Hev. destruct Hev as [_ <-].
      apply eventAt_invariant. now apply detects_eventCheck.
  - unfold appended in Hev.
    destruct (runCalculationBatch_cases Astronomy settings celestialBodies
                now now' eventId s ct Hct)
      as [(Hsame & _) | (ts & Hdet & Happ & _)].
    + rewrite Hsame in Hev. now apply app_tail_neq in Hev.
    + rewrite Happ in Hev.
      apply app_inj_tail in Hev. destruct Hev as [_ <-].
      apply eventAt_invariant. now apply detects_eventCheck.
Qed.

(** *** Continuous iteration *)

Lemma getTime_newDate_IZR (z : Z) : JS.getTime (JS.newDate (IZR z)) = IZR z.
Proof.
  change (IZR z) with (JS.getTime z) at 1. now rewrite newDate_getTime.
Qed.

Lemma MILLISECONDS_PER_DAY_IZR : MILLISECONDS_PER_DAY = IZR 86400000.
Proof. reflexivity. Qed.

(** The window of an event starts and ends on whole milliseconds, a whole
    number of days from the date the event was found on; so does the
    position the scan is moved to. *)
Lemma eventAt_pastWindow_integral
  Astronomy settings celestialBodies eventId ty targets tolerance strict
  solarRadius strictField (center : JS.Date) (dir : Direction) :
  let ev := eventAt Astronomy settings celestialBodies eventId ty targets
              tolerance strict solarRadius strictField center in
  JS.getTime (JS.newDate (pastWindow dir ev)) = pastWindow dir ev.
Proof.
  intros ev. subst ev. unfold pastWindow, eventAt.
  cbn [fe_startDate fe_endDate].
  destruct (calculateEventDuration_days Astronomy center ty targets tolerance
              (useHighPrecision settings) strict solarRadius celestialBodies)
    as (ks & ke & _ & _ & _ & Hwin & _).
  cbv zeta in Hwin. rewrite Hwin. cbn [fst snd].
  unfold JS.getTime at 2 4. rewrite !INR_IZR_INZ, MILLISECONDS_PER_DAY_IZR.
  destruct dir.
  - rewrite <- mult_IZR, <- !plus_IZR. apply getTime_newDate_IZR.
  - rewrite <- mult_IZR, <- !minus_IZR. apply getTime_newDate_IZR.
Qed.

(** X28.  With continuous iteration enabled, a frame of an active search
    (and a batch of a calculation) either finds nothing and leaves the
    search running, whatever span it has covered, or appends the found
    event and moves the scan one day past its window, past [end] when
    scanning forward and before [start] when scanning backward; a batch
    scans in the direction its callback captured.  The caps are tested at
    that moment and only then: when the history has reached 50 events or
    the end of the window is 2000 years of 365 days from the search start,
    the search is deactivated and marked completed; otherwise it stays
    active.  A batch at the cap has still moved its scan position and
    scheduled one more batch, and its target is cleared.  A deactivated
    search scans nothing: a frame leaves the date and the history as they
    are, and a batch that finds the target cleared does nothing. *)
Theorem continuous_search_step
  (Astronomy : option Engine) (settings : AppSettings)
  (celestialBodies : list PlanetData) (time now now' : R) (eventId : string)
  (s : Sim) :
  continuousIteration settings = true ->
  let ss := searchState s in
  let frame := animate Astronomy settings celestialBodies time now eventId s in
  let batch := runCalculationBatch Astronomy settings celestialBodies now now'
                 eventId s in
  (forall ty,
     JS.eqb (lastFrameTime s) 0 = false -> isCalculating ss = false ->
     active ss = true -> type ss = Some ty -> continuousPaused ss = false ->
     (foundEvents (searchState frame) = foundEvents ss
      /\ active (searchState frame) = true
      /\ completed (searchState frame) = completed ss)
     \/ (exists ev,
           appended s frame ev
           /\ JS.getTime (currentDate frame) = pastWindow (timeDirection s) ev
           /\ if capReached (foundEvents (searchState frame)) (fe_endDate ev)
                   (searchStartTime ss)
              then active (searchState frame) = false
                   /\ completed (searchState frame) = true
                   /\ status (searchState frame) = StatusCompleted
              else active (searchState frame) = true
                   /\ completed (searchState frame) = completed ss
                   /\ status (searchState frame) = StatusContinuing))
  /\ (forall ct,
        calcTarget s = Some ct ->
        (foundEvents (searchState batch) = foundEvents ss
         /\ completed (searchState batch) = completed ss
         /\ isCalculating (searchState batch) = isCalculating ss
         /\ (exists ct', calcTarget batch = Some ct')
         /\ batchPending batch
            = negb (continuousPaused ss || negb (isCalculating ss)))
        \/ (exists ev,
              appended s batch ev
              /\ calcDate batch = pastWindow (batchDirection s) ev
              /\ batchPending batch = true
              /\ if capReached (foundEvents (searchState batch))
                      (fe_endDate ev) (searchStartTime ss)
                 then calcTarget batch = None
                      /\ isCalculating (searchState batch) = false
                      /\ completed (searchState batch) = true
                 else (exists ct', calcTarget batch = Some ct')
                      /\ isCalculating (searchState batch) = isCalculating ss
                      /\ completed (searchState batch) = completed ss))
  /\ (active ss = false -> isPlaying s = false ->
      currentDate frame = currentDate s
      /\ foundEvents (searchState frame) = foundEvents ss
      /\ active (searchState frame) = false)
  /\ (calcTarget s = None -> batch = set_batchPending false s).
Proof.
  intros Hcont ss frame batch. split; [| split; [| split]].
  - intros ty Hframe Hcalc Hact Hty Hpause.
    destruct (animate_active Astronomy settings celestialBodies time now
                eventId s ty Hframe Hcalc Hact Hty Hpause)
      as (s2 & Hanim & Hev2 & Hact2 & Hcomp2 & Hsst2).
    subst frame. rewrite Hanim.
    destruct (searchTick_cases Astronomy settings celestialBodies ty eventId
                s s2)
      as [(Hev & Ha & Hc) | (center & Hdet & Hfound)].
    + left. rewrite Hev, Ha, Hc, Hev2, Hact2, Hcomp2. auto.
    + right. cbv zeta in Hfound.
      destruct Hfound as (Hev & Hsst & Hc & _).
      destruct (Hc Hcont) as [Hdate Hcap]. clear Hc.
      eexists. split; [unfold appended; rewrite Hev, Hev2; reflexivity |].
      split.
      * rewrite Hdate. apply eventAt_pastWindow_integral.
      * rewrite Hev. rewrite Hev2, Hsst2, Hact2, Hcomp2 in Hcap.
        fold ss. rewrite Hev2. fold ss in Hcap. exact Hcap.
  - intros ct Hct. subst batch.
    destruct (runCalculationBatch_cases Astronomy settings celestialBodies
                now now' eventId s ct Hct)
      as [(Hev & Hc & Hi & Ht & Hb) | (ts & Hdet & Hfound)].
    + left. fold ss in Hev, Hc, Hi, Hb.
      split; [exact Hev |]. split; [exact Hc |]. split; [exact Hi |].
      split; [| exact Hb].
      match goal with
      | |- exists _, ?x = _ =>
          destruct x as [ct' |]; [exists ct'; reflexivity | congruence]
      end.
    + right. cbv zeta in Hfound.
      destruct Hfound as (Hev & Hsst & Hc & _).
      destruct (Hc Hcont) as (Hd & Hb & Hcap). clear Hc.
      fold ss in Hev, Hsst, Hcap.
      eexists. split; [exact Hev |].
      split; [exact Hd |]. split; [exact Hb |].
      rewrite Hev. destruct (capReached _ _ _); [exact Hcap |].
      destruct Hcap as (Ht & Hi & Hcm).
      split; [| split; [exact Hi | exact Hcm]].
      match goal with
      | |- exists _, ?x = _ =>
          destruct x as [ct' |]; [exists ct'; reflexivity | congruence]
      end.
  - intros Hact Hplay.
    destruct (animate_idle Astronomy settings celestialBodies time now
                eventId s Hact Hplay) as (H1 & H2 & H3 & _).
    auto.
  - intros Hct. now apply runCalculationBatch_idle.
Qed.

(** *** Concrete runs *)

Lemma ltb_irrefl (x : R) : JS.ltb x x = false.
Proof. apply ltb_false. lra. Qed.

(** A body the catalog places at the Sun is never in transit: it is not
    nearer than the Sun. *)
Lemma isTransit_at_sun
  (Astronomy : option Engine) (planetName : string) (date : JS.Date)
  (toleranceDeg : R) (useHighPrecision strictMode : bool)
  (solarRadiusDeg : R) (allBodies : list PlanetData) :
  getPositionHelper Astronomy planetName date useHighPrecision allBodies
  = origin ->
  isTransit Astronomy planetName date toleranceDeg useHighPrecision strictMode
    solarRadiusDeg allBodies = false.
Proof.
  intros Hpos. rewrite isTransit_split. unfold nearerThanSun. cbv zeta.
  rewrite Hpos, ltb_irrefl. apply andb_false_r.
Qed.

Lemma atan2_0_0 : JS.atan2 0 0 = 0.
Proof.
  unfold JS.atan2.
  destruct (Rlt_dec 0 0) as [H | _]; [lra | reflexivity].
Qed.

(** The longitude of a body seen from its own place is 0. *)
Lemma getEclipticLongitude_same (p : Position) :
  getEclipticLongitude (subtractVectors p p) = 0.
Proof.
  unfold getEclipticLongitude, subtractVectors. cbn [px py].
  rewrite !Rminus_diag, atan2_0_0, Rmult_0_l. now rewrite ltb_irrefl.
Qed.

(** Two targets that the catalog does not hold, seen from an Earth that it
    does not hold either, are aligned within every tolerance from 0 on. *)
Lemma checkSpecificAlignment_unknown_pair
  (date : JS.Date) (toleranceDeg : R) :
  0 <= toleranceDeg ->
  checkSpecificAlignment None date (Some ["nibiru"; "vulcan"]%string)
    toleranceDeg false [] = true.
Proof.
  intros Htol. unfold checkSpecificAlignment, targetLongitudes.
  cbn [List.length Nat.ltb Nat.leb map].
  change (getPositionHelper None "earth" date false []) with origin.
  change (getPositionHelper None "nibiru" date false []) with origin.
  change (getPositionHelper None "vulcan" date false []) with origin.
  rewrite getEclipticLongitude_same. cbn [sortNum insertNum].
  assert (H00 : JS.leb 0 0 = true) by (apply leb_true; lra).
  rewrite H00. unfold spanOfSorted. cbn [maxGapLoop last hd].
  rewrite Rminus_diag, ltb_irrefl.
  assert (H360 : JS.ltb 0 (360 - 0) = true) by (apply ltb_true; lra).
  rewrite H360. apply leb_true. lra.
Qed.

Lemma newDate_add (d k : Z) : JS.newDate (JS.getTime d + IZR k) = (d + k)%Z.
Proof.
  unfold JS.getTime. rewrite <- plus_IZR.
  change (IZR (d + k)) with (JS.getTime (d + k)%Z). apply newDate_getTime.
Qed.

(** A scan loop whose detection test fails on every date runs all its
    passes. *)
Lemma searchLoop_never detect guard key (k : Z) n (d : JS.Date) :
  (forall d', detect d' = false) ->
  searchLoop detect guard key (IZR k) n d
  = ((d + Z.of_nat n * k)%Z, false).
Proof.
  intros Hnever. revert d; induction n as [| n IH]; intro d.
  - cbn [searchLoop]. f_equal. lia.
  - cbn [searchLoop]. rewrite newDate_add, Hnever, IH.
    destruct (guardSkips _ _ _); f_equal; lia.
Qed.

(** A scan loop whose detection test succeeds on the first date, outside
    any guard, leaves on it. *)
Lemma searchLoop_first detect key (k : Z) n (d : JS.Date) :
  detect (d + k)%Z = true ->
  searchLoop detect None key (IZR k) (S n) d = ((d + k)%Z, true).
Proof.
  intros Hfirst. cbn [searchLoop guardSkips]. now rewrite newDate_add, Hfirst.
Qed.

Lemma forward_step : dirSign Forward * MILLISECONDS_PER_DAY = IZR 86400000.
Proof. unfold dirSign, MILLISECONDS_PER_DAY. lra. Qed.

Lemma eqb_17_0 : JS.eqb 17 0 = false.
Proof. apply eqb_false. lra. Qed.

(** Continuous iteration on, everything else off. *)
Definition loopSettings : AppSettings :=
  mkSettings false true false true 0 0 false false.

(** An interactive search under way: started at time 0, at low speed,
    scanning forward, nothing found yet; [d] is the date reached, [el] the
    elapsed time, [st] the status line, [lrt] the clock last read. *)
Definition scanning
  (ty : EventType) (ids : list string) (d : JS.Date) (el : R) (st : Status)
  (lrt : R) : Sim :=
  mkSim d false 1 Forward None
    (mkSearch true (Some ty) (Some ids) st low 1 None (Some false) false None
       0 el 0 None None None None false [] 0 false)
    17 lrt None 0 0 None false false Forward.

Lemma detects_vulcan_transit (d : JS.Date) :
  detects None loopSettings [] TRANSIT ["vulcan"%string] 1 false
    DEFAULT_SUN_ANGULAR_RADIUS_DEG d = false.
Proof.
  unfold detects. cbn [List.length Nat.ltb Nat.leb forallb andb].
  rewrite isTransit_at_sun; reflexivity.
Qed.

(** A frame of the search for a transit of [vulcan], which the catalog does
    not hold: four more days are scanned and the search goes on. *)
Lemma animate_vulcan (d : JS.Date) (el : R) (st : Status) (lrt : R) :
  animate None loopSettings [] 17 1 "e"
    (scanning TRANSIT ["vulcan"%string] d el st lrt)
  = scanning TRANSIT ["vulcan"%string] (d + 4 * 86400000)%Z
      (el + (1 - lrt)) (StatusSearching (d + 4 * 86400000)%Z) 1.
Proof.
  unfold animate, scanning. state_eval. rewrite eqb_17_0.
  unfold searchTick. state_eval.
  change (sortStr ["vulcan"%string]) with ["vulcan"%string].
  change (radiusOrDefault None) with DEFAULT_SUN_ANGULAR_RADIUS_DEG.
  change (truthy (Some false)) with false.
  rewrite forward_step.
  rewrite (searchLoop_never _ _ _ _ 4 d detects_vulcan_transit).
  reflexivity.
Qed.

Lemma detects_unknown_pair (d : JS.Date) :
  detects None loopSettings [] PLANETARY_ALIGNMENT ["nibiru"; "vulcan"]%string
    1 false DEFAULT_SUN_ANGULAR_RADIUS_DEG d = true.
Proof.
  unfold detects. cbn [List.length Nat.leb andb].
  apply checkSpecificAlignment_unknown_pair. lra.
Qed.

(** The event found by the first frame of an alignment search for two
    bodies that the catalog does not hold. *)
Definition firstEvent : FoundEvent :=
  eventAt None loopSettings [] "e" PLANETARY_ALIGNMENT
    ["nibiru"; "vulcan"]%string 1 false DEFAULT_SUN_ANGULAR_RADIUS_DEG
    (Some false) 86400000%Z.

Lemma animate_unknown_pair_appends :
  appended
    (scanning PLANETARY_ALIGNMENT ["nibiru"; "vulcan"]%string 0%Z 0
       StatusStarting 0)
    (animate None loopSettings [] 17 1 "e"
       (scanning PLANETARY_ALIGNMENT ["nibiru"; "vulcan"]%string 0%Z 0
          StatusStarting 0))
    firstEvent.
Proof.
  unfold appended, firstEvent, animate, scanning. state_eval.
  rewrite eqb_17_0. unfold searchTick. state_eval.
  change (sortStr ["nibiru"; "vulcan"]%string)
    with ["nibiru"; "vulcan"]%string.
  change (radiusOrDefault None) with DEFAULT_SUN_ANGULAR_RADIUS_DEG.
  change (truthy (Some false)) with false.
  rewrite forward_step.
  rewrite (searchLoop_first _ _ 86400000 3 0%Z (detects_unknown_pair _)).
  change (continuousIteration loopSettings) with true. cbv iota.
  state_eval.
  destruct (capReached _ _ _); reflexivity.
Qed.

(** The invariant for that event. *)
Lemma foundEvent_invariant_witness :
  AppendedEvent None loopSettings [] firstEvent 1 false
    DEFAULT_SUN_ANGULAR_RADIUS_DEG
  /\ eventInvariant None (useHighPrecision loopSettings) [] 1 false
       DEFAULT_SUN_ANGULAR_RADIUS_DEG firstEvent.
Proof.
  assert (Happ : AppendedEvent None loopSettings [] firstEvent 1 false
                   DEFAULT_SUN_ANGULAR_RADIUS_DEG).
  { exact (appended_by_frame None loopSettings [] 17 1 "e"
             (scanning PLANETARY_ALIGNMENT ["nibiru"; "vulcan"]%string 0%Z 0
                StatusStarting 0)
             firstEvent animate_unknown_pair_appends). }
  split; [exact Happ |].
  exact (foundEvent_invariant None loopSettings [] firstEvent 1 false
           DEFAULT_SUN_ANGULAR_RADIUS_DEG Happ).
Defined.

(** Continuous iteration on that frame: the event is appended and the scan
    is moved one day past its window. *)
Lemma continuous_search_step_witness :
  continuousIteration loopSettings = true
  /\ exists ev,
       appended
         (scanning PLANETARY_ALIGNMENT ["nibiru"; "vulcan"]%string 0%Z 0
            StatusStarting 0)
         (animate None loopSettings [] 17 1 "e"
            (scanning PLANETARY_ALIGNMENT ["nibiru"; "vulcan"]%string 0%Z 0
               StatusStarting 0))
         ev
       /\ JS.getTime
            (currentDate
               (animate None loopSettings [] 17 1 "e"
                  (scanning PLANETARY_ALIGNMENT ["nibiru"; "vulcan"]%string
                     0%Z 0 StatusStarting 0)))
          = pastWindow Forward ev.
Proof.
  split; [reflexivity |].
  destruct (continuous_search_step None loopSettings [] 17 1 1 "e"
              (scanning PLANETARY_ALIGNMENT ["nibiru"; "vulcan"]%string 0%Z 0
                 StatusStarting 0) eq_refl) as (Hframe & _).
  destruct (Hframe PLANETARY_ALIGNMENT eqb_17_0 eq_refl eq_refl eq_refl
              eq_refl) as [(Hsame & _) | (ev & Hev & Hdate & _)].
  - exfalso. pose proof animate_unknown_pair_appends as Happ.
    unfold appended in Happ. rewrite Hsame in Happ.
    now apply app_tail_neq in Happ.
  - exists ev. split; assumption.
Defined.

(** * Further properties *)

(** ** Angles *)

Lemma truncZ_bounds (x : R) :
  (0 <= x -> 0 <= x - IZR (JS.truncZ x) < 1)
  /\ (x < 0 -> -1 < x - IZR (JS.truncZ x) <= 0).
Proof.
  unfold JS.truncZ. split; intros Hx.
  - destruct (Rle_dec 0 x) as [_ | H]; [| lra].
    destruct (base_Int_part x). lra.
  - destruct (Rle_dec 0 x) as [H | _]; [lra |].
    rewrite opp_IZR. destruct (base_Int_part (- x)). lra.
Qed.

Lemma normalizeAngle_bounds (deg : R) : 0 <= normalizeAngle deg < 360.
Proof.
  unfold normalizeAngle, JS.rem. cbv zeta.
  set (q := JS.truncZ (deg / 360)).
  destruct (truncZ_bounds (deg / 360)) as [Hpos Hneg]. fold q in Hpos, Hneg.
  assert (Hdeg : deg = 360 * (deg / 360)) by field.
  js_case (JS.ltb (deg - 360 * IZR q) 0);
    (destruct (Rle_or_lt 0 (deg / 360)) as [H | H];
     [specialize (Hpos H) | specialize (Hneg H)]; lra).
Qed.

(** X1.  [normalizeAngle] returns an angle from 0 to 360 and leaves an
    angle that is already in [0, 360) as it is.  (Computed exactly the
    result is below 360; the code reaches 360 itself when the sum
    [res + 360] is rounded up.) *)
Theorem normalizeAngle_range (deg : R) :
  0 <= normalizeAngle deg <= 360
  /\ (0 <= deg < 360 -> normalizeAngle deg = deg).
Proof.
  split.
  - destruct (normalizeAngle_bounds deg). lra.
  - intros Hdeg. unfold normalizeAngle, JS.rem. cbv zeta.
    assert (Hq : JS.truncZ (deg / 360) = 0%Z).
    { unfold JS.truncZ.
      destruct (Rle_dec 0 (deg / 360)) as [_ | H].
      - symmetry. apply Int_part_spec.
        assert (deg / 360 < 1).
        { apply Rmult_lt_reg_r with 360; [lra |].
          unfold Rdiv. rewrite Rmult_assoc, Rinv_l by lra. lra. }
        assert (0 <= deg / 360).
        { apply Rmult_le_reg_r with 360; [lra |].
          unfold Rdiv. rewrite Rmult_assoc, Rinv_l by lra. lra. }
        lra.
      - exfalso. apply H. apply Rmult_le_reg_r with 360; [lra |].
        unfold Rdiv. rewrite Rmult_assoc, Rinv_l by lra. lra. }
    rewrite Hq.
    js_case (JS.ltb (deg - 360 * 0) 0); lra.
Qed.

Lemma atan2_bound (y x : R) : - PI < JS.atan2 y x <= PI.
Proof.
  pose proof PI_RGT_0 as Hpi. unfold JS.atan2.
  destruct (Rlt_dec 0 x) as [Hx | Hx].
  - pose proof (atan_bound (y / x)). lra.
  - destruct (Rlt_dec x 0) as [Hx' | Hx'].
    + destruct (Rle_dec 0 y) as [Hy | Hy].
      * assert (Ht : y / x <= 0).
        { replace (y / x) with (- (y * / (- x))) by (field; lra).
          assert (0 < / (- x)) by (apply Rinv_0_lt_compat; lra).
          assert (0 <= y * / (- x)) by (apply Rmult_le_pos; lra).
          lra. }
        assert (atan (y / x) <= 0).
        { destruct Ht as [Ht | Ht].
          - left. rewrite <- atan_0. now apply atan_increasing.
          - rewrite Ht, atan_0. lra. }
        pose proof (atan_bound (y / x)). lra.
      * assert (Ht : 0 < y / x).
        { replace (y / x) with ((- y) * / (- x)) by (field; lra).
          apply Rmult_lt_0_compat; [lra |].
          apply Rinv_0_lt_compat. lra. }
        assert (0 < atan (y / x))
          by (rewrite <- atan_0; now apply atan_increasing).
        pose proof (atan_bound (y / x)). lra.
    + destruct (Rlt_dec 0 y); [lra |].
      destruct (Rlt_dec y 0); lra.
Qed.

Lemma getEclipticLongitude_bounds (vec : Position) :
  0 <= getEclipticLongitude vec < 360.
Proof.
  unfold getEclipticLongitude. cbv zeta.
  pose proof PI_RGT_0 as Hpi.
  pose proof (atan2_bound (py vec) (px vec)) as [Hlo Hhi].
  set (v := JS.atan2 (py vec) (px vec)) in *.
  assert (Hk : 0 < 180 / PI) by (apply Rdiv_lt_0_compat; lra).
  assert (H1 : v * (180 / PI) <= 180).
  { replace 180 with (PI * (180 / PI)) at 2 by (field; lra).
    apply Rmult_le_compat_r; lra. }
  assert (H2 : - 180 < v * (180 / PI)).
  { replace (- 180) with (- PI * (180 / PI)) by (field; lra).
    apply Rmult_lt_compat_r; lra. }
  js_case (JS.ltb (v * (180 / PI)) 0); lra.
Qed.

(** X2.  The ecliptic longitude of every vector is an angle from 0 to 360,
    and a vector along the positive x axis has longitude 0.  (Computed
    exactly the longitude is below 360; the code reaches 360 itself when
    the sum [angle + 360] is rounded up.) *)
Theorem getEclipticLongitude_range (vec : Position) (x : R) :
  0 <= getEclipticLongitude vec <= 360
  /\ (0 < x -> getEclipticLongitude (mkPos x 0 0) = 0).
Proof.
  split; [destruct (getEclipticLongitude_bounds vec); lra |].
  intros Hx. unfold getEclipticLongitude, JS.atan2. cbn [px py].
  destruct (Rlt_dec 0 x) as [_ | H]; [| contradiction].
  replace (0 / x) with 0 by (field; lra).
  rewrite atan_0, Rmult_0_l. now rewrite ltb_irrefl.
Qed.

(** X3.  The angle between two vectors does not depend on their order, lies
    between 0 and pi, and is 0 when one of them has no length. *)
Theorem angleBetweenVectors3D_symmetric (v1 v2 : Position) :
  angleBetweenVectors3D v1 v2 = angleBetweenVectors3D v2 v1
  /\ 0 <= angleBetweenVectors3D v1 v2 <= PI
  /\ angleBetweenVectors3D origin v2 = 0.
Proof.
  split; [| split].
  - unfold angleBetweenVectors3D. cbv zeta.
    rewrite (orb_comm (JS.eqb (magnitude v1) 0)).
    rewrite (Rmult_comm (magnitude v1)).
    replace (px v1 * px v2 + py v1 * py v2 + pz v1 * pz v2)
      with (px v2 * px v1 + py v2 * py v1 + pz v2 * pz v1) by ring.
    reflexivity.
  - apply angleBetweenVectors3D_bound.
  - unfold angleBetweenVectors3D, magnitude, origin. cbn [px py pz].
    replace (0 * 0 + 0 * 0 + 0 * 0) with 0 by ring. rewrite sqrt_0.
    assert (H : JS.eqb 0 0 = true) by now apply eqb_true.
    now rewrite H.
Qed.

(** ** The detectors *)

(** X4.  Raising the tolerance can only turn a detection on: for the alignment
    test and, outside strict mode, for the transit test; in strict mode the
    transit test does not read the tolerance. *)
Theorem detectors_monotone_in_tolerance
  (Astronomy : option Engine) (date : JS.Date) (planetName : string)
  (targetIds : option (list string)) (tol1 tol2 : R)
  (useHighPrecision : bool) (solarRadiusDeg : R)
  (allBodies : list PlanetData) :
  tol1 <= tol2 ->
  (isTransit Astronomy planetName date tol1 useHighPrecision false
     solarRadiusDeg allBodies = true ->
   isTransit Astronomy planetName date tol2 useHighPrecision false
     solarRadiusDeg allBodies = true)
  /\ isTransit Astronomy planetName date tol1 useHighPrecision true
       solarRadiusDeg allBodies
     = isTransit Astronomy planetName date tol2 useHighPrecision true
         solarRadiusDeg allBodies
  /\ (checkSpecificAlignment Astronomy date targetIds tol1 useHighPrecision
        allBodies = true ->
      checkSpecificAlignment Astronomy date targetIds tol2 useHighPrecision
        allBodies = true).
Proof.
  intros Hle. split; [| split].
  - rewrite !isTransit_split. intros H. apply andb_prop in H.
    destruct H as [Ha Hn]. apply leb_true in Ha. rewrite Hn, andb_true_r.
    apply leb_true. lra.
  - reflexivity.
  - unfold checkSpecificAlignment. destruct targetIds as [ids |]; [| auto].
    destruct (List.length ids <? 2)%nat; [auto |].
    intros H. apply leb_true in H. apply leb_true. lra.
Qed.

Lemma detectors_monotone_in_tolerance_witness :
  1 <= 2
  /\ (checkSpecificAlignment None 0%Z (Some ["nibiru"; "vulcan"]%string) 1
        false [] = true ->
      checkSpecificAlignment None 0%Z (Some ["nibiru"; "vulcan"]%string) 2
        false [] = true).
Proof.
  split; [lra |].
  apply (detectors_monotone_in_tolerance None 0%Z "mars"
           (Some ["nibiru"; "vulcan"]%string) 1 2 false 0 []).
  lra.
Defined.

(** The lookup of a body the catalog does not hold. *)
Definition absent (id : string) (allBodies : list PlanetData) : Prop :=
  find (fun x => String.eqb (pl_id x) id) allBodies = None.

Lemma getPositionHelper_absent Astronomy id date hp allBodies :
  id = "sun"%string \/ absent id allBodies ->
  getPositionHelper Astronomy id date hp allBodies = origin.
Proof.
  unfold getPositionHelper, absent. intros [-> | Habs]; [reflexivity |].
  rewrite Habs. now destruct (String.eqb id "sun").
Qed.

(** X5.  A target that is the Sun, or that the catalog does not hold, is placed
    at the Sun and is never in transit, whatever the tolerance. *)
Theorem isTransit_absent_body
  (Astronomy : option Engine) (planetName : string) (date : JS.Date)
  (toleranceDeg : R) (useHighPrecision strictMode : bool)
  (solarRadiusDeg : R) (allBodies : list PlanetData) :
  planetName = "sun"%string \/ absent planetName allBodies ->
  isTransit Astronomy planetName date toleranceDeg useHighPrecision strictMode
    solarRadiusDeg allBodies = false.
Proof.
  intros H. apply isTransit_at_sun. now apply getPositionHelper_absent.
Qed.

Lemma isTransit_absent_body_witness :
  ("vulcan"%string = "sun"%string \/ absent "vulcan" [])
  /\ isTransit None "vulcan" 0%Z 10 false false 0 [] = false.
Proof.
  assert (H : "vulcan"%string = "sun"%string \/ absent "vulcan" [])
    by (right; reflexivity).
  split; [exact H |].
  exact (isTransit_absent_body None "vulcan" 0%Z 10 false false 0 [] H).
Defined.

Lemma sortNum_repeat (x : R) (n : nat) : sortNum (repeat x n) = repeat x n.
Proof.
  induction n as [| n IH]; [reflexivity |].
  cbn [repeat sortNum]. rewrite IH. destruct n as [| n]; [reflexivity |].
  cbn [repeat insertNum].
  assert (H : JS.leb x x = true) by (apply leb_true; lra). now rewrite H.
Qed.

Lemma maxGapLoop_repeat (x : R) (n : nat) : maxGapLoop (repeat x n) 0 = 0.
Proof.
  induction n as [| n IH]; [reflexivity |].
  destruct n as [| n]; [reflexivity |].
  change (repeat x (S (S n))) with (x :: repeat x (S n)).
  change (repeat x (S n)) with (x :: repeat x n) at 1.
  cbn [maxGapLoop]. rewrite Rminus_diag, ltb_irrefl. exact IH.
Qed.

Lemma last_repeat (x d : R) (n : nat) : last (repeat x (S n)) d = x.
Proof.
  induction n as [| n IH]; [reflexivity |].
  change (repeat x (S (S n))) with (x :: repeat x (S n)).
  change (repeat x (S n)) with (x :: repeat x n) at 1.
  cbn [last]. exact IH.
Qed.

Lemma map_constant {A B} (f : A -> B) (b : B) (l : list A) :
  (forall a, In a l -> f a = b) -> map f l = repeat b (List.length l).
Proof.
  induction l as [| a l IH]; intros H; [reflexivity |].
  cbn [map List.length repeat]. rewrite (H a (or_introl eq_refl)).
  f_equal. apply IH. intros a' Ha'. apply H. now right.
Qed.

(** X6.  Two or more targets, each of them the Sun or absent from the catalog,
    are all placed at the Sun: they share one longitude and count as
    aligned within any tolerance from 0 on, on every date. *)
Theorem checkSpecificAlignment_absent_bodies
  (Astronomy : option Engine) (date : JS.Date) (ids : list string)
  (toleranceDeg : R) (useHighPrecision : bool)
  (allBodies : list PlanetData) :
  (2 <= List.length ids)%nat ->
  (forall id, In id ids -> id = "sun"%string \/ absent id allBodies) ->
  0 <= toleranceDeg ->
  checkSpecificAlignment Astronomy date (Some ids) toleranceDeg
    useHighPrecision allBodies = true.
Proof.
  intros Hlen Habs Htol. unfold checkSpecificAlignment.
  destruct (Nat.ltb_spec (List.length ids) 2) as [H | _]; [lia |].
  unfold targetLongitudes.
  set (posEarth := getPositionHelper Astronomy "earth" date useHighPrecision
                     allBodies).
  rewrite (map_constant _
             (getEclipticLongitude (subtractVectors origin posEarth))).
  2:{ intros id Hid. cbv beta zeta.
      now rewrite (getPositionHelper_absent _ _ _ _ _ (Habs id Hid)). }
  rewrite sortNum_repeat. unfold spanOfSorted.
  rewrite maxGapLoop_repeat.
  destruct (List.length ids) as [| [| n]]; try lia.
  rewrite last_repeat. cbn [repeat hd]. rewrite Rminus_diag.
  assert (H360 : JS.ltb 0 (360 - 0) = true) by (apply ltb_true; lra).
  rewrite H360. apply leb_true. lra.
Qed.

Lemma checkSpecificAlignment_absent_bodies_witness :
  (2 <= List.length ["nibiru"; "vulcan"]%string)%nat
  /\ 0 <= 1
  /\ checkSpecificAlignment None 0%Z (Some ["nibiru"; "vulcan"]%string) 1
       false [] = true.
Proof.
  split; [cbn; lia |]. split; [lra |].
  apply (checkSpecificAlignment_absent_bodies None 0%Z
           ["nibiru"; "vulcan"]%string 1 false []).
  - cbn. lia.
  - intros id _. right. reflexivity.
  - lra.
Defined.

(** ** The alignment metric *)

Lemma maxGapLoop_le (bound : R) (l : list R) (acc : R) :
  acc <= bound ->
  (forall a b, In a l -> In b l -> b - a <= bound) ->
  maxGapLoop l acc <= bound.
Proof.
  revert acc; induction l as [| a tl IH]; intros acc Hacc Hl;
    cbn [maxGapLoop]; [exact Hacc |].
  destruct tl as [| b tl']; [exact Hacc |].
  apply IH.
  - js_case (JS.ltb acc (b - a)); [| exact Hacc].
    apply Hl; [now left | right; now left].
  - intros x y Hx Hy. apply Hl; now right.
Qed.

Lemma sorted_hd_le_last (l : list R) (d : R) :
  StronglySorted Rle l -> l <> [] -> hd d l <= last l d.
Proof.
  intros Hs Hne. destruct l as [| a tl]; [contradiction |].
  cbn [hd]. inversion Hs as [| ? ? _ Hall]; subst.
  destruct tl as [| b tl']; [cbn; lra |].
  rewrite Forall_forall in Hall. apply Hall.
  assert (Hne' : b :: tl' <> []) by discriminate.
  pose proof (@exists_last _ (b :: tl') Hne') as (l' & x & Heq).
  change (last (a :: b :: tl') d) with (last (b :: tl') d).
  rewrite Heq, last_last. apply in_or_app. right. now left.
Qed.

Lemma getAlignmentMetric_bounds
  (Astronomy : option Engine) (date : JS.Date) (targetIds : list string)
  (useHighPrecision : bool) (allBodies : list PlanetData) :
  0 <= getAlignmentMetric Astronomy date TRANSIT targetIds useHighPrecision
         allBodies <= 180
  /\ 0 <= getAlignmentMetric Astronomy date PLANETARY_ALIGNMENT targetIds
            useHighPrecision allBodies <= 360.
Proof.
  split.
  - split.
    + unfold getAlignmentMetric. cbv zeta.
      set (f := fun (maxDiff : R) (id : string) => _).
      assert (H : forall l acc, 0 <= acc -> 0 <= fold_left f l acc).
      { induction l as [| x l IH]; intros acc Hacc; cbn [fold_left];
          [exact Hacc |].
        apply IH. unfold f.
        match goal with |- context [JS.ltb ?a ?b] => js_case (JS.ltb a b) end;
          lra. }
      apply H. lra.
    + apply transit_metric_le; [lra |]. intros id _.
      unfold transitAngleDeg.
      apply angle_degrees_bound, angleBetweenVectors3D_bound.
  - split; [| apply getAlignmentMetric_bound].
    unfold getAlignmentMetric. cbv zeta.
    destruct (List.length targetIds <? 2)%nat eqn:Hlen; [lra |].
    apply Nat.ltb_ge in Hlen.
    set (posEarth := getPositionHelper Astronomy "earth" date useHighPrecision
                       allBodies).
    set (longs := targetLongitudes Astronomy date targetIds useHighPrecision
                    allBodies posEarth).
    assert (Hrange : forall x, In x (sortNum longs) -> 0 <= x < 360).
    { intros x Hx.
      apply (Permutation_in _ (sortNum_perm longs)) in Hx.
      unfold longs, targetLongitudes in Hx. apply in_map_iff in Hx.
      destruct Hx as (id & <- & _). apply getEclipticLongitude_bounds. }
    assert (Hne : sortNum longs <> []).
    { intros Hnil.
      pose proof (Permutation_length (sortNum_perm longs)) as Hl.
      rewrite Hnil in Hl. unfold longs, targetLongitudes in Hl.
      rewrite length_map in Hl. cbn in Hl. lia. }
    unfold spanOfSorted.
    pose proof (maxGapLoop_le 360 (sortNum longs) 0 ltac:(lra)) as Hgap.
    assert (Hmax : maxGapLoop (sortNum longs) 0 <= 360).
    { apply Hgap. intros a b Ha Hb.
      destruct (Hrange a Ha), (Hrange b Hb). lra. }
    pose proof (sorted_hd_le_last (sortNum longs) 0 (sortNum_sorted longs) Hne).
    match goal with |- context [JS.ltb ?a ?b] => js_case (JS.ltb a b) end;
      lra.
Qed.

(** X7.  The metric the optimiser minimises is an angle: between 0 and 180
    degrees for a transit, between 0 and 360 degrees for an alignment. *)
Theorem getAlignmentMetric_range
  (Astronomy : option Engine) (date : JS.Date) (targetIds : list string)
  (useHighPrecision : bool) (allBodies : list PlanetData) :
  0 <= getAlignmentMetric Astronomy date TRANSIT targetIds useHighPrecision
         allBodies <= 180
  /\ 0 <= getAlignmentMetric Astronomy date PLANETARY_ALIGNMENT targetIds
            useHighPrecision allBodies <= 360.
Proof.
  apply getAlignmentMetric_bounds.
Qed.

(** ** Windows and optima *)

(** X8.  Whatever the date, the window of [calculateEventDuration] starts and
    ends a whole number of days from it, at most 3651 days before and 3651
    days after, whether or not the event holds on that date. *)
Theorem calculateEventDuration_whole_days
  (Astronomy : option Engine) (centerDate : JS.Date) (type : EventType)
  (targetIds : list string) (toleranceDeg : R)
  (useHighPrecision strictMode : bool) (solarRadiusDeg : R)
  (allBodies : list PlanetData) :
  exists ks ke : nat,
    (ks <= 3651)%nat /\ (ke <= 3651)%nat
    /\ calculateEventDuration Astronomy centerDate type targetIds
         toleranceDeg useHighPrecision strictMode solarRadiusDeg allBodies
       = (JS.getTime centerDate - INR ks * MILLISECONDS_PER_DAY,
          JS.getTime centerDate + INR ke * MILLISECONDS_PER_DAY).
Proof.
  destruct (calculateEventDuration_days Astronomy centerDate type targetIds
              toleranceDeg useHighPrecision strictMode solarRadiusDeg
              allBodies) as (ks & ke & Hks & Hke & _ & Hwin & _).
  exists ks, ke. split; [exact Hks |]. split; [exact Hke |]. exact Hwin.
Qed.

(** X9.  For a window [start <= end] the optimum that [findOptimalEventTime]
    returns lies in the window, and the angle returned with it is the
    metric on that date: at most 180 degrees for a transit, at most 360 for
    an alignment, and never negative. *)
Theorem findOptimalEventTime_within
  (Astronomy : option Engine) (start end_ : R) (type : EventType)
  (targetIds : list string) (useHighPrecision strictMode : bool)
  (solarRadiusDeg : R) (allBodies : list PlanetData) :
  start <= end_ ->
  let result := findOptimalEventTime Astronomy start end_ type targetIds
                  useHighPrecision strictMode solarRadiusDeg allBodies in
  start <= fst result <= end_
  /\ snd result
     = getAlignmentMetric Astronomy (JS.newDate (fst result)) type targetIds
         useHighPrecision allBodies
  /\ 0 <= snd result <= match type with
                        | TRANSIT => 180
                        | PLANETARY_ALIGNMENT => 360
                        end.
Proof.
  intros Hwin result.
  destruct (findOptimalEventTime_in_window Astronomy start end_ type targetIds
              useHighPrecision strictMode solarRadiusDeg allBodies)
    as (Hmetric & _ & Hin).
  cbv zeta in Hmetric, Hin. fold result in Hmetric, Hin.
  split; [exact (Hin Hwin) |]. split; [now symmetry |].
  rewrite <- Hmetric.
  destruct (getAlignmentMetric_bounds Astronomy (JS.newDate (fst result))
              targetIds useHighPrecision allBodies) as [Ht Ha].
  destruct type; assumption.
Qed.

Lemma findOptimalEventTime_within_witness :
  0 <= 86400000
  /\ 0 <= fst (findOptimalEventTime None 0 86400000 PLANETARY_ALIGNMENT
                 ["nibiru"; "vulcan"]%string false false
                 DEFAULT_SUN_ANGULAR_RADIUS_DEG [])
     <= 86400000.
Proof.
  assert (H : 0 <= 86400000) by lra.
  split; [exact H |].
  exact (proj1 (findOptimalEventTime_within None 0 86400000
                  PLANETARY_ALIGNMENT ["nibiru"; "vulcan"]%string false false
                  DEFAULT_SUN_ANGULAR_RADIUS_DEG [] H)).
Defined.

(** ** Orbits *)



(** The eccentric anomaly [calculateKeplerPosition] solves for. *)
Definition eccentricAnomalyAt
  (elements : OrbitalElements) (date : JS.Date) (centralMassMultiplier : R)
  : R :=
  let dayDiff := (JS.getTime date - J2000_time) / MILLISECONDS_PER_DAY in
  let n := (9856076686 / 10000000000 * centralMassMultiplier)
           / JS.pow (el_a elements) (15 / 10) in
  solveKepler (normalizeAngle (el_M elements + n * dayDiff)) (el_e elements).


Lemma calculateKeplerPosition_radius elements date mult :
  0 <= el_a elements -> 0 <= el_e elements <= 1 ->
  magnitude (calculateKeplerPosition elements date mult)
  = el_a elements
    * (1 - el_e elements * cos (eccentricAnomalyAt elements date mult)).
Proof.
  intros Ha He.
  unfold calculateKeplerPosition, calculateKeplerPosition_tr, solveKepler_tr,
    bind, ret, eccentricAnomalyAt, magnitude.
  cbv zeta. cbn [fst px py pz].
  set (E := solveKepler _ _).
  set (a := el_a elements) in *. set (e := el_e elements) in *.
  set (xv := a * (cos E - e)).
  set (yv := a * (sqrt (1 - e * e) * sin E)).
  set (u := JS.atan2 yv xv + deg2rad (el_w elements)).
  set (N := deg2rad (el_N elements)). set (i := deg2rad (el_i elements)).
  pose proof (sin2_cos2 u) as Hu. pose proof (sin2_cos2 N) as HN.
  pose proof (sin2_cos2 i) as Hi. pose proof (sin2_cos2 E) as HE.
  unfold Rsqr in Hu, HN, Hi, HE.
  assert (Hsq : sqrt (1 - e * e) * sqrt (1 - e * e) = 1 - e * e)
    by (apply sqrt_def; nra).
  assert (Hr2 : xv * xv + yv * yv
                = (a * (1 - e * cos E)) * (a * (1 - e * cos E))).
  { unfold xv, yv.
    replace (a * (cos E - e) * (a * (cos E - e))
             + a * (sqrt (1 - e * e) * sin E)
               * (a * (sqrt (1 - e * e) * sin E)))
      with (a * a * ((cos E - e) * (cos E - e)
                     + (sqrt (1 - e * e) * sqrt (1 - e * e))
                       * (sin E * sin E))) by ring.
    rewrite Hsq.
    replace (sin E * sin E) with (1 - cos E * cos E) by lra. ring. }
  assert (Hge : 0 <= a * (1 - e * cos E)).
  { apply Rmult_le_pos; [exact Ha |].
    pose proof (COS_bound E) as [Hlo Hhi]. nra. }
  set (r := sqrt (xv * xv + yv * yv)).
  assert (Hr : r = a * (1 - e * cos E)).
  { unfold r. rewrite Hr2. now apply sqrt_square. }
  match goal with |- sqrt ?s = _ =>
    replace s with
      (r * r * ((cos N * cos N + sin N * sin N) * (cos u * cos u)
                + (sin u * sin u) * (cos i * cos i)
                  * (sin N * sin N + cos N * cos N)
                + (sin u * sin u) * (sin i * sin i))) by ring
  end.
  replace (cos N * cos N + sin N * sin N) with 1 by lra.
  replace (sin N * sin N + cos N * cos N) with 1 by lra.
  replace (r * r * (1 * (cos u * cos u) + sin u * sin u * (cos i * cos i) * 1
                    + sin u * sin u * (sin i * sin i)))
    with (r * r * (cos u * cos u
                   + sin u * sin u * (cos i * cos i + sin i * sin i)))
    by ring.
  replace (cos i * cos i + sin i * sin i) with 1 by lra.
  replace (cos u * cos u + sin u * sin u * 1) with 1 by lra.
  rewrite Rmult_1_r, sqrt_square; [exact Hr | rewrite Hr; exact Hge].
Qed.


(** X11.  For a semi-major axis [0 < a] and an eccentricity [0 <= e < 1],
    an ellipse, the position computed exactly is never nearer to the focus
    than the periapsis distance [a (1 - e)] and never farther than the
    apoapsis distance [a (1 + e)]. *)
Theorem calculateKeplerPosition_distance
  (elements : OrbitalElements) (date : JS.Date) (centralMassMultiplier : R) :
  0 < el_a elements -> 0 <= el_e elements < 1 ->
  el_a elements * (1 - el_e elements)
  <= magnitude (calculateKeplerPosition elements date centralMassMultiplier)
  <= el_a elements * (1 + el_e elements).
Proof.
  intros Ha He. rewrite calculateKeplerPosition_radius by lra.
  pose proof (COS_bound (eccentricAnomalyAt elements date
                           centralMassMultiplier)) as [Hlo Hhi].
  split; apply Rmult_le_compat_l; try lra; nra.
Qed.

Definition exampleOrbit : OrbitalElements :=
  mkElements 0 0 (1029 / 10) 1 (167 / 10000) (3571 / 10).

Lemma calculateKeplerPosition_distance_witness :
  0 < el_a exampleOrbit
  /\ 0 <= el_e exampleOrbit < 1
  /\ el_a exampleOrbit * (1 - el_e exampleOrbit)
     <= magnitude (calculateKeplerPosition exampleOrbit 0%Z 1)
     <= el_a exampleOrbit * (1 + el_e exampleOrbit).
Proof.
  assert (Ha : 0 < el_a exampleOrbit) by (cbn; lra).
  assert (He : 0 <= el_e exampleOrbit < 1) by (cbn; lra).
  split; [exact Ha |]. split; [exact He |].
  exact (calculateKeplerPosition_distance exampleOrbit 0%Z 1 Ha He).
Defined.

(** X12.  A satellite is placed at its parent's position plus the Kepler
    position of its own elements whenever the ephemeris is not consulted
    (no id or an empty one, or high precision off) or does not answer (not
    loaded, an id that is not one of its ten bodies, a call that throws).
    When the ephemeris answers, its position is returned as it is and the
    parent's position plays no part. *)
Theorem calculateSatellitePosition_relative
  (Astronomy : option Engine) (satelliteElements : OrbitalElements)
  (parentPos parentPos' : Position) (date : JS.Date)
  (parentMassMultiplier : R) (id : option string) (useHighPrecision : bool) :
  (idGiven id && useHighPrecision = false
   \/ Astronomy = None
   \/ bodyOfId (idOr id) = None
   \/ (exists engine body,
         Astronomy = Some engine /\ bodyOfId (idOr id) = Some body
         /\ HelioVector engine body date = None) ->
   let relativePos :=
     calculateKeplerPosition satelliteElements date parentMassMultiplier in
   calculateSatellitePosition Astronomy satelliteElements parentPos date
     parentMassMultiplier id useHighPrecision
   = mkPos (px parentPos + px relativePos) (py parentPos + py relativePos)
       (pz parentPos + pz relativePos))
  /\ (forall hp,
        idGiven id && useHighPrecision = true ->
        calculateHighPrecisionPosition Astronomy (idOr id) date = Some hp ->
        calculateSatellitePosition Astronomy satelliteElements parentPos date
          parentMassMultiplier id useHighPrecision = hp
        /\ calculateSatellitePosition Astronomy satelliteElements parentPos'
             date parentMassMultiplier id useHighPrecision = hp).
Proof.
  split.
  - intros Hcase relativePos. subst relativePos.
    unfold calculateSatellitePosition.
    assert (Hnone : (if idGiven id && useHighPrecision
                     then calculateHighPrecisionPosition Astronomy (idOr id)
                            date
                     else None) = None).
    { destruct Hcase as [-> | [-> | [Hb | (engine & body & -> & Hb & Hv)]]].
      - reflexivity.
      - now destruct (idGiven id && useHighPrecision).
      - unfold calculateHighPrecisionPosition. rewrite Hb.
        now destruct (idGiven id && useHighPrecision), Astronomy.
      - unfold calculateHighPrecisionPosition. rewrite Hb, Hv.
        now destruct (idGiven id && useHighPrecision). }
    now rewrite Hnone.
  - intros hp Hon Hhp. unfold calculateSatellitePosition.
    rewrite Hon, Hhp. split; reflexivity.
Qed.

Definition exampleSatelliteOrbit : OrbitalElements :=
  mkElements (1251 / 10) (5145 / 1000) (3181 / 10) (257 / 100000)
    (549 / 10000) (1354 / 10).

(** Both halves for the Moon: with high precision off it is placed
    relative to its parent; with the ephemeris of the conjunction, which
    has the Moon at [(1, 0, 0)], it is placed there wherever the parent
    is. *)
Lemma calculateSatellitePosition_relative_witness :
  px (calculateSatellitePosition None exampleSatelliteOrbit (mkPos 1 0 0)
        0%Z 1 (Some "moon"%string) false)
  = 1 + px (calculateKeplerPosition exampleSatelliteOrbit 0%Z 1)
  /\ calculateSatellitePosition (Some conjunctionEngine)
       exampleSatelliteOrbit (mkPos 5 5 5) 0%Z 1 (Some "moon"%string) true
     = mkPos 1 0 0.
Proof.
  split.
  - rewrite (proj1 (calculateSatellitePosition_relative None
                      exampleSatelliteOrbit (mkPos 1 0 0) (mkPos 1 0 0) 0%Z 1
                      (Some "moon"%string) false) (or_introl eq_refl)).
    reflexivity.
  - assert (Hhp : calculateHighPrecisionPosition (Some conjunctionEngine)
                    (idOr (Some "moon"%string)) 0%Z = Some (mkPos 1 0 0)).
    { unfold calculateHighPrecisionPosition.
      cbn [idOr bodyOfId String.eqb Ascii.eqb Bool.eqb HelioVector
           conjunctionEngine px py pz].
      f_equal. f_equal; ring. }
    exact (proj1 (proj2 (calculateSatellitePosition_relative
                           (Some conjunctionEngine) exampleSatelliteOrbit
                           (mkPos 5 5 5) (mkPos 5 5 5) 0%Z 1
                           (Some "moon"%string) true)
                          (mkPos 1 0 0) eq_refl Hhp)).
Defined.

(** ** The camera *)

Lemma smoothStep_clamp (edge0 edge1 x : R) :
  0 <= JS.max 0 (JS.min 1 ((x - edge0) / (edge1 - edge0))) <= 1.
Proof.
  unfold JS.max, JS.min. split.
  - apply Rmax_l.
  - apply Rmax_lub; [lra | apply Rmin_l].
Qed.

Lemma hermite_monotone (s t : R) :
  0 <= s -> s <= t -> t <= 1 ->
  s * s * (3 - 2 * s) <= t * t * (3 - 2 * t).
Proof.
  intros Hs Hst Ht.
  assert (H : 0 <= (t - s) * (3 * (t + s) - 2 * (t * t + t * s + s * s))).
  { apply Rmult_le_pos; [lra |]. nra. }
  nra.
Qed.

Lemma smoothStep_facts (edge0 edge1 x x' : R) :
  edge0 < edge1 ->
  0 <= smoothStep edge0 edge1 x <= 1
  /\ (x <= edge0 -> smoothStep edge0 edge1 x = 0)
  /\ (edge1 <= x -> smoothStep edge0 edge1 x = 1)
  /\ (x <= x' -> smoothStep edge0 edge1 x <= smoothStep edge0 edge1 x').
Proof.
  intros Hedge.
  assert (Hinv : 0 < / (edge1 - edge0)) by (apply Rinv_0_lt_compat; lra).
  split; [| split; [| split]].
  - unfold smoothStep. cbv zeta.
    pose proof (smoothStep_clamp edge0 edge1 x) as [Hlo Hhi].
    set (t := JS.max 0 _) in *. split.
    + apply Rmult_le_pos; [apply Rmult_le_pos; lra | lra].
    + pose proof (hermite_monotone t 1 Hlo Hhi ltac:(lra)). lra.
  - intros Hx. unfold smoothStep, JS.max, JS.min. cbv zeta.
    assert (Hq : (x - edge0) / (edge1 - edge0) <= 0).
    { unfold Rdiv.
      replace ((x - edge0) * / (edge1 - edge0))
        with (- ((edge0 - x) * / (edge1 - edge0))) by ring.
      pose proof (Rmult_le_pos (edge0 - x) (/ (edge1 - edge0))
                    ltac:(lra) ltac:(lra)). lra. }
    rewrite Rmin_right by lra. rewrite Rmax_left by lra. ring.
  - intros Hx. unfold smoothStep, JS.max, JS.min. cbv zeta.
    assert (Hq : 1 <= (x - edge0) / (edge1 - edge0)).
    { apply Rmult_le_reg_r with (edge1 - edge0); [lra |].
      unfold Rdiv. rewrite Rmult_assoc, Rinv_l by lra. lra. }
    rewrite Rmin_left by lra. rewrite Rmax_right by lra. ring.
  - intros Hx. unfold smoothStep. cbv zeta.
    pose proof (smoothStep_clamp edge0 edge1 x) as [Hlo _].
    pose proof (smoothStep_clamp edge0 edge1 x') as [_ Hhi].
    apply hermite_monotone; [exact Hlo | | exact Hhi].
    unfold JS.max, JS.min.
    apply Rle_max_compat_l, Rle_min_compat_l.
    unfold Rdiv. apply Rmult_le_compat_r; lra.
Qed.



Lemma proximityFade_range (id : option string) (dist : R) :
  0 <= proximityFade id dist <= 1.
Proof.
  unfold proximityFade.
  destruct (idIs id "sun"); [lra |].
  destruct (includes TIER_2_IDS (idOrEmpty id)).
  - cbv zeta. unfold JS.max.
    js_case (JS.leb dist 100).
    + rewrite Rmax_right by lra. lra.
    + js_case (JS.ltb dist (100 + 300)).
      * split; [apply Rle_trans with (3 / 10); [lra | apply Rmax_r] |].
        apply Rmax_lub; lra.
      * rewrite Rmax_left by lra. lra.
  - cbv zeta.
    destruct (idIs id "mercury" || idIs id "venus").
    + js_case (JS.leb dist 50); [lra |].
      js_case (JS.ltb dist (50 + 150)); lra.
    + js_case (JS.leb dist 100); [lra |].
      js_case (JS.ltb dist (100 + 300)); lra.
Qed.

(** X15.  Whatever the point, the camera and the body, the projected point
    has an opacity in [0, 1] and is visible exactly when that opacity is at
    least 0.01; a point with scale factor 0, as a culled one has, is at the
    screen origin. *)
Theorem project3D_visibility
  (pos : Position) (scale : R) (settings : AppSettings) (zoomK : R)
  (id : option string) (centerOfRotation : Position) :
  let p := project3D pos scale settings zoomK id centerOfRotation in
  0 <= pp_opacity p <= 1
  /\ (pp_isVisible p = true <-> 1 / 100 <= pp_opacity p)
  /\ (pp_scaleFactor p = 0 -> pp_x p = 0 /\ pp_y p = 0).
Proof.
  unfold project3D. cbv zeta.
  destruct (enablePerspective settings).
  - match goal with |- context [JS.leb ?a 0] => js_case (JS.leb a 0) end.
    + cbn [pp_opacity pp_isVisible pp_scaleFactor pp_x pp_y].
      split; [lra |]. split; [| auto].
      split; [discriminate | lra].
    + cbn [pp_opacity pp_isVisible pp_scaleFactor pp_x pp_y].
      match goal with |- context [proximityFade id ?d] =>
        pose proof (proximityFade_range id d) as Hr;
        set (op := proximityFade id d) in *
      end.
      split; [exact Hr |]. split.
      * js_case (JS.ltb op (1 / 100)); split; try discriminate; try lra; auto.
      * intros ->. split; ring.
  - cbn [pp_opacity pp_isVisible pp_scaleFactor pp_x pp_y].
    split; [lra |]. split.
    + js_case (JS.ltb 1 (1 / 100)); split; try discriminate; try lra; auto.
    + intros H. lra.
Qed.

(** X16.  Without perspective nothing is scaled, faded or hidden: the scale
    factor is 1, the opacity is 1 and the point is visible; and the zoom
    factor and the body id play no part in the projected point. *)
Theorem project3D_orthographic
  (pos : Position) (scale : R) (settings : AppSettings) (zoomK zoomK' : R)
  (id id' : option string) (centerOfRotation : Position) :
  enablePerspective settings = false ->
  let p := project3D pos scale settings zoomK id centerOfRotation in
  pp_scaleFactor p = 1 /\ pp_isVisible p = true /\ pp_opacity p = 1
  /\ project3D pos scale settings zoomK' id' centerOfRotation = p.
Proof.
  intros Hp. unfold project3D. rewrite Hp. cbv zeta.
  cbn [pp_scaleFactor pp_isVisible pp_opacity].
  split; [reflexivity |]. split; [| split; reflexivity].
  js_case (JS.ltb 1 (1 / 100)); [lra | reflexivity].
Qed.

Definition topDown : AppSettings :=
  mkSettings false true true false 90 0 false false.

Lemma project3D_orthographic_witness :
  enablePerspective topDown = false
  /\ pp_scaleFactor (project3D (mkPos 1 2 3) 65 topDown 1 None origin) = 1
  /\ project3D (mkPos 1 2 3) 65 topDown 40 (Some "mars"%string) origin
     = project3D (mkPos 1 2 3) 65 topDown 1 None origin.
Proof.
  split; [reflexivity |].
  destruct (project3D_orthographic (mkPos 1 2 3) 65 topDown 1 40 None
              (Some "mars"%string) origin eq_refl) as (Hs & _ & _ & Hsame).
  split; [exact Hs | exact Hsame].
Defined.




(** ** Render quality *)

Import RenderConfig.

Lemma getThreshold_pos (type : ThresholdType) (isTrueScale : bool) :
  0 < getThreshold type isTrueScale.
Proof.
  unfold getThreshold, SCHEMATIC_THRESHOLDS, TRUE_SCALE_RATIO.
  destruct type, isTrueScale; lra.
Qed.

Lemma fadeWindow (threshold : R) :
  0 < threshold ->
  threshold - threshold * (2 / 10) / 2 < threshold + threshold * (2 / 10) / 2.
Proof. intros H. lra. Qed.

Lemma getOpacityFromQuality_range quality k threshold mode :
  0 < threshold -> 0 <= getOpacityFromQuality quality k threshold mode <= 1.
Proof.
  intros Hth. pose proof (fadeWindow threshold Hth) as Hw.
  pose proof (proj1 (smoothStep_facts _ _ k k Hw)) as Hs.
  unfold getOpacityFromQuality. cbv zeta.
  destruct quality, mode; try lra.
  - destruct (JS.ltb threshold k); lra.
  - destruct (JS.ltb k threshold); lra.
Qed.


(** X18.  The render opacity of a body is always in [0, 1].  It is 1 for the
    Sun, for every body whose semi-major axis lies strictly between 4 and
    35 AU, and whenever the three quality settings are 'performance'. *)
Theorem calculateBodyOpacity_range
  (body : BodyData) (k : R) (settings : RenderSettings) (isTrueScale : bool) :
  0 <= calculateBodyOpacity body k settings isTrueScale <= 1
  /\ (bd_id body = "sun"%string ->
      calculateBodyOpacity body k settings isTrueScale = 1)
  /\ (4 < el_a (bd_elements body) < 35 ->
      calculateBodyOpacity body k settings isTrueScale = 1)
  /\ (innerQuality settings = performance ->
      outerQuality settings = performance ->
      cometQuality settings = comet_performance ->
      calculateBodyOpacity body k settings isTrueScale = 1).
Proof.
  unfold calculateBodyOpacity, INNER_SYSTEM_LIMIT_AU, OUTER_SYSTEM_LIMIT_AU.
  cbv zeta.
  set (a := el_a (bd_elements body)).
  set (isComet := (_ || typeIs (bd_type body) asteroid)%bool).
  set (isPlanetOrDwarf := (_ || typeIs (bd_type body) dwarf)%bool).
  pose proof (fun q t m =>
                getOpacityFromQuality_range q k (getThreshold t isTrueScale) m
                  (getThreshold_pos t isTrueScale)) as Hr.
  split; [| split; [| split]].
  - destruct (String.eqb (bd_id body) "sun"); [lra |].
    destruct isComet.
    + destruct (JS.leb a 4); [apply Hr | lra].
    + destruct isPlanetOrDwarf; [| lra].
      destruct (JS.leb a 4); [apply Hr |].
      destruct (JS.leb 35 a); [apply Hr | lra].
  - intros Hid. rewrite Hid. reflexivity.
  - intros [Hlo Hhi].
    destruct (String.eqb (bd_id body) "sun"); [reflexivity |].
    js_case (JS.leb a 4); [lra |].
    js_case (JS.leb 35 a); [lra |].
    destruct isComet; [reflexivity |].
    destruct isPlanetOrDwarf; reflexivity.
  - intros -> -> ->.
    destruct (String.eqb (bd_id body) "sun"); [reflexivity |].
    destruct isComet.
    + destruct (JS.leb a 4); reflexivity.
    + destruct isPlanetOrDwarf; [| reflexivity].
      destruct (JS.leb a 4); [reflexivity |].
      destruct (JS.leb 35 a); reflexivity.
Qed.





(** ** The scheduler *)

Lemma backward_step :
  dirSign Backward * MILLISECONDS_PER_DAY = IZR (-86400000).
Proof. unfold dirSign, MILLISECONDS_PER_DAY. lra. Qed.

Lemma batchLoop_never detect guard key (step : R) n (ts : R) :
  (forall d, detect d = false) ->
  batchLoop detect guard key step n ts = (ts + INR n * step, false).
Proof.
  intros Hnever. revert ts; induction n as [| n IH]; intro ts.
  - cbn [batchLoop INR]. f_equal. ring.
  - cbn [batchLoop]. rewrite Hnever, IH.
    destruct (guardSkips _ _ _); f_equal; rewrite S_INR; ring.
Qed.

(** The days a frame scans, by search speed. *)
Definition daysPerFrame (v : SearchSpeed) : Z :=
  match v with low => 4 | medium => 15 | high => 30 end%Z.

Definition dirZ (d : Direction) : Z :=
  match d with Forward => 1 | Backward => -1 end%Z.

(** X21.  A frame of an active interactive search whose detection test fails on
    every date scans 4, 15 or 30 days (by search speed) in the time
    direction and leaves the search active and the history as it is,
    however far the scan already is from where the search started. *)
Theorem animate_quiet_frame
  (Astronomy : option Engine) (settings : AppSettings)
  (celestialBodies : list PlanetData) (time now : R) (eventId : string)
  (s : Sim) (ty : EventType) :
  let ss := searchState s in
  let targets :=
    sortStr (match targetIds ss with Some l => l | None => [] end) in
  JS.eqb (lastFrameTime s) 0 = false ->
  isCalculating ss = false ->
  active ss = true ->
  type ss = Some ty ->
  continuousPaused ss = false ->
  (forall d,
     detects Astronomy settings celestialBodies ty targets
       (activeTolerance ss) (truthy (strictMode ss))
       (radiusOrDefault (activeSolarRadius ss)) d = false) ->
  let s' := animate Astronomy settings celestialBodies time now eventId s in
  currentDate s'
  = (currentDate s
     + daysPerFrame (speed ss) * (dirZ (timeDirection s) * 86400000))%Z
  /\ foundEvents (searchState s') = foundEvents ss
  /\ active (searchState s') = true
  /\ completed (searchState s') = completed ss
  /\ status (searchState s') = StatusSearching (currentDate s').
Proof.
  intros ss targets Hframe Hcalc Hact Hty Hpause Hnever s'.
  destruct (animate_active Astronomy settings celestialBodies time now eventId
              s ty Hframe Hcalc Hact Hty Hpause)
    as (s2 & Heq & Hev & Hact2 & Hcomp & _).
  subst s'. rewrite Heq. clear Heq. subst ss targets.
  destruct s2 as [cd2 pl2 sm2 td2 ha2 ss2 lft2 lrt2 leg2 cdt2 cs2 ct2 bp2 ht2 bd2].
  destruct ss2 as [a2 ty2 ids2 st2 sp2 tol2 rad2 sm2' calc2 cr2 cdur2 el2 csd2
                   rs2 re2 ro2 ra2 paused2 evs2 sst2 comp2].
  destruct s as [cd pl sm td ha ss lft lrt leg cdt cs ct bp ht bd].
  destruct ss as [a ty0 ids st sp tol rad smode calc cr cdur el csd
                  rs re ro ra paused evs sst comp].
  cbn [searchState foundEvents active completed] in Hev, Hact2, Hcomp.
  subst evs2 a2 comp2.
  cbn [searchState targetIds activeTolerance strictMode activeSolarRadius]
    in Hnever.
  unfold searchTick. cbv zeta.
  cbn [searchState timeDirection currentDate targetIds activeTolerance
       strictMode activeSolarRadius speed lastEventGuard].
  assert (Hstep : dirSign td * MILLISECONDS_PER_DAY
                  = IZR (dirZ td * 86400000)).
  { destruct td; [apply forward_step | apply backward_step]. }
  rewrite Hstep.
  rewrite (searchLoop_never _ _ _ _ _ cd Hnever).
  state_eval.
  destruct sp; repeat split; reflexivity.
Qed.

Lemma animate_quiet_frame_witness :
  JS.eqb 17 0 = false
  /\ currentDate
       (animate None loopSettings [] 17 1 "e"
          (scanning TRANSIT ["vulcan"%string] 0%Z 0 StatusStarting 0))
     = (4 * 86400000)%Z.
Proof.
  split; [exact eqb_17_0 |].
  exact (proj1 (animate_quiet_frame None loopSettings [] 17 1 "e"
                  (scanning TRANSIT ["vulcan"%string] 0%Z 0 StatusStarting 0)
                  TRANSIT eqb_17_0 eq_refl eq_refl eq_refl eq_refl
                  detects_vulcan_transit)).
Defined.

Lemma INR_200 : INR 200 = 200.
Proof. rewrite INR_IZR_INZ. reflexivity. Qed.

(** X22.  A batch of a calculation whose detection test fails on every
    date moves the scan 200 days in the direction its callback captured,
    which is the time direction when the calculation was started and not
    the one of the current state; it keeps that direction for the next
    batch, leaves the history and the displayed date as they are, and
    schedules the next batch unless the calculation was paused or ended
    meanwhile. *)
Theorem runCalculationBatch_quiet_batch
  (Astronomy : option Engine) (settings : AppSettings)
  (celestialBodies : list PlanetData) (now now' : R) (eventId : string)
  (s : Sim) (ct : CalcTarget) :
  calcTarget s = Some ct ->
  (forall d,
     detects Astronomy settings celestialBodies (ct_type ct)
       (sortStr (ct_ids ct)) (ct_tolerance ct) (ct_strictMode ct)
       (ct_solarRadius ct) d = false) ->
  let s' := runCalculationBatch Astronomy settings celestialBodies now now'
              eventId s in
  calcDate s'
  = calcDate s + 200 * (dirSign (batchDirection s) * MILLISECONDS_PER_DAY)
  /\ batchDirection s' = batchDirection s
  /\ foundEvents (searchState s') = foundEvents (searchState s)
  /\ currentDate s' = currentDate s
  /\ batchPending s'
     = isCalculating (searchState s)
       && negb (continuousPaused (searchState s))
  /\ (forall now0 type_ ids strict config keepHistory,
        batchDirection
          (startCalculation now0 type_ ids strict config keepHistory s)
        = timeDirection s).
Proof.
  intros Hct Hnever s'. subst s'.
  destruct s as [cd pl sm td ha ss lft lrt leg cdt cs ct0 bp ht bd].
  destruct ss as [a ty0 ids st sp tol rad smode calc cr cdur el csd
                  rs re ro ra paused evs sst comp].
  cbn [calcTarget] in Hct. subst ct0.
  unfold runCalculationBatch. state_eval.
  rewrite (batchLoop_never _ _ _ _ _ _ Hnever), INR_200.
  destruct paused, calc; state_eval; repeat split; reflexivity.
Qed.

(** A calculation for a transit of a body the catalog does not hold,
    started forward; the time direction was turned backward since. *)
Definition calculating (d : Z) : Sim :=
  mkSim d false 1 Backward None
    (mkSearch false (Some TRANSIT) (Some ["vulcan"%string]) StatusCalculating
       medium 1 (Some DEFAULT_SUN_ANGULAR_RADIUS_DEG) (Some false) true None
       0 0 (IZR d) None None None None false [] (IZR d) false)
    17 0 None (IZR d) 0
    (Some (mkCalcTarget TRANSIT ["vulcan"%string] false 1
             DEFAULT_SUN_ANGULAR_RADIUS_DEG))
    true false Forward.

Lemma runCalculationBatch_quiet_batch_witness :
  calcTarget (calculating 0)
  = Some (mkCalcTarget TRANSIT ["vulcan"%string] false 1
            DEFAULT_SUN_ANGULAR_RADIUS_DEG)
  /\ timeDirection (calculating 0) = Backward
  /\ calcDate
       (runCalculationBatch None loopSettings [] 1 2 "e" (calculating 0))
     = 0 + 200 * (1 * MILLISECONDS_PER_DAY).
Proof.
  split; [reflexivity |]. split; [reflexivity |].
  exact (proj1 (runCalculationBatch_quiet_batch None loopSettings []
                  1 2 "e" (calculating 0) _ eq_refl
                  detects_vulcan_transit)).
Defined.

Lemma searchLoop_guard detect guard key step n d d' :
  searchLoop detect guard key step n d = (d', true) ->
  detect d' = true /\ guardSkips guard key (JS.getTime d') = false.
Proof.
  revert d; induction n as [| n IH]; intros d H; cbn [searchLoop] in H;
    [discriminate |].
  set (d1 := JS.newDate (JS.getTime d + step)) in H.
  destruct (guardSkips guard key (JS.getTime d1)) eqn:Hg;
    [now apply IH in H |].
  destruct (detect d1) eqn:E; [| now apply IH in H].
  inversion H; subst. now split.
Qed.

Lemma batchLoop_guard detect guard key step n ts ts' :
  batchLoop detect guard key step n ts = (ts', true) ->
  detect (JS.newDate ts') = true /\ guardSkips guard key ts' = false.
Proof.
  revert ts; induction n as [| n IH]; intros ts H; cbn [batchLoop] in H;
    [discriminate |].
  destruct (guardSkips guard key (ts + step)) eqn:Hg;
    [now apply IH in H |].
  destruct (detect (JS.newDate (ts + step))) eqn:E; [| now apply IH in H].
  inversion H; subst. now split.
Qed.

(** A time the guard test lets through lies outside the window of the
    guard, when the guard has the key of the search. *)
Definition outsideGuard (guard : option Guard) (key : string) (t : R)
  : Prop :=
  forall g, guard = Some g -> g_key g = key -> t < g_start g \/ g_end g < t.

Lemma guardSkips_outside guard key t :
  guardSkips guard key t = false -> outsideGuard guard key t.
Proof.
  unfold guardSkips, outsideGuard. intros H g -> Hkey.
  rewrite Hkey, String.eqb_refl in H. cbn [andb] in H.
  apply andb_false_iff in H. destruct H as [H | H]; apply leb_false in H;
    [now left | now right].
Qed.

(** The guard an event leaves: its key and its window. *)
Definition guardOf (key : string) (ev : FoundEvent) : Guard :=
  mkGuard key (fe_startDate ev) (fe_endDate ev).

(** X23.  The guard is the window of the last event found: a new search
    starts without one, a frame or a batch that appends an event records
    that event's key and window as the guard, and one that appends nothing
    leaves the guard as it is.  The date on which an event is found passed
    the detection test and lies outside the guard of the state the scan
    started from, when that guard has the key of the search: the same
    occurrence is not found twice in a row. *)
Theorem scan_respects_guard
  (Astronomy : option Engine) (settings : AppSettings)
  (celestialBodies : list PlanetData) (time now now' : R) (eventId : string)
  (s : Sim) :
  let ss := searchState s in
  let frame := animate Astronomy settings celestialBodies time now eventId s in
  let batch := runCalculationBatch Astronomy settings celestialBodies now now'
                 eventId s in
  ((foundEvents (searchState frame) = foundEvents ss
    /\ lastEventGuard frame = lastEventGuard s)
   \/ (exists (ty : EventType) (center : JS.Date),
         let targets :=
           sortStr (match targetIds ss with Some l => l | None => [] end) in
         let ev := eventAt Astronomy settings celestialBodies eventId ty
                     targets (activeTolerance ss) (truthy (strictMode ss))
                     (radiusOrDefault (activeSolarRadius ss)) (strictMode ss)
                     center in
         type ss = Some ty
         /\ detects Astronomy settings celestialBodies ty targets
              (activeTolerance ss) (truthy (strictMode ss))
              (radiusOrDefault (activeSolarRadius ss)) center = true
         /\ foundEvents (searchState frame) = foundEvents ss ++ [ev]
         /\ outsideGuard (lastEventGuard s) (eventKey ty targets)
              (JS.getTime center)
         /\ lastEventGuard frame = Some (guardOf (eventKey ty targets) ev)))
  /\ (forall ct,
        calcTarget s = Some ct ->
        (foundEvents (searchState batch) = foundEvents ss
         /\ lastEventGuard batch = lastEventGuard s)
        \/ (exists ts : R,
              let ids := sortStr (ct_ids ct) in
              let ev := eventAt Astronomy settings celestialBodies eventId
                          (ct_type ct) ids (ct_tolerance ct)
                          (ct_strictMode ct) (ct_solarRadius ct)
                          (Some (ct_strictMode ct)) (JS.newDate ts) in
              detects Astronomy settings celestialBodies (ct_type ct) ids
                (ct_tolerance ct) (ct_strictMode ct) (ct_solarRadius ct)
                (JS.newDate ts) = true
              /\ foundEvents (searchState batch) = foundEvents ss ++ [ev]
              /\ outsideGuard (lastEventGuard s)
                   (eventKey (ct_type ct) ids) ts
              /\ lastEventGuard batch
                 = Some (guardOf (eventKey (ct_type ct) ids) ev)))
  /\ (forall type_ ids speed_ strict config keepHistory,
        lastEventGuard
          (startSearch settings now type_ ids speed_ strict config
             keepHistory s) = None
        /\ lastEventGuard
             (startCalculation now type_ ids strict config keepHistory s)
           = None).
Proof.
  intros ss frame batch. subst ss frame batch.
  destruct s as [cd pl sm td ha ss lft lrt leg cdt cs ct0 bp ht bd].
  destruct ss as [a ty0 ids st sp tol rad smode calc cr cdur el csd
                  rs re ro ra paused evs sst comp].
  cbn [searchState foundEvents lastEventGuard calcTarget targetIds type
       activeTolerance strictMode activeSolarRadius].
  split; [| split].
  - unfold animate. state_eval.
    destruct (JS.eqb lft 0); [left; split; reflexivity |].
    destruct calc; [left; split; reflexivity |].
    destruct a; state_eval.
    2:{ left. destruct pl; [| split; reflexivity].
        destruct ha; [| split; reflexivity].
        destruct (showEventHighlights settings); split; reflexivity. }
    destruct ty0 as [ty |].
    2:{ left. destruct paused; state_eval;
          (destruct pl; [| split; reflexivity]);
          (destruct ha; [| split; reflexivity]);
          destruct (showEventHighlights settings); split; reflexivity. }
    destruct paused; state_eval.
    all: destruct (continuousIteration settings) eqn:Hcont; state_eval;
      try (left; split; reflexivity).
    all: unfold searchTick; cbv zeta;
      cbn [searchState timeDirection currentDate targetIds activeTolerance
           strictMode activeSolarRadius speed lastEventGuard];
      match goal with
      | |- context [searchLoop ?f ?g ?k ?stp ?n ?d] =>
          destruct (searchLoop f g k stp n d) as [tempDate found] eqn:Hloop
      end;
      (destruct found;
       [ right; exists ty, tempDate; apply searchLoop_guard in Hloop;
         destruct Hloop as [Hdet Hguard];
         apply guardSkips_outside in Hguard;
         rewrite Hcont; unfold guardOf;
         split; [reflexivity |]; split; [exact Hdet |];
         split; [| split; [exact Hguard |]]
       | left; state_eval; split; reflexivity ]).
    all: destruct td, ty; cbn [List.length Nat.ltb Nat.leb]; state_eval;
      try (destruct (capReached _ _ _); state_eval);
      try (destruct (showEventHighlights settings); state_eval);
      reflexivity.
  - intros ct Hct. subst ct0.
    unfold runCalculationBatch. state_eval.
    destruct paused, calc; state_eval.
    all: match goal with
      | |- context [batchLoop ?f ?g ?k ?stp ?n ?d] =>
          destruct (batchLoop f g k stp n d) as [currentTs found] eqn:Hloop
      end;
      (destruct found;
       [ right; exists currentTs; apply batchLoop_guard in Hloop;
         destruct Hloop as [Hdet Hguard];
         apply guardSkips_outside in Hguard; unfold guardOf;
         split; [exact Hdet |];
         split; [| split; [exact Hguard |]]
       | left; state_eval; split; reflexivity ]).
    all: destruct (continuousIteration settings); state_eval;
      try (destruct (capReached _ _ _); state_eval);
      reflexivity.
  - intros type_ ids0 speed_ strict config keepHistory.
    unfold startSearch, startCalculation.
    destruct (allowCalculationSearch settings); split; reflexivity.
Qed.

(** The first frame of the alignment search for two bodies that the
    catalog does not hold starts without a guard and leaves the window of
    the event it found as the guard. *)
Lemma scan_respects_guard_witness :
  exists ev,
    appended
      (scanning PLANETARY_ALIGNMENT ["nibiru"; "vulcan"]%string 0%Z 0
         StatusStarting 0)
      (animate None loopSettings [] 17 1 "e"
         (scanning PLANETARY_ALIGNMENT ["nibiru"; "vulcan"]%string 0%Z 0
            StatusStarting 0))
      ev
    /\ lastEventGuard
         (animate None loopSettings [] 17 1 "e"
            (scanning PLANETARY_ALIGNMENT ["nibiru"; "vulcan"]%string 0%Z 0
               StatusStarting 0))
       = Some (guardOf
                 (eventKey PLANETARY_ALIGNMENT ["nibiru"; "vulcan"]%string)
                 ev).
Proof.
  destruct (scan_respects_guard None loopSettings [] 17 1 1 "e"
              (scanning PLANETARY_ALIGNMENT ["nibiru"; "vulcan"]%string 0%Z 0
                 StatusStarting 0))
    as ([(Hsame & _) | (ty & center & Hfound)] & _).
  - exfalso. pose proof animate_unknown_pair_appends as Happ.
    unfold appended in Happ. rewrite Hsame in Happ.
    now apply app_tail_neq in Happ.
  - cbv zeta in Hfound. destruct Hfound as (Hty & _ & Hev & _ & Hguard).
    cbn [scanning searchState type] in Hty. inversion Hty; subst ty.
    eexists. split; [exact Hev | exact Hguard].
Defined.

(** X24.  Once a calculation is stopped, a batch still pending does nothing and
    no frame scans: the history stays as it was.  After the search form is
    reset the history is empty and no frame adds to it. *)
Theorem stopCalculation_final
  (Astronomy : option Engine) (settings : AppSettings)
  (celestialBodies : list PlanetData) (time now now' : R) (eventId : string)
  (s : Sim) :
  let stopped := stopCalculation s in
  let cleared := resetSearchForm s in
  runCalculationBatch Astronomy settings celestialBodies now now' eventId
    stopped = stopped
  /\ foundEvents
       (searchState
          (animate Astronomy settings celestialBodies time now eventId
             stopped))
     = foundEvents (searchState s)
  /\ active
       (searchState
          (animate Astronomy settings celestialBodies time now eventId
             stopped))
     = false
  /\ foundEvents
       (searchState
          (animate Astronomy settings celestialBodies time now eventId
             cleared))
     = []
  /\ active
       (searchState
          (animate Astronomy settings celestialBodies time now eventId
             cleared))
     = false.
Proof.
  destruct s as [cd pl sm td ha ss lft lrt leg cdt cs ct0 bp ht bd].
  destruct ss as [a ty0 ids st sp tol rad smode calc cr cdur el csd
                  rs re ro ra paused evs sst comp].
  cbv zeta.
  unfold stopCalculation, resetSearchForm, runCalculationBatch, animate.
  state_eval.
  split; [reflexivity |].
  destruct (JS.eqb lft 0); [repeat split; reflexivity |].
  destruct pl; [| repeat split; reflexivity].
  destruct ha; [| repeat split; reflexivity].
  destruct (showEventHighlights settings); repeat split; reflexivity.
Qed.

(** X25.  Nothing but a fresh start removes or reorders events: a frame and a
    batch leave the history as it is or append one event at its end, and
    stopping, or starting again with [keepHistory], leave it as it is. *)
Theorem history_append_only
  (Astronomy : option Engine) (settings : AppSettings)
  (celestialBodies : list PlanetData) (time now now' : R) (eventId : string)
  (type_ : EventType) (ids : list string) (speed_ : SearchSpeed)
  (strict : bool) (config : Config) (s : Sim) :
  (exists tail,
     (List.length tail <= 1)%nat
     /\ foundEvents
          (searchState
             (animate Astronomy settings celestialBodies time now eventId s))
        = foundEvents (searchState s) ++ tail)
  /\ (exists tail,
        (List.length tail <= 1)%nat
        /\ foundEvents
             (searchState
                (runCalculationBatch Astronomy settings celestialBodies now
                   now' eventId s))
           = foundEvents (searchState s) ++ tail)
  /\ foundEvents (searchState (stopCalculation s))
     = foundEvents (searchState s)
  /\ foundEvents
       (searchState
          (startSearch settings now type_ ids speed_ strict config true s))
     = foundEvents (searchState s)
  /\ foundEvents
       (searchState (startCalculation now type_ ids strict config true s))
     = foundEvents (searchState s).
Proof.
  split; [| split; [| split; [| split]]].
  - destruct (animate_foundEvents Astronomy settings celestialBodies time now
                eventId s) as [Hsame | (ty & center & _ & _ & Happ)];
      cbv zeta in *.
    + exists []. split; [cbn; lia |]. now rewrite app_nil_r.
    + eexists [_]. split; [cbn; lia |]. exact Happ.
  - destruct (calcTarget s) as [ct |] eqn:Hct.
    + destruct (runCalculationBatch_cases Astronomy settings celestialBodies
                  now now' eventId s ct Hct)
        as [(Hsame & _) | (ts & _ & Happ & _)]; cbv zeta in *.
      * exists []. split; [cbn; lia |]. now rewrite app_nil_r.
      * eexists [_]. split; [cbn; lia |]. exact Happ.
    + rewrite (runCalculationBatch_idle Astronomy settings celestialBodies
                 now now' eventId s Hct).
      exists []. split; [cbn; lia |]. now rewrite app_nil_r.
  - reflexivity.
  - unfold startSearch, startCalculation.
    destruct (allowCalculationSearch settings); reflexivity.
  - reflexivity.
Qed.

(** The bodies a found event highlights: the Earth, the targets and, for a
    transit, the Sun. *)
Definition highlighted (ty : EventType) (targets : list string)
  : list string :=
  match ty with
  | TRANSIT => ("earth" :: targets ++ ["sun"])%string
  | PLANETARY_ALIGNMENT => ("earth" :: targets)%string
  end.

(** X26.  Without continuous iteration, a frame of an active search that finds
    an event ends the search on it: the event is appended, the simulation
    is paused at speed 1 on the date of detection, the result fields show
    the window, the optimum and the angle of that event, and the Earth, the
    targets and (for a transit) the Sun are highlighted.  A frame that
    finds nothing leaves the search active. *)
Theorem animate_single_find
  (Astronomy : option Engine) (settings : AppSettings)
  (celestialBodies : list PlanetData) (time now : R) (eventId : string)
  (s : Sim) (ty : EventType) :
  let ss := searchState s in
  let targets :=
    sortStr (match targetIds ss with Some l => l | None => [] end) in
  continuousIteration settings = false ->
  JS.eqb (lastFrameTime s) 0 = false ->
  isCalculating ss = false ->
  active ss = true ->
  type ss = Some ty ->
  let s' := animate Astronomy settings celestialBodies time now eventId s in
  (foundEvents (searchState s') = foundEvents ss
   /\ active (searchState s') = true
   /\ isPlaying s' = isPlaying s)
  \/ (exists center : JS.Date,
        detects Astronomy settings celestialBodies ty targets
          (activeTolerance ss) (truthy (strictMode ss))
          (radiusOrDefault (activeSolarRadius ss)) center = true
        /\ let ev := eventAt Astronomy settings celestialBodies eventId ty
                       targets (activeTolerance ss) (truthy (strictMode ss))
                       (radiusOrDefault (activeSolarRadius ss))
                       (strictMode ss) center in
           foundEvents (searchState s') = foundEvents ss ++ [ev]
           /\ active (searchState s') = false
           /\ isPlaying s' = false
           /\ speedMultiplier s' = 1
           /\ currentDate s' = center
           /\ calculationResult (searchState s') = Some (JS.getTime center)
           /\ resultStartDate (searchState s') = Some (fe_startDate ev)
           /\ resultEndDate (searchState s') = Some (fe_endDate ev)
           /\ resultOptimalDate (searchState s') = Some (fe_optimalDate ev)
           /\ resultMinAngle (searchState s') = Some (fe_minAngle ev)
           /\ highlightedAlignment s' = Some (highlighted ty targets)).
Proof.
  intros ss targets Hcont Hframe Hcalc Hact Hty s'. subst s' ss targets.
  destruct s as [cd pl sm td ha ss lft lrt leg cdt cs ct bp ht bd].
  destruct ss as [a ty0 ids st sp tol rad smode calc cr cdur el csd
                  rs re ro ra paused evs sst comp].
  cbn [searchState lastFrameTime isCalculating active type] in
    Hframe, Hcalc, Hact, Hty.
  subst calc a ty0.
  unfold animate. state_eval. rewrite Hframe, Hcont.
  destruct paused; state_eval.
  all: unfold searchTick; cbv zeta;
    cbn [searchState timeDirection currentDate targetIds activeTolerance
         strictMode activeSolarRadius speed lastEventGuard];
    match goal with
    | |- context [searchLoop ?f ?g ?k ?st ?n ?d] =>
        destruct (searchLoop f g k st n d) as [tempDate found] eqn:Hloop
    end;
    (destruct found;
     [ right; exists tempDate; apply searchLoop_found in Hloop;
       split; [exact Hloop |];
       rewrite Hcont;
       destruct ty; cbn [List.length Nat.ltb Nat.leb];
       destruct (showEventHighlights settings); state_eval;
       repeat split; reflexivity
     | left; state_eval; repeat split; reflexivity ]).
Qed.

(** Continuous iteration off, everything else as in [loopSettings]. *)
Definition singleSettings : AppSettings :=
  mkSettings false true false false 0 0 false false.

Lemma animate_single_find_witness :
  continuousIteration singleSettings = false
  /\ JS.eqb 17 0 = false
  /\ ((foundEvents
         (searchState
            (animate None singleSettings [] 17 1 "e"
               (scanning TRANSIT ["vulcan"%string] 0%Z 0 StatusStarting 0)))
       = []
       /\ active
            (searchState
               (animate None singleSettings [] 17 1 "e"
                  (scanning TRANSIT ["vulcan"%string] 0%Z 0 StatusStarting
                     0)))
          = true)
      \/ foundEvents
           (searchState
              (animate None singleSettings [] 17 1 "e"
                 (scanning TRANSIT ["vulcan"%string] 0%Z 0 StatusStarting
                    0)))
         <> []).
Proof.
  split; [reflexivity |]. split; [exact eqb_17_0 |].
  destruct (animate_single_find None singleSettings [] 17 1 "e"
              (scanning TRANSIT ["vulcan"%string] 0%Z 0 StatusStarting 0)
              TRANSIT eq_refl eqb_17_0 eq_refl eq_refl eq_refl)
    as [(Hev & Hact & _) | (center & _ & Hev & _)].
  - left. split; [exact Hev | exact Hact].
  - right. cbv zeta in Hev. rewrite Hev. intros H.
    symmetry in H. now apply (app_tail_neq [] _) in H.
Defined.

(** ** The accuracy of solveKepler *)






(** ** The ephemeris and its fallback *)


